(** * ceresmeta: entry lock, cluster metadata cache and event dispatch

    A shallow embedding of the coordinator's Go code:

    - package [lock]: [EntryLock] with [TryLock] and [UnLock];
    - package [cluster]: the [Cluster] cache with [CreateSchema],
      [CreateTable], [DropTable], [GetTable] and [RegisterNode], over the
      [storage.Storage] and [id.Allocator] interfaces;
    - package [eventdispatch]: [DispatchImpl] with its six calls and the
      connection cache behind [getGrpcClient];
    - package [grpcservice]: the forwarding service's connection cache,
      [getForwardedGrpcClient];
    - the Scatter procedure's shard allocation.

    Go maps are [gmap]s and [gset]s, unsigned integers are [N] (a
    conversion to a narrower type is written out as a remainder), a pointer
    that may be nil is an [option], and a call that can return an error or
    panic returns an [outcome]. Mutexes serialise the bodies they guard, so
    each method is one atomic transition of the guarded state. *)

From stdpp Require Import gmap strings list fin_maps.
From Stdlib Require Import NArith.

Local Open Scope N_scope.

(** ** Results of Go calls *)

(** The arguments of a [Sprintf]-style call: the format string stays as
    written and the arguments stay beside it. A struct printed with [%v] is
    kept by its name only. *)
Inductive arg : Type :=
| ArgS (s : string)
| ArgN (n : N)
| ArgV (what : string).

Record msgf : Type := Msgf { fmt : string; args : list arg }.

(** An [error] value as the callers see it: the typed code errors of the
    packages with their [WithCausef] cause, what [errors.Wrap] and
    [errors.WithMessage] build around a cause, and errors coming from
    outside (storage, allocator, transport). *)
Inductive error : Type :=
| ErrSchemaNotFound (cause : msgf)
| ErrDispatch (cause : msgf)
| Wrap (cause : error) (msg : msgf)
| External (msg : string).

(** A two-valued Go return [(value, err)]. *)
Inductive result (A : Type) : Type :=
| Ok (a : A)
| Err (e : error).
Arguments Ok {A} a.
Arguments Err {A} e.

(** What a call does: return a value, return an error, or panic with a
    message. *)
Inductive outcome (A : Type) : Type :=
| Return (a : A)
| Failed (e : error)
| Panic (msg : msgf).
Arguments Return {A} a.
Arguments Failed {A} e.
Arguments Panic {A} msg.

(** The runtime's panic on a read through a nil pointer. *)
Definition nilDereference : msgf :=
  Msgf "invalid memory address or nil pointer dereference" [].

Definition is_Return {A} (o : outcome A) : bool :=
  match o with Return _ => true | _ => false end.
Definition is_Failed {A} (o : outcome A) : bool :=
  match o with Failed _ => true | _ => false end.
Definition is_Panic {A} (o : outcome A) : bool :=
  match o with Panic _ => true | _ => false end.

(** ** package lock *)

Module Lock.

(** [type EntryLock struct { lock sync.Mutex; entryLocks map[uint64]struct{} }]:
    a map to the empty struct is a set of its keys. *)
Record EntryLock : Type := { entryLocks : gset N }.

Definition NewEntryLock (initCapacity : N) : EntryLock :=
  {| entryLocks := ∅ |}.

(** First loop of [TryLock]: [true] when some entry exists in the map,
    which is where the Go loop returns early. *)
Fixpoint someExists (held : gset N) (locks : list N) : bool :=
  match locks with
  | [] => false
  | lock :: rest =>
      if decide (lock ∈ held) then true else someExists held rest
  end.

(** Second loop of [TryLock]: [l.entryLocks[lock] = struct{}{}]. *)
Fixpoint insertAll (held : gset N) (locks : list N) : gset N :=
  match locks with
  | [] => held
  | lock :: rest => insertAll ({[ lock ]} ∪ held) rest
  end.

Definition TryLock (l : EntryLock) (locks : list N) : bool * EntryLock :=
  if someExists (entryLocks l) locks then (false, l)
  else (true, {| entryLocks := insertAll (entryLocks l) locks |}).

(** First loop of [UnLock]: [true] when some entry is missing, which is
    where the Go loop panics. *)
Fixpoint someMissing (held : gset N) (locks : list N) : bool :=
  match locks with
  | [] => false
  | lock :: rest =>
      if decide (lock ∈ held) then someMissing held rest else true
  end.

(** Second loop of [UnLock]: [delete(l.entryLocks, lock)]. *)
Fixpoint deleteAll (held : gset N) (locks : list N) : gset N :=
  match locks with
  | [] => held
  | lock :: rest => deleteAll (held ∖ {[ lock ]}) rest
  end.

Definition UnLock (l : EntryLock) (locks : list N) : outcome unit * EntryLock :=
  if someMissing (entryLocks l) locks
  then (Panic (Msgf "try to unlock nonexistent lock, exists locks:%v, unlock locks:%v"
                    [ArgV "l.entryLocks"; ArgV "locks"]), l)
  else (Return tt, {| entryLocks := deleteAll (entryLocks l) locks |}).

End Lock.

(** ** package cluster *)

Module Cluster.

(** *** Protobuf messages ([clusterpb]) *)

Record SchemaPb : Type := {
  schema_Id : N;          (* uint32 *)
  schema_Name : string;
  schema_ClusterId : N;   (* uint32 *)
  schema_CreatedAt : N }.

Record TablePb : Type := {
  table_Id : N;           (* uint64 *)
  table_Name : string;
  table_SchemaId : N;     (* uint32 *)
  table_ShardId : N;      (* uint32 *)
  table_Desc : string;
  table_CreatedAt : N }.

Record NodeStats : Type := { Lease : N }.

Record NodePb : Type := {
  node_Name : string;
  node_NodeStats : option NodeStats;
  node_CreateTime : N;
  node_LastTouchTime : N }.

Inductive ShardRole : Type := LEADER | FOLLOWER.

Record ShardPb : Type := {
  shard_Id : N;
  shard_ShardRole : ShardRole;
  shard_Node : string }.

Inductive ClusterState : Type := EMPTY | STABLE.

Record ClusterPb : Type := {
  cluster_Id : N;
  cluster_Name : string;
  cluster_MinNodeCount : N;
  cluster_ReplicationFactor : N;
  cluster_ShardTotal : N }.

Record ClusterTopology : Type := {
  topology_ClusterId : N;
  topology_DataVersion : N;
  topology_Cause : string;
  topology_ShardView : list ShardPb;
  topology_State : ClusterState }.

(** *** The cached objects *)

(** [type metaData struct { cluster; clusterTopology }]; the topology
    pointer is nil until [Load] has run. *)
Record metaData : Type := {
  cluster : ClusterPb;
  clusterTopology : option ClusterTopology }.

Record Table : Type := {
  Table_schema : SchemaPb;
  Table_meta : TablePb }.

Record Schema : Type := {
  Schema_meta : SchemaPb;
  tableMap : gmap string Table }.

Record Shard : Type := {
  Shard_meta : list ShardPb;
  Shard_nodes : list NodePb;
  Shard_tables : gmap N Table;
  Shard_version : N }.

Record Node : Type := {
  Node_meta : NodePb;
  Node_shardIDs : list N }.

(** Modelled from the spec: the getters and droppers of the cached
    objects ([Schema.GetID], [Schema.getTable], [Schema.dropTableLocked],
    [Shard.dropTableLocked], [Table.GetID]) are not in the sources; each
    reads or deletes the one field its name says, as the data model has
    it (a schema and a table are identified by the ID in their record). *)
Definition Schema_GetID (s : Schema) : N := schema_Id (Schema_meta s).

Definition Table_GetID (t : Table) : N := table_Id (Table_meta t).

Definition Schema_getTable (s : Schema) (tableName : string) : option Table :=
  tableMap s !! tableName.

Definition Schema_dropTableLocked (s : Schema) (tableName : string) : Schema :=
  {| Schema_meta := Schema_meta s; tableMap := delete tableName (tableMap s) |}.

Definition Shard_dropTableLocked (s : Shard) (tableID : N) : Shard :=
  {| Shard_meta := Shard_meta s; Shard_nodes := Shard_nodes s;
     Shard_tables := delete tableID (Shard_tables s);
     Shard_version := Shard_version s |}.

(** *** The interfaces the cluster calls *)

(** [storage.Storage], the methods the modelled code calls. Every method
    takes the store's state and returns the new one with the Go results;
    [GetTable] returns [(table, exists, err)] and [DeleteTable] only an
    error. *)
Class Storage (S : Type) : Type := {
  storage_CreateSchema : S → N → SchemaPb → S * result SchemaPb;
  storage_CreateTable : S → N → N → TablePb → S * result TablePb;
  storage_GetTable : S → N → N → string → S * result (option TablePb);
  storage_DeleteTable : S → N → N → string → S * option error;
  storage_CreateOrUpdateNode : S → N → NodePb → S * result NodePb }.

(** [id.Allocator]. *)
Class Allocator (A : Type) : Type := {
  alloc_Alloc : A → A * result N }.

Section WithInterfaces.
Context {S A : Type} `{!Storage S, !Allocator A}.

(** [type Cluster struct]: the fields guarded by [lock], and the states
    of the two collaborators the cluster owns. *)
Record Cluster : Type := {
  clusterID : N;
  metaData_ : metaData;
  shardsCache : gmap N Shard;
  schemasCache : gmap string Schema;
  nodesCache : gmap string Node;
  storage : S;
  alloc : A }.

Definition set_storage (c : Cluster) (st : S) : Cluster :=
  {| clusterID := clusterID c; metaData_ := metaData_ c;
     shardsCache := shardsCache c; schemasCache := schemasCache c;
     nodesCache := nodesCache c; storage := st; alloc := alloc c |}.

Definition set_alloc (c : Cluster) (a : A) : Cluster :=
  {| clusterID := clusterID c; metaData_ := metaData_ c;
     shardsCache := shardsCache c; schemasCache := schemasCache c;
     nodesCache := nodesCache c; storage := storage c; alloc := a |}.

Definition set_shardsCache (c : Cluster) (m : gmap N Shard) : Cluster :=
  {| clusterID := clusterID c; metaData_ := metaData_ c;
     shardsCache := m; schemasCache := schemasCache c;
     nodesCache := nodesCache c; storage := storage c; alloc := alloc c |}.

Definition set_schemasCache (c : Cluster) (m : gmap string Schema) : Cluster :=
  {| clusterID := clusterID c; metaData_ := metaData_ c;
     shardsCache := shardsCache c; schemasCache := m;
     nodesCache := nodesCache c; storage := storage c; alloc := alloc c |}.

Definition set_nodesCache (c : Cluster) (m : gmap string Node) : Cluster :=
  {| clusterID := clusterID c; metaData_ := metaData_ c;
     shardsCache := shardsCache c; schemasCache := schemasCache c;
     nodesCache := m; storage := storage c; alloc := alloc c |}.

(** [schema, ok := c.schemasCache[schemaName]]: the map holds non-nil
    pointers only, so [Some] is [ok = true] and [None] is the nil pointer
    with [ok = false]. *)
Definition getSchemaLocked (c : Cluster) (schemaName : string) : option Schema :=
  schemasCache c !! schemaName.

Definition updateSchemaCacheLocked (c : Cluster) (schemaPb : SchemaPb)
  : Schema * Cluster :=
  let schema := {| Schema_meta := schemaPb; tableMap := ∅ |} in
  (schema, set_schemasCache c (<[schema_Name schemaPb := schema]> (schemasCache c))).

(** [updateTableCacheLocked(schema, tablePb)]. [schema] is a pointer to
    the object the cache holds under [schemaName], so the write to its
    [tableMap] is a write to that cache entry. The shard is looked up
    after that write; a shard ID the cache does not have gives the nil
    pointer, and reading its [tables] panics. *)
Definition updateTableCacheLocked (c : Cluster) (schemaName : string)
    (schema : Schema) (tablePb : TablePb) : outcome Table * Cluster :=
  let table := {| Table_meta := tablePb; Table_schema := Schema_meta schema |} in
  let schema' := {| Schema_meta := Schema_meta schema;
                    tableMap := <[table_Name tablePb := table]> (tableMap schema) |} in
  let c1 := set_schemasCache c (<[schemaName := schema']> (schemasCache c)) in
  match shardsCache c1 !! table_ShardId tablePb with
  | None => (Panic nilDereference, c1)
  | Some shard =>
      let shard' := {| Shard_meta := Shard_meta shard;
                       Shard_nodes := Shard_nodes shard;
                       Shard_tables := <[Table_GetID table := table]> (Shard_tables shard);
                       Shard_version := Shard_version shard |} in
      (Return table,
       set_shardsCache c1 (<[table_ShardId tablePb := shard']> (shardsCache c1)))
  end.

(** [uint32(ID)] keeps the low 32 bits. *)
Definition allocSchemaID (c : Cluster) : result N * Cluster :=
  let '(a', r) := alloc_Alloc (alloc c) in
  match r with
  | Err err => (Err (Wrap err (Msgf "alloc schema id failed" [])), set_alloc c a')
  | Ok ID => (Ok (ID mod 2 ^ 32), set_alloc c a')
  end.

Definition allocTableID (c : Cluster) : result N * Cluster :=
  let '(a', r) := alloc_Alloc (alloc c) in
  match r with
  | Err err => (Err (Wrap err (Msgf "alloc table id failed" [])), set_alloc c a')
  | Ok ID => (Ok ID, set_alloc c a')
  end.

Definition CreateSchema (c : Cluster) (schemaName : string) : outcome N * Cluster :=
  (* check if exists *)
  match getSchemaLocked c schemaName with
  | Some schema => (Return (Schema_GetID schema), c)
  | None =>
      (* alloc schema id *)
      let '(r, c1) := allocSchemaID c in
      match r with
      | Err err =>
          (Failed (Wrap err (Msgf "cluster AllocSchemaID, schemaName:%s" [ArgS schemaName])), c1)
      | Ok schemaID =>
          (* persist *)
          let schemaPb := {| schema_Id := schemaID; schema_Name := schemaName;
                             schema_ClusterId := clusterID c1;
                             schema_CreatedAt := 0 |} in
          let '(st', r') := storage_CreateSchema (storage c1) (clusterID c1) schemaPb in
          let c2 := set_storage c1 st' in
          match r' with
          | Err err => (Failed (Wrap err (Msgf "clusters CreateSchema" [])), c2)
          | Ok schemaPb' =>
              (* cache *)
              (Return schemaID, snd (updateSchemaCacheLocked c2 schemaPb'))
          end
      end
  end.

Definition CreateTable (c : Cluster) (schemaName : string) (shardID : N)
    (tableName : string) : outcome N * Cluster :=
  (* Check provided schema if exists. *)
  match getSchemaLocked c schemaName with
  | None => (Failed (ErrSchemaNotFound (Msgf "schemaName" [ArgS schemaName])), c)
  | Some schema =>
      (* alloc table id *)
      let '(r, c1) := allocTableID c in
      match r with
      | Err err =>
          (Failed (Wrap err (Msgf "cluster AllocTableID, schemaName:%s, tableName:%s"
                                  [ArgS schemaName; ArgS tableName])), c1)
      | Ok tableID =>
          (* Save table in storage. *)
          let tablePb := {| table_Id := tableID; table_Name := tableName;
                            table_SchemaId := Schema_GetID schema;
                            table_ShardId := shardID;
                            table_Desc := ""; table_CreatedAt := 0 |} in
          let '(st', r') :=
            storage_CreateTable (storage c1) (clusterID c1) (Schema_GetID schema) tablePb in
          let c2 := set_storage c1 st' in
          match r' with
          | Err err => (Failed (Wrap err (Msgf "clusters CreateTable" [])), c2)
          | Ok tablePb' =>
              (* Update tableCache in memory. *)
              match updateTableCacheLocked c2 schemaName schema tablePb' with
              | (Return _, c3) => (Return tableID, c3)
              | (Failed e, c3) => (Failed e, c3)
              | (Panic m, c3) => (Panic m, c3)
              end
          end
      end
  end.

(** [DropTable]. The guard is written [if exists { return
    ErrSchemaNotFound }]. Past it [schema] is the nil pointer, and
    [schema.GetID()] reads through it. The rest of the body is what runs
    with a schema in hand, [rest_of_DropTable]. *)
Definition rest_of_DropTable (c : Cluster) (schemaName : string) (schema : Schema)
    (tableName : string) (tableID : N) : outcome unit * Cluster :=
  let '(st', err) :=
    storage_DeleteTable (storage c) (clusterID c) (Schema_GetID schema) tableName in
  let c1 := set_storage c st' in
  match err with
  | Some err =>
      (Failed (Wrap err (Msgf "clusters DropTable, clusterID:%d, schema:%v, tableName:%s"
                              [ArgN (clusterID c); ArgV "schema"; ArgS tableName])), c1)
  | None =>
      let c2 := set_schemasCache c1
                  (<[schemaName := Schema_dropTableLocked schema tableName]>
                     (schemasCache c1)) in
      (Return tt,
       set_shardsCache c2 ((λ shard, Shard_dropTableLocked shard tableID) <$> shardsCache c2))
  end.

Definition DropTable (c : Cluster) (schemaName tableName : string) (tableID : N)
  : outcome unit * Cluster :=
  let schema := getSchemaLocked c schemaName in
  let exists_ := bool_decide (is_Some schema) in
  if exists_
  then (Failed (ErrSchemaNotFound (Msgf "schemaName:%s" [ArgS schemaName])), c)
  else
    match schema with
    | None => (Panic nilDereference, c)
    | Some schema => rest_of_DropTable c schemaName schema tableName tableID
    end.

Definition GetTable (c : Cluster) (schemaName tableName : string)
  : outcome (option Table) * Cluster :=
  match schemasCache c !! schemaName with
  | None => (Failed (ErrSchemaNotFound (Msgf "schemaName" [ArgS schemaName])), c)
  | Some schema =>
      match Schema_getTable schema tableName with
      | Some table => (Return (Some table), c)
      | None =>
          (* Search table in storage. *)
          let '(st', r) :=
            storage_GetTable (storage c) (clusterID c) (Schema_GetID schema) tableName in
          let c1 := set_storage c st' in
          match r with
          | Err err => (Failed (Wrap err (Msgf "clusters GetTable" [])), c1)
          | Ok (Some tablePb) =>
              match updateTableCacheLocked c1 schemaName schema tablePb with
              | (Return table, c2) => (Return (Some table), c2)
              | (Failed e, c2) => (Failed e, c2)
              | (Panic m, c2) => (Panic m, c2)
              end
          | Ok None => (Return None, c1)
          end
      end
  end.

Definition RegisterNode (c : Cluster) (nodeName : string) (lease : N)
  : outcome unit * Cluster :=
  let nodePb := {| node_Name := nodeName;
                   node_NodeStats := Some {| Lease := lease |};
                   node_CreateTime := 0; node_LastTouchTime := 0 |} in
  let '(st', r) := storage_CreateOrUpdateNode (storage c) (clusterID c) nodePb in
  let c1 := set_storage c st' in
  match r with
  | Err err =>
      (Failed (Wrap err (Msgf "clusters manager RegisterNode, nodeName:%s" [ArgS nodeName])), c1)
  | Ok nodePb1 =>
      match nodesCache c1 !! nodeName with
      | Some node =>
          (Return tt,
           set_nodesCache c1
             (<[nodeName := {| Node_meta := nodePb1; Node_shardIDs := Node_shardIDs node |}]>
                (nodesCache c1)))
      | None =>
          (Return tt,
           set_nodesCache c1
             (<[nodeName := {| Node_meta := nodePb1; Node_shardIDs := [] |}]>
                (nodesCache c1)))
      end
  end.

End WithInterfaces.

Arguments Cluster : clear implicits.

End Cluster.

(** ** In-memory collaborators *)

Module Mem.
Import Cluster.

(** Modelled from the spec: the storage implementation is not in the
    sources. The spec gives a key-value store with typed hierarchical
    keys, [cluster/<id>/schema/<id>], [cluster/<id>/schema/<id>/table/<name>]
    and [cluster/<id>/node/<name>], with get, put and delete, failing as
    [Unavailable] on transport errors. [mem_available] says whether the
    store can be reached. *)
Record MemStorage : Type := {
  mem_schemas : gmap (N * N) SchemaPb;
  mem_tables : gmap (N * N * string) TablePb;
  mem_nodes : gmap (N * string) NodePb;
  mem_available : bool }.

Definition Unavailable : error := External "Unavailable".

Definition mem_CreateSchema (st : MemStorage) (clusterID : N) (schema : SchemaPb)
  : MemStorage * result SchemaPb :=
  if mem_available st then
    ({| mem_schemas := <[(clusterID, schema_Id schema) := schema]> (mem_schemas st);
        mem_tables := mem_tables st; mem_nodes := mem_nodes st;
        mem_available := true |}, Ok schema)
  else (st, Err Unavailable).

Definition mem_CreateTable (st : MemStorage) (clusterID schemaID : N) (table : TablePb)
  : MemStorage * result TablePb :=
  if mem_available st then
    ({| mem_schemas := mem_schemas st;
        mem_tables := <[(clusterID, schemaID, table_Name table) := table]> (mem_tables st);
        mem_nodes := mem_nodes st; mem_available := true |}, Ok table)
  else (st, Err Unavailable).

Definition mem_GetTable (st : MemStorage) (clusterID schemaID : N) (tableName : string)
  : MemStorage * result (option TablePb) :=
  if mem_available st then (st, Ok (mem_tables st !! (clusterID, schemaID, tableName)))
  else (st, Err Unavailable).

Definition mem_DeleteTable (st : MemStorage) (clusterID schemaID : N) (tableName : string)
  : MemStorage * option error :=
  if mem_available st then
    ({| mem_schemas := mem_schemas st;
        mem_tables := delete (clusterID, schemaID, tableName) (mem_tables st);
        mem_nodes := mem_nodes st; mem_available := true |}, None)
  else (st, Some Unavailable).

Definition mem_CreateOrUpdateNode (st : MemStorage) (clusterID : N) (node : NodePb)
  : MemStorage * result NodePb :=
  if mem_available st then
    ({| mem_schemas := mem_schemas st; mem_tables := mem_tables st;
        mem_nodes := <[(clusterID, node_Name node) := node]> (mem_nodes st);
        mem_available := true |}, Ok node)
  else (st, Err Unavailable).

#[export] Instance MemStorage_Storage : Storage MemStorage := {
  storage_CreateSchema := mem_CreateSchema;
  storage_CreateTable := mem_CreateTable;
  storage_GetTable := mem_GetTable;
  storage_DeleteTable := mem_DeleteTable;
  storage_CreateOrUpdateNode := mem_CreateOrUpdateNode }.

(** Modelled from the spec: the allocator implementation is not in the
    sources. The spec gives dense, monotonically increasing 64-bit IDs;
    the state is the next ID to hand out. *)
Definition CounterAlloc : Type := N.

Definition counter_Alloc (next : CounterAlloc) : CounterAlloc * result N :=
  (next + 1, Ok next).

#[export] Instance CounterAlloc_Allocator : Allocator CounterAlloc := {
  alloc_Alloc := counter_Alloc }.

Definition emptyStorage : MemStorage :=
  {| mem_schemas := ∅; mem_tables := ∅; mem_nodes := ∅; mem_available := true |}.

Definition emptyShard : Shard :=
  {| Shard_meta := []; Shard_nodes := []; Shard_tables := ∅; Shard_version := 0 |}.

(** A loaded cluster with shards 0 and 1 and nothing else, on an empty
    store, with the allocator at [next]. *)
Definition freshCluster (next : N) : Cluster MemStorage CounterAlloc :=
  {| clusterID := 1;
     metaData_ := {| cluster := {| cluster_Id := 1; cluster_Name := "c";
                                   cluster_MinNodeCount := 2;
                                   cluster_ReplicationFactor := 1;
                                   cluster_ShardTotal := 2 |};
                     clusterTopology := None |};
     shardsCache := <[0 := emptyShard]> (<[1 := emptyShard]> ∅);
     schemasCache := ∅; nodesCache := ∅;
     storage := emptyStorage; alloc := next |}.

(** The cluster of the end-to-end scenarios: schema [s] created on the
    fresh cluster, then table [t] created in [s] on shard 1. *)
Definition withSchema : Cluster MemStorage CounterAlloc :=
  snd (CreateSchema (freshCluster 7) "s").

Definition withTable : Cluster MemStorage CounterAlloc :=
  snd (CreateTable withSchema "s" 1 "t").

Definition schemaS : SchemaPb :=
  {| schema_Id := 7; schema_Name := "s"; schema_ClusterId := 1; schema_CreatedAt := 0 |}.

Definition tableT (tableID : N) : Table :=
  {| Table_schema := schemaS;
     Table_meta := {| table_Id := tableID; table_Name := "t"; table_SchemaId := 7;
                      table_ShardId := 1; table_Desc := ""; table_CreatedAt := 0 |} |}.

(** The table IDs a shard of the cache holds. *)
Definition tableIDsOfShard {S A : Type} (c : Cluster S A) (shardID : N) : list N :=
  match shardsCache c !! shardID with
  | Some shard => (map_to_list (Shard_tables shard)).*1
  | None => []
  end.

End Mem.

(** ** package eventdispatch *)

Module EventDispatch.

(** [commonpb.ResponseHeader]. *)
Record ResponseHeader : Type := {
  Code : N;          (* uint32 *)
  Error : string }.

(** A response of the meta event service. The header is a pointer and
    may be nil; [LatestShardVersion] is read from the responses of
    [CreateTableOnShard] and [DropTableOnShard] only. *)
Record Response : Type := {
  Header : option ResponseHeader;
  LatestShardVersion : N }.

(** A [*grpc.ClientConn], by identity. *)
Definition ClientConn : Type := N.

(** [service.GetClientConn] dials an endpoint; the dial may change the
    world and may fail. *)
Class Dialer (W : Type) : Type := {
  GetClientConn : W → string → W * result ClientConn }.

Section WithMetadata.
(** [metadata.ShardInfo], [metadata.TableInfo], their protobuf
    counterparts and the two converters of package [metadata] are
    declared outside the modelled sources. *)
Variables ShardInfo TableInfo ShardInfoPB TableInfoPB : Type.
Variable ConvertShardsInfoToPB : ShardInfo → ShardInfoPB.
Variable ConvertTableInfoToPB : TableInfo → TableInfoPB.

Record UpdateShardInfo : Type := { CurrShardInfo : ShardInfo }.

Record OpenShardRequest : Type := { Shard : ShardInfo }.

Record CloseShardRequest : Type := { ShardID : N }.

Record CreateTableOnShardRequest : Type := {
  create_UpdateShardInfo : UpdateShardInfo;
  create_TableInfo : TableInfo;
  EncodedSchema : list N;
  Engine : string;
  CreateIfNotExist : bool;
  Options : gmap string string }.

Record DropTableOnShardRequest : Type := {
  drop_UpdateShardInfo : UpdateShardInfo;
  drop_TableInfo : TableInfo }.

Record OpenTableOnShardRequest : Type := {
  open_UpdateShardInfo : UpdateShardInfo;
  open_TableInfo : TableInfo }.

Record CloseTableOnShardRequest : Type := {
  close_UpdateShardInfo : UpdateShardInfo;
  close_TableInfo : TableInfo }.

(** [metaeventpb.UpdateShardInfo]. *)
Record UpdateShardInfoPB : Type := { pb_CurrShardInfo : ShardInfoPB }.

(** The request messages of [metaeventpb], one constructor per method of
    [MetaEventServiceClient]. *)
Inductive RequestPB : Type :=
| OpenShardRequestPB (shard : ShardInfoPB)
| CloseShardRequestPB (shardId : N)
| CreateTableOnShardRequestPB (updateShardInfo : UpdateShardInfoPB)
    (tableInfo : TableInfoPB) (encodedSchema : list N) (engine : string)
    (createIfNotExist : bool) (options : gmap string string)
| DropTableOnShardRequestPB (updateShardInfo : UpdateShardInfoPB) (tableInfo : TableInfoPB)
| OpenTableOnShardRequestPB (updateShardInfo : UpdateShardInfoPB) (tableInfo : TableInfoPB)
| CloseTableOnShardRequestPB (updateShardInfo : UpdateShardInfoPB) (tableInfo : TableInfoPB).

(** A method of the generated [MetaEventServiceClient] sends one request
    over a connection and returns [(resp, err)]; it may change the world. *)
Class Transport (W : Type) : Type := {
  Invoke : W → ClientConn → RequestPB → W * result Response }.

Context {W : Type} `{!Dialer W, !Transport W}.

(** [type DispatchImpl struct { conns sync.Map }], addr -> connection. *)
Record DispatchImpl : Type := { conns : gmap string ClientConn }.

Definition NewDispatchImpl : DispatchImpl := {| conns := ∅ |}.

Definition convertUpdateShardInfoToPB (updateShardInfo : UpdateShardInfo)
  : UpdateShardInfoPB :=
  {| pb_CurrShardInfo := ConvertShardsInfoToPB (CurrShardInfo updateShardInfo) |}.

Definition convertCreateTableOnShardRequestToPB (request : CreateTableOnShardRequest)
  : RequestPB :=
  CreateTableOnShardRequestPB
    (convertUpdateShardInfoToPB (create_UpdateShardInfo request))
    (ConvertTableInfoToPB (create_TableInfo request))
    (EncodedSchema request) (Engine request) (CreateIfNotExist request)
    (Options request).

Definition convertDropTableOnShardRequestToPB (request : DropTableOnShardRequest)
  : RequestPB :=
  DropTableOnShardRequestPB
    (convertUpdateShardInfoToPB (drop_UpdateShardInfo request))
    (ConvertTableInfoToPB (drop_TableInfo request)).

Definition convertCloseTableOnShardRequestToPB (request : CloseTableOnShardRequest)
  : RequestPB :=
  CloseTableOnShardRequestPB
    (convertUpdateShardInfoToPB (close_UpdateShardInfo request))
    (ConvertTableInfoToPB (close_TableInfo request)).

Definition convertOpenTableOnShardRequestToPB (request : OpenTableOnShardRequest)
  : RequestPB :=
  OpenTableOnShardRequestPB
    (convertUpdateShardInfoToPB (open_UpdateShardInfo request))
    (ConvertTableInfoToPB (open_TableInfo request)).

(** [getGrpcClient]: a hit returns the stored connection; a miss dials,
    and stores the connection only when the dial succeeded. *)
Definition getGrpcClient (d : DispatchImpl) (w : W) (addr : string)
  : result ClientConn * DispatchImpl * W :=
  match conns d !! addr with
  | Some client => (Ok client, d, w)
  | None =>
      let '(w', r) := GetClientConn w addr in
      match r with
      | Err err => (Err err, d, w')
      | Ok cc => (Ok cc, {| conns := <[addr := cc]> (conns d) |}, w')
      end
  end.

(** [getMetaEventClient]: the client is a wrapper of the connection. *)
Definition getMetaEventClient (d : DispatchImpl) (w : W) (addr : string)
  : result ClientConn * DispatchImpl * W :=
  let '(r, d', w') := getGrpcClient d w addr in
  match r with
  | Err err => (Err (Wrap err (Msgf "get meta event client, addr:%s" [ArgS addr])), d', w')
  | Ok client => (Ok client, d', w')
  end.

(** The six calls. Each gets the client, sends its request, and reads
    the response: [resp.GetHeader().Code] reads through the header pointer
    (a nil header panics), [GetError] is the header's message. *)
Definition OpenShard (d : DispatchImpl) (w : W) (addr : string)
    (request : OpenShardRequest) : outcome unit * DispatchImpl * W :=
  let '(r, d1, w1) := getMetaEventClient d w addr in
  match r with
  | Err err => (Failed err, d1, w1)
  | Ok client =>
      let '(w2, r') := Invoke w1 client (OpenShardRequestPB (ConvertShardsInfoToPB (Shard request))) in
      match r' with
      | Err err =>
          (Failed (Wrap err (Msgf "open shard, addr:%s, request:%v"
                                  [ArgS addr; ArgV "request"])), d1, w2)
      | Ok resp =>
          match Header resp with
          | None => (Panic nilDereference, d1, w2)
          | Some header =>
              if decide (Code header ≠ 0)
              then (Failed (ErrDispatch
                              (Msgf "open shard, addr:%s, request:%v, err:%s"
                                    [ArgS addr; ArgV "request"; ArgS (Error header)])),
                    d1, w2)
              else (Return tt, d1, w2)
          end
      end
  end.

Definition CloseShard (d : DispatchImpl) (w : W) (addr : string)
    (request : CloseShardRequest) : outcome unit * DispatchImpl * W :=
  let '(r, d1, w1) := getMetaEventClient d w addr in
  match r with
  | Err err => (Failed err, d1, w1)
  | Ok client =>
      let '(w2, r') := Invoke w1 client (CloseShardRequestPB (ShardID request)) in
      match r' with
      | Err err =>
          (Failed (Wrap err (Msgf "close shard, addr:%s, request:%v"
                                  [ArgS addr; ArgV "request"])), d1, w2)
      | Ok resp =>
          match Header resp with
          | None => (Panic nilDereference, d1, w2)
          | Some header =>
              if decide (Code header ≠ 0)
              then (Failed (ErrDispatch
                              (Msgf "close shard, addr:%s, request:%v, err:%s"
                                    [ArgS addr; ArgV "request"; ArgS (Error header)])),
                    d1, w2)
              else (Return tt, d1, w2)
          end
      end
  end.

Definition CreateTableOnShard (d : DispatchImpl) (w : W) (addr : string)
    (request : CreateTableOnShardRequest) : outcome N * DispatchImpl * W :=
  let '(r, d1, w1) := getMetaEventClient d w addr in
  match r with
  | Err err => (Failed err, d1, w1)
  | Ok client =>
      let '(w2, r') := Invoke w1 client (convertCreateTableOnShardRequestToPB request) in
      match r' with
      | Err err =>
          (Failed (Wrap err (Msgf "create table on shard, addr:%s, request:%v"
                                  [ArgS addr; ArgV "request"])), d1, w2)
      | Ok resp =>
          match Header resp with
          | None => (Panic nilDereference, d1, w2)
          | Some header =>
              if decide (Code header ≠ 0)
              then (Failed (ErrDispatch
                              (Msgf "create table on shard, addr:%s, request:%v, err:%s"
                                    [ArgS addr; ArgV "request"; ArgS (Error header)])),
                    d1, w2)
              else (Return (LatestShardVersion resp), d1, w2)
          end
      end
  end.

Definition DropTableOnShard (d : DispatchImpl) (w : W) (addr : string)
    (request : DropTableOnShardRequest) : outcome N * DispatchImpl * W :=
  let '(r, d1, w1) := getMetaEventClient d w addr in
  match r with
  | Err err => (Failed err, d1, w1)
  | Ok client =>
      let '(w2, r') := Invoke w1 client (convertDropTableOnShardRequestToPB request) in
      match r' with
      | Err err =>
          (Failed (Wrap err (Msgf "drop table on shard, addr:%s, request:%v"
                                  [ArgS addr; ArgV "request"])), d1, w2)
      | Ok resp =>
          match Header resp with
          | None => (Panic nilDereference, d1, w2)
          | Some header =>
              if decide (Code header ≠ 0)
              then (Failed (ErrDispatch
                              (Msgf "drop table on shard, addr:%s, request:%v, err:%s"
                                    [ArgS addr; ArgV "request"; ArgS (Error header)])),
                    d1, w2)
              else (Return (LatestShardVersion resp), d1, w2)
          end
      end
  end.

Definition OpenTableOnShard (d : DispatchImpl) (w : W) (addr : string)
    (request : OpenTableOnShardRequest) : outcome unit * DispatchImpl * W :=
  let '(r, d1, w1) := getMetaEventClient d w addr in
  match r with
  | Err err => (Failed err, d1, w1)
  | Ok client =>
      let '(w2, r') := Invoke w1 client (convertOpenTableOnShardRequestToPB request) in
      match r' with
      | Err err =>
          (Failed (Wrap err (Msgf "open table on shard, addr:%s, request:%v"
                                  [ArgS addr; ArgV "request"])), d1, w2)
      | Ok resp =>
          match Header resp with
          | None => (Panic nilDereference, d1, w2)
          | Some header =>
              if decide (Code header ≠ 0)
              then (Failed (ErrDispatch
                              (Msgf "open table on shard, addr:%s, request:%v, err:%s"
                                    [ArgS addr; ArgV "request"; ArgS (Error header)])),
                    d1, w2)
              else (Return tt, d1, w2)
          end
      end
  end.

Definition CloseTableOnShard (d : DispatchImpl) (w : W) (addr : string)
    (request : CloseTableOnShardRequest) : outcome unit * DispatchImpl * W :=
  let '(r, d1, w1) := getMetaEventClient d w addr in
  match r with
  | Err err => (Failed err, d1, w1)
  | Ok client =>
      let '(w2, r') := Invoke w1 client (convertCloseTableOnShardRequestToPB request) in
      match r' with
      | Err err =>
          (Failed (Wrap err (Msgf "close table on shard, addr:%s, request:%v"
                                  [ArgS addr; ArgV "request"])), d1, w2)
      | Ok resp =>
          match Header resp with
          | None => (Panic nilDereference, d1, w2)
          | Some header =>
              if decide (Code header ≠ 0)
              then (Failed (ErrDispatch
                              (Msgf "close table on shard, addr:%s, request:%v, err:%s"
                                    [ArgS addr; ArgV "request"; ArgS (Error header)])),
                    d1, w2)
              else (Return tt, d1, w2)
          end
      end
  end.

(** The six calls under one type, for statements about all of them. The
    returned shard version is [Some] for the two calls that have one. *)
Inductive Call : Type :=
| CallOpenShard (request : OpenShardRequest)
| CallCloseShard (request : CloseShardRequest)
| CallCreateTableOnShard (request : CreateTableOnShardRequest)
| CallDropTableOnShard (request : DropTableOnShardRequest)
| CallOpenTableOnShard (request : OpenTableOnShardRequest)
| CallCloseTableOnShard (request : CloseTableOnShardRequest).

Definition outcome_map {X Y : Type} (f : X → Y) (o : outcome X) : outcome Y :=
  match o with
  | Return x => Return (f x)
  | Failed e => Failed e
  | Panic m => Panic m
  end.

Definition run (d : DispatchImpl) (w : W) (addr : string) (call : Call)
  : outcome (option N) * DispatchImpl * W :=
  match call with
  | CallOpenShard request =>
      let '(o, d', w') := OpenShard d w addr request in (outcome_map (λ _, None) o, d', w')
  | CallCloseShard request =>
      let '(o, d', w') := CloseShard d w addr request in (outcome_map (λ _, None) o, d', w')
  | CallCreateTableOnShard request =>
      let '(o, d', w') := CreateTableOnShard d w addr request in (outcome_map Some o, d', w')
  | CallDropTableOnShard request =>
      let '(o, d', w') := DropTableOnShard d w addr request in (outcome_map Some o, d', w')
  | CallOpenTableOnShard request =>
      let '(o, d', w') := OpenTableOnShard d w addr request in (outcome_map (λ _, None) o, d', w')
  | CallCloseTableOnShard request =>
      let '(o, d', w') := CloseTableOnShard d w addr request in (outcome_map (λ _, None) o, d', w')
  end.

(** The request a call puts on the wire. *)
Definition wire (call : Call) : RequestPB :=
  match call with
  | CallOpenShard request => OpenShardRequestPB (ConvertShardsInfoToPB (Shard request))
  | CallCloseShard request => CloseShardRequestPB (ShardID request)
  | CallCreateTableOnShard request => convertCreateTableOnShardRequestToPB request
  | CallDropTableOnShard request => convertDropTableOnShardRequestToPB request
  | CallOpenTableOnShard request => convertOpenTableOnShardRequestToPB request
  | CallCloseTableOnShard request => convertCloseTableOnShardRequestToPB request
  end.

(** The operation name a call writes into its error messages. *)
Definition opName (call : Call) : string :=
  match call with
  | CallOpenShard _ => "open shard"
  | CallCloseShard _ => "close shard"
  | CallCreateTableOnShard _ => "create table on shard"
  | CallDropTableOnShard _ => "drop table on shard"
  | CallOpenTableOnShard _ => "open table on shard"
  | CallCloseTableOnShard _ => "close table on shard"
  end.

(** What a call returns for a response that passed the header check. *)
Definition returned (call : Call) (resp : Response) : option N :=
  match call with
  | CallCreateTableOnShard _ | CallDropTableOnShard _ => Some (LatestShardVersion resp)
  | _ => None
  end.

(** The one shape the six bodies share, with the call's operation name,
    wire request and return value filled in. *)
Definition shape (d : DispatchImpl) (w : W) (addr : string)
    (call : Call) : outcome (option N) * DispatchImpl * W :=
  let '(r, d1, w1) := getMetaEventClient d w addr in
  match r with
  | Err err => (Failed err, d1, w1)
  | Ok client =>
      let '(w2, r') :=
        Invoke w1 client (wire call) in
      match r' with
      | Err err =>
          (Failed (Wrap err (Msgf (opName call +:+ ", addr:%s, request:%v")
                                  [ArgS addr; ArgV "request"])), d1, w2)
      | Ok resp =>
          match Header resp with
          | None => (Panic nilDereference, d1, w2)
          | Some header =>
              if decide (Code header ≠ 0)
              then (Failed (ErrDispatch
                              (Msgf (opName call +:+ ", addr:%s, request:%v, err:%s")
                                    [ArgS addr; ArgV "request"; ArgS (Error header)])),
                    d1, w2)
              else (Return (returned call resp), d1, w2)
          end
      end
  end.

(** What the remote call underneath a dispatch did: the connection could
    not be obtained, the request failed in transit, or a response came
    back. *)
Inductive rpc : Type :=
| NoConnection (err : error)
| CallFailed (err : error)
| Responded (resp : Response).

Definition underlying (d : DispatchImpl) (w : W) (addr : string) (request : RequestPB)
  : rpc :=
  let '(r, _, w1) := getGrpcClient d w addr in
  match r with
  | Err err => NoConnection err
  | Ok client =>
      match snd (Invoke w1 client request) with
      | Err err => CallFailed err
      | Ok resp => Responded resp
      end
  end.

Definition rpc_failed (r : rpc) : Prop :=
  match r with
  | NoConnection _ | CallFailed _ => True
  | Responded _ => False
  end.

(** The response's header code is non-zero. *)
Definition code_nonzero (r : rpc) : Prop :=
  match r with
  | Responded resp =>
      match Header resp with
      | Some header => Code header ≠ 0
      | None => False
      end
  | _ => False
  end.

End WithMetadata.

Arguments Invoke {ShardInfoPB TableInfoPB W _} _ _ _.
Arguments underlying {ShardInfoPB TableInfoPB W _ _} d w addr request.
Arguments OpenShard {ShardInfo ShardInfoPB TableInfoPB} ConvertShardsInfoToPB {W _ _}
  d w addr request.
Arguments CloseShard {ShardInfoPB TableInfoPB W _ _} d w addr request.
Arguments CreateTableOnShard {ShardInfo TableInfo ShardInfoPB TableInfoPB}
  ConvertShardsInfoToPB ConvertTableInfoToPB {W _ _} d w addr request.
Arguments DropTableOnShard {ShardInfo TableInfo ShardInfoPB TableInfoPB}
  ConvertShardsInfoToPB ConvertTableInfoToPB {W _ _} d w addr request.
Arguments OpenTableOnShard {ShardInfo TableInfo ShardInfoPB TableInfoPB}
  ConvertShardsInfoToPB ConvertTableInfoToPB {W _ _} d w addr request.
Arguments CloseTableOnShard {ShardInfo TableInfo ShardInfoPB TableInfoPB}
  ConvertShardsInfoToPB ConvertTableInfoToPB {W _ _} d w addr request.
Arguments run {ShardInfo TableInfo ShardInfoPB TableInfoPB}
  ConvertShardsInfoToPB ConvertTableInfoToPB {W _ _} d w addr call.
Arguments wire {ShardInfo TableInfo ShardInfoPB TableInfoPB}
  ConvertShardsInfoToPB ConvertTableInfoToPB call.
Arguments shape {ShardInfo TableInfo ShardInfoPB TableInfoPB}
  ConvertShardsInfoToPB ConvertTableInfoToPB {W _ _} d w addr call.
Arguments opName {ShardInfo TableInfo} call.
Arguments CallOpenShard {ShardInfo TableInfo} request.
Arguments CallCloseShard {ShardInfo TableInfo} request.
Arguments CallCreateTableOnShard {ShardInfo TableInfo} request.
Arguments CallDropTableOnShard {ShardInfo TableInfo} request.
Arguments CallOpenTableOnShard {ShardInfo TableInfo} request.
Arguments CallCloseTableOnShard {ShardInfo TableInfo} request.
Arguments returned {ShardInfo TableInfo} call resp.

End EventDispatch.

(** ** package grpcservice *)

Module GrpcService.
Import EventDispatch.

Section WithDialer.
Context {W : Type} `{!Dialer W}.

(** [type Service struct], the field the forwarding code uses: [conns
    sync.Map], stored as [map[string]*grpc.ClientConn]; the field carries
    the note [TODO: remove unavailable connection]. *)
Record Service : Type := { conns : gmap string ClientConn }.

Definition getForwardedGrpcClient (s : Service) (w : W) (forwardedAddr : string)
  : result ClientConn * Service * W :=
  match conns s !! forwardedAddr with
  | Some client => (Ok client, s, w)
  | None =>
      let '(w', r) := GetClientConn w forwardedAddr in
      match r with
      | Err err => (Err err, s, w')
      | Ok cc => (Ok cc, {| conns := <[forwardedAddr := cc]> (conns s) |}, w')
      end
  end.

End WithDialer.

End GrpcService.

(** ** A simulated network *)

Module Sim.
Import EventDispatch.

(** A world for running the dispatch client: which endpoints accept a
    dial, which connections are unavailable (every request over them
    fails), the endpoints dialed so far (latest first), and the response a
    live endpoint gives. Connections are numbered as they are made. *)
Record SimNet : Type := {
  reachable : gset string;
  unavailable : gset N;
  nextConn : N;
  dialed : list string;
  reply : Response }.

Definition sim_GetClientConn (w : SimNet) (addr : string) : SimNet * result ClientConn :=
  let w' := {| reachable := reachable w; unavailable := unavailable w;
               nextConn := nextConn w; dialed := addr :: dialed w;
               reply := reply w |} in
  if decide (addr ∈ reachable w)
  then ({| reachable := reachable w; unavailable := unavailable w;
           nextConn := nextConn w + 1; dialed := addr :: dialed w;
           reply := reply w |}, Ok (nextConn w))
  else (w', Err (External "dial failed")).

Definition sim_Invoke (w : SimNet) (client : ClientConn) (request : RequestPB N N)
  : SimNet * result Response :=
  if decide (client ∈ unavailable w)
  then (w, Err (External "connection unavailable"))
  else (w, Ok (reply w)).

#[export] Instance SimNet_Dialer : Dialer SimNet := {
  GetClientConn := sim_GetClientConn }.

#[export] Instance SimNet_Transport : Transport N N SimNet := {
  Invoke := sim_Invoke }.

(** Shard and table infos are plain numbers here and convert to
    themselves. *)
Definition simOpenShard := OpenShard (W := SimNet) (λ x : N, x).
Definition simCreateTableOnShard :=
  CreateTableOnShard (W := SimNet) (λ x : N, x) (λ x : N, x).
Definition simGetGrpcClient := getGrpcClient (W := SimNet).
Definition simRun := run (W := SimNet) (λ x : N, x) (λ x : N, x).

Definition okReply (version : N) : Response :=
  {| Header := Some {| Code := 0; Error := "" |}; LatestShardVersion := version |}.

Definition errReply (code : N) (msg : string) : Response :=
  {| Header := Some {| Code := code; Error := msg |}; LatestShardVersion := 0 |}.

(** [node0] can be dialed, nothing else can; no connection is made yet. *)
Definition net0 (r : Response) : SimNet :=
  {| reachable := {["node0"]}; unavailable := ∅; nextConn := 0; dialed := [];
     reply := r |}.

(** The same world after connection [cc] has become unavailable. *)
Definition break (cc : ClientConn) (w : SimNet) : SimNet :=
  {| reachable := reachable w; unavailable := {[cc]} ∪ unavailable w;
     nextConn := nextConn w; dialed := dialed w; reply := reply w |}.

End Sim.

(** ** The Scatter procedure *)

Module Scatter.
Import Cluster.

(** Modelled from the spec: the Scatter procedure and its helper
    [allocNodeShards] are not in the sources, only their tests are. The
    spec has Scatter fire only when [MinNodeCount] nodes are present and
    the cluster state is empty, distribute [ShardTotal] shards across the
    nodes, and move the state to stable. The distribution is the even one
    with the surplus on the earlier nodes: with [q] the quotient and [r]
    the remainder of [ShardTotal] by [MinNodeCount], node [i] of the list
    gets [q + 1] consecutive shards when [i < r] and [q] otherwise, which
    is what [TestAllocNodeShard] expects ([node0; node1] for 2 shards on 4
    nodes, [node0; node0; node1] for 3 shards on 2 nodes). Shard IDs come
    from an allocator that counts up from [next]. *)
Definition shardsOfNode (shardTotal minNodeCount i : nat) : nat :=
  shardTotal / minNodeCount + (if i <? shardTotal mod minNodeCount then 1 else 0)%nat.

Definition shardsFor (node : string) (next : N) (k : nat) : list ShardPb :=
  (λ j, {| shard_Id := next + N.of_nat j; shard_ShardRole := LEADER;
           shard_Node := node |}) <$> seq 0 k.

Fixpoint allocFrom (shardTotal minNodeCount i : nat) (next : N) (nodes : list string)
  : list ShardPb :=
  match nodes with
  | [] => []
  | node :: rest =>
      let k := shardsOfNode shardTotal minNodeCount i in
      shardsFor node next k
        ++ allocFrom shardTotal minNodeCount (S i) (next + N.of_nat k) rest
  end.

Definition allocNodeShards (shardTotal minNodeCount : nat) (allNodes : list string)
    (next : N) : list ShardPb :=
  allocFrom shardTotal minNodeCount 0 next (take minNodeCount allNodes).

(** The shards a node owns in a shard view. *)
Definition ownedBy (node : string) (shardView : list ShardPb) : list ShardPb :=
  filter (λ s, shard_Node s = node) shardView.

(** One run of the procedure over the registered nodes (in registration
    order) and the cluster topology. *)
Definition scatter (c : ClusterPb) (registered : list string) (t : ClusterTopology)
  : ClusterTopology :=
  let minNodeCount := N.to_nat (cluster_MinNodeCount c) in
  let shardTotal := N.to_nat (cluster_ShardTotal c) in
  match topology_State t with
  | EMPTY =>
      if (minNodeCount <=? length registered)%nat then
        {| topology_ClusterId := topology_ClusterId t;
           topology_DataVersion := topology_DataVersion t + 1;
           topology_Cause := topology_Cause t;
           topology_ShardView := allocNodeShards shardTotal minNodeCount registered 0;
           topology_State := STABLE |}
      else t
  | STABLE => t
  end.

End Scatter.

(** ** package cluster: construction, queries and sequences of calls *)

Module ClusterQueries.
Import Cluster.

(** The code errors of package [cluster] that the queries return, with
    their [WithCausef] cause. *)
Inductive lookup_error : Type :=
| ErrShardNotFound (cause : msgf)
| ErrNodeNotFound (cause : msgf).

(** What a query does: return its value, return one of the errors above,
    or panic. *)
Inductive answer (A : Type) : Type :=
| Answer (a : A)
| NotFound (e : lookup_error)
| Crash (msg : msgf).
Arguments Answer {A} a.
Arguments NotFound {A} e.
Arguments Crash {A} msg.

(** [type ShardTablesWithRole struct { shardRole; tables []*Table; version }]. *)
Record ShardTablesWithRole : Type := {
  shardRole : ShardRole;
  tables : list Table;
  version : N }.

(** The runtime's panic on [s[i]] with [i] past the end of [s]. *)
Definition indexOutOfRange (i len : nat) : msgf :=
  Msgf "index out of range [%d] with length %d" [ArgN (N.of_nat i); ArgN (N.of_nat len)].

Section WithInterfaces.
Context {S A : Type} `{!Storage S, !Allocator A}.

(** [NewCluster(cluster, storage)]: the ID of the record, empty caches,
    no topology yet. The allocator is built over the storage; [alloc] is
    its initial state. *)
Definition NewCluster (cluster : ClusterPb) (storage : S) (alloc : A) : Cluster S A :=
  {| clusterID := cluster_Id cluster;
     metaData_ := {| Cluster.cluster := cluster; clusterTopology := None |};
     shardsCache := ∅; schemasCache := ∅; nodesCache := ∅;
     storage := storage; alloc := alloc |}.

Definition Name (c : Cluster S A) : string :=
  cluster_Name (Cluster.cluster (metaData_ c)).

Definition GetShardIDs (c : Cluster S A) (nodeName : string) : answer (list N) :=
  match nodesCache c !! nodeName with
  | None => NotFound (ErrNodeNotFound (Msgf "clusters GetShardIDs, nodeName:%s"
                                            [ArgS nodeName]))
  | Some node => Answer (Node_shardIDs node)
  end.

(** [for _, table := range shard.tables] visits the map in an order the
    language leaves open; [rangeTables] is the order taken. *)
Variable rangeTables : gmap N Table → list (N * Table).

(** The loop of [GetTables] over the rest of [shardIDs], with the result
    map built so far. The node is searched by name among [shard.nodes];
    its position indexes [shard.meta]. *)
Fixpoint GetTables_from (c : Cluster S A) (shardIDs : list N) (nodeName : string)
    (shardTables : gmap N ShardTablesWithRole) : answer (gmap N ShardTablesWithRole) :=
  match shardIDs with
  | [] => Answer shardTables
  | shardID :: rest =>
      match shardsCache c !! shardID with
      | None => NotFound (ErrShardNotFound (Msgf "shardID:%d" [ArgN shardID]))
      | Some shard =>
          match list_find (λ n, nodeName = node_Name n) (Shard_nodes shard) with
          | None =>
              NotFound (ErrNodeNotFound
                          (Msgf "nodeName not found in current shard, shardID:%d, nodeName:%s"
                                [ArgN shardID; ArgS nodeName]))
          | Some (i, _) =>
              match Shard_meta shard !! i with
              | None => Crash (indexOutOfRange i (length (Shard_meta shard)))
              | Some m =>
                  GetTables_from c rest nodeName
                    (<[shardID := {| shardRole := shard_ShardRole m;
                                     tables := (rangeTables (Shard_tables shard)).*2;
                                     version := Shard_version shard |}]> shardTables)
              end
          end
      end
  end.

Definition GetTables (c : Cluster S A) (shardIDs : list N) (nodeName : string)
  : answer (gmap N ShardTablesWithRole) :=
  GetTables_from c shardIDs nodeName ∅.

(** A call of one of the cluster's mutators, and the cluster it leaves
    behind. *)
Inductive call : Type :=
| CallCreateSchema (schemaName : string)
| CallCreateTable (schemaName : string) (shardID : N) (tableName : string)
| CallDropTable (schemaName tableName : string) (tableID : N)
| CallGetTable (schemaName tableName : string)
| CallRegisterNode (nodeName : string) (lease : N).



End WithInterfaces.

(** The cluster of the scenarios with shard 1 placed: [node0] leads it. *)
Definition node0 : NodePb :=
  {| node_Name := "node0"; node_NodeStats := Some {| Lease := 10 |};
     node_CreateTime := 0; node_LastTouchTime := 0 |}.

Definition served : Cluster Mem.MemStorage Mem.CounterAlloc :=
  set_shardsCache Mem.withTable
    (<[1 := {| Shard_meta := [{| shard_Id := 1; shard_ShardRole := LEADER;
                                 shard_Node := "node0" |}];
               Shard_nodes := [node0];
               Shard_tables := {[8 := Mem.tableT 8]};
               Shard_version := 3 |}]> (shardsCache Mem.withTable)).

End ClusterQueries.

(** ** package storage: the stored types and their protobuf forms *)

Module StorageTypes.

Local Open Scope Z_scope.

(** The enumerations of package [storage] are integer types with named
    constants; a variable of the type can hold any integer. *)
Definition ClusterStateEmpty : Z := 1.
Definition ClusterStateStable : Z := 2.
Definition ClusterStatePrepare : Z := 3.

Definition ShardRoleLeader : Z := 1.
Definition ShardRoleFollower : Z := 2.

Definition ShardStatusUnknown : Z := 0.
Definition ShardStatusReady : Z := 1.
Definition ShardStatusPartialOpen : Z := 2.

Definition NodeStateUnknown : Z := 0.
Definition NodeStateOnline : Z := 1.
Definition NodeStateOffline : Z := 2.

Definition TopologyTypeUnknown : string := "unknown".
Definition TopologyTypeStatic : string := "static".
Definition TopologyTypeDynamic : string := "dynamic".

(** The protobuf enumerations, by the constants the code names; the last
    constructor of each stands for any other number the field can carry. *)
Inductive ShardRolePB : Type :=
| ShardRole_LEADER | ShardRole_FOLLOWER | ShardRole_other (n : Z).

Inductive TopologyTypePB : Type :=
| Cluster_UNKNOWN | Cluster_STATIC | Cluster_DYNAMIC | Cluster_other (n : Z).

Inductive ClusterStatePB : Type :=
| ClusterView_EMPTY | ClusterView_STABLE | ClusterView_PREPARE_REBALANCE
| ClusterView_AWAITING_OPEN | ClusterView_AWAITING_CLOSE | ClusterView_other (n : Z).

Inductive NodeStatePB : Type :=
| NodeState_ONLINE | NodeState_OFFLINE | NodeState_other (n : Z).

Inductive ShardInfoStatusPB : Type :=
| ShardInfo_Ready | ShardInfo_PartialOpen | ShardInfo_other (n : Z).

Section WithPartitionInfo.
(** [clusterpb.PartitionInfo] is declared outside the modelled sources;
    the code only passes the pointer along. *)
Variable PartitionInfoPB : Type.

(** *** The stored types *)

Record Cluster : Type := {
  Cluster_ID : N;
  Cluster_Name : string;
  Cluster_MinNodeCount : N;
  Cluster_ShardTotal : N;
  Cluster_TopologyType : string;
  Cluster_ProcedureExecutingBatchSize : N;
  Cluster_CreatedAt : N;
  Cluster_ModifiedAt : N }.

Record ShardNode : Type := {
  ShardNode_ID : N;
  ShardNode_ShardRole : Z;
  ShardNode_NodeName : string }.

Record ClusterView : Type := {
  ClusterView_ClusterID : N;
  ClusterView_Version : N;
  ClusterView_State : Z;
  ClusterView_ShardNodes : list ShardNode;
  ClusterView_CreatedAt : N }.

Record Schema : Type := {
  Schema_ID : N;
  Schema_ClusterID : N;
  Schema_Name : string;
  Schema_CreatedAt : N }.

Record PartitionInfo : Type := { Info : option PartitionInfoPB }.

Record Table : Type := {
  Table_ID : N;
  Table_Name : string;
  Table_SchemaID : N;
  Table_CreatedAt : N;
  Table_PartitionInfo : PartitionInfo }.

Definition IsPartitioned (t : Table) : bool :=
  bool_decide (Info (Table_PartitionInfo t) ≠ None).

Record ShardView : Type := {
  ShardView_ShardID : N;
  ShardView_Version : N;
  ShardView_TableIDs : list N;
  ShardView_CreatedAt : N }.

Record NodeStats : Type := {
  NodeStats_Lease : N;
  NodeStats_Zone : string;
  NodeStats_NodeVersion : string }.

Definition NewEmptyNodeStats : NodeStats :=
  {| NodeStats_Lease := 0; NodeStats_Zone := ""; NodeStats_NodeVersion := "" |}.

Record Node : Type := {
  Node_Name : string;
  Node_NodeStats : NodeStats;
  Node_LastTouchTime : N;
  Node_State : Z }.

(** *** The protobuf messages, with the fields the converters read or
    write; a message-typed field is a pointer. *)

Record ClusterPB : Type := {
  pb_Cluster_Id : N;
  pb_Cluster_Name : string;
  pb_Cluster_MinNodeCount : N;
  pb_Cluster_ShardTotal : N;
  pb_Cluster_EnableSchedule : bool;
  pb_Cluster_TopologyType : TopologyTypePB;
  pb_Cluster_ProcedureExecutingBatchSize : N;
  pb_Cluster_CreatedAt : N;
  pb_Cluster_ModifiedAt : N }.

Record ShardNodePB : Type := {
  pb_ShardNode_Id : N;
  pb_ShardNode_ShardRole : ShardRolePB;
  pb_ShardNode_Node : string }.

Record ClusterViewPB : Type := {
  pb_ClusterView_ClusterId : N;
  pb_ClusterView_Version : N;
  pb_ClusterView_State : ClusterStatePB;
  pb_ClusterView_ShardNodes : list (option ShardNodePB);
  pb_ClusterView_Cause : string;
  pb_ClusterView_CreatedAt : N }.

Record SchemaPB : Type := {
  pb_Schema_Id : N;
  pb_Schema_ClusterId : N;
  pb_Schema_Name : string;
  pb_Schema_CreatedAt : N }.

Record TablePB : Type := {
  pb_Table_Id : N;
  pb_Table_Name : string;
  pb_Table_SchemaId : N;
  pb_Table_Desc : string;
  pb_Table_CreatedAt : N;
  pb_Table_PartitionInfo : option PartitionInfoPB }.

Record ShardViewPB : Type := {
  pb_ShardView_ShardId : N;
  pb_ShardView_TableIds : list N;
  pb_ShardView_Version : N;
  pb_ShardView_CreatedAt : N }.

Record NodeStatsPB : Type := {
  pb_NodeStats_Lease : N;
  pb_NodeStats_Zone : string;
  pb_NodeStats_NodeVersion : string }.

Record NodePB : Type := {
  pb_Node_Name : string;
  pb_Node_Stats : option NodeStatsPB;
  pb_Node_LastTouchTime : N;
  pb_Node_State : NodeStatePB }.

(** *** The converters *)

Definition ConvertShardRolePB (role : ShardRolePB) : Z :=
  match role with
  | ShardRole_LEADER => ShardRoleLeader
  | ShardRole_FOLLOWER => ShardRoleFollower
  | ShardRole_other _ => ShardRoleFollower
  end.

Definition ConvertShardRoleToPB (role : Z) : ShardRolePB :=
  if decide (role = ShardRoleLeader) then ShardRole_LEADER
  else if decide (role = ShardRoleFollower) then ShardRole_FOLLOWER
  else ShardRole_FOLLOWER.

Definition convertTopologyTypeToPB (topologyType : string) : TopologyTypePB :=
  if decide (topologyType = TopologyTypeUnknown) then Cluster_UNKNOWN
  else if decide (topologyType = TopologyTypeStatic) then Cluster_STATIC
  else if decide (topologyType = TopologyTypeDynamic) then Cluster_DYNAMIC
  else Cluster_STATIC.

Definition convertTopologyTypePB (topologyType : TopologyTypePB) : string :=
  match topologyType with
  | Cluster_UNKNOWN => TopologyTypeUnknown
  | Cluster_STATIC => TopologyTypeStatic
  | Cluster_DYNAMIC => TopologyTypeDynamic
  | Cluster_other _ => TopologyTypeStatic
  end.

Definition convertClusterStateToPB (state : Z) : ClusterStatePB :=
  if decide (state = ClusterStateEmpty) then ClusterView_EMPTY
  else if decide (state = ClusterStateStable) then ClusterView_STABLE
  else if decide (state = ClusterStatePrepare) then ClusterView_PREPARE_REBALANCE
  else ClusterView_EMPTY.

(** Panics with [invalid state:%v] on a number that is none of the five
    named ones. *)
Definition convertClusterStatePB (state : ClusterStatePB) : outcome Z :=
  match state with
  | ClusterView_EMPTY | ClusterView_AWAITING_OPEN | ClusterView_AWAITING_CLOSE =>
      Return ClusterStateEmpty
  | ClusterView_PREPARE_REBALANCE => Return ClusterStatePrepare
  | ClusterView_STABLE => Return ClusterStateStable
  | ClusterView_other n => Panic (Msgf "invalid state:%v" [ArgV "state"])
  end.

(** [status] is a pointer to the enumeration; nil reads as ready. *)
Definition ConvertShardStatusPB (status : option ShardInfoStatusPB) : Z :=
  match status with
  | None => ShardStatusReady
  | Some ShardInfo_PartialOpen => ShardStatusPartialOpen
  | Some ShardInfo_Ready => ShardStatusReady
  | Some (ShardInfo_other _) => ShardStatusReady
  end.

Definition ConvertShardStatusToPB (status : Z) : ShardInfoStatusPB :=
  if decide (status = ShardStatusPartialOpen) then ShardInfo_PartialOpen
  else if decide (status = ShardStatusReady) then ShardInfo_Ready
  else if decide (status = ShardStatusUnknown) then ShardInfo_Ready
  else ShardInfo_Ready.

Definition ConvertShardStatusToString (status : Z) : string :=
  if decide (status = ShardStatusUnknown) then "unknown"
  else if decide (status = ShardStatusReady) then "ready"
  else if decide (status = ShardStatusPartialOpen) then "partialOpen"
  else "unknown".

Definition convertNodeStateToPB (state : Z) : NodeStatePB :=
  if decide (state = NodeStateUnknown) then NodeState_OFFLINE
  else if decide (state = NodeStateOnline) then NodeState_ONLINE
  else if decide (state = NodeStateOffline) then NodeState_OFFLINE
  else NodeState_OFFLINE.

Definition convertNodeStatePB (state : NodeStatePB) : Z :=
  match state with
  | NodeState_ONLINE => NodeStateOnline
  | NodeState_OFFLINE => NodeStateOffline
  | NodeState_other _ => NodeStateOffline
  end.

Definition convertNodeStatsToPB (stats : NodeStats) : NodeStatsPB :=
  {| pb_NodeStats_Lease := NodeStats_Lease stats;
     pb_NodeStats_Zone := NodeStats_Zone stats;
     pb_NodeStats_NodeVersion := NodeStats_NodeVersion stats |}.

(** [stats] is a pointer; the fields are read through it. *)
Definition convertNodeStatsPB (stats : option NodeStatsPB) : outcome NodeStats :=
  match stats with
  | None => Panic nilDereference
  | Some stats =>
      Return {| NodeStats_Lease := pb_NodeStats_Lease stats;
                NodeStats_Zone := pb_NodeStats_Zone stats;
                NodeStats_NodeVersion := pb_NodeStats_NodeVersion stats |}
  end.

Definition convertNodeToPB (node : Node) : NodePB :=
  let nodeStats := convertNodeStatsToPB (Node_NodeStats node) in
  {| pb_Node_Name := Node_Name node;
     pb_Node_Stats := Some nodeStats;
     pb_Node_LastTouchTime := Node_LastTouchTime node;
     pb_Node_State := convertNodeStateToPB (Node_State node) |}.

Definition convertNodePB (node : NodePB) : outcome Node :=
  match convertNodeStatsPB (pb_Node_Stats node) with
  | Return nodeStats =>
      Return {| Node_Name := pb_Node_Name node;
                Node_NodeStats := nodeStats;
                Node_LastTouchTime := pb_Node_LastTouchTime node;
                Node_State := convertNodeStatePB (pb_Node_State node) |}
  | Failed e => Failed e
  | Panic msg => Panic msg
  end.

Definition convertClusterPB (cluster : ClusterPB) : Cluster :=
  {| Cluster_ID := pb_Cluster_Id cluster;
     Cluster_Name := pb_Cluster_Name cluster;
     Cluster_MinNodeCount := pb_Cluster_MinNodeCount cluster;
     Cluster_ShardTotal := pb_Cluster_ShardTotal cluster;
     Cluster_TopologyType := convertTopologyTypePB (pb_Cluster_TopologyType cluster);
     Cluster_ProcedureExecutingBatchSize := pb_Cluster_ProcedureExecutingBatchSize cluster;
     Cluster_CreatedAt := pb_Cluster_CreatedAt cluster;
     Cluster_ModifiedAt := pb_Cluster_ModifiedAt cluster |}.

Definition convertClusterToPB (cluster : Cluster) : ClusterPB :=
  {| pb_Cluster_Id := Cluster_ID cluster;
     pb_Cluster_Name := Cluster_Name cluster;
     pb_Cluster_MinNodeCount := Cluster_MinNodeCount cluster;
     pb_Cluster_ShardTotal := Cluster_ShardTotal cluster;
     pb_Cluster_EnableSchedule := false;
     pb_Cluster_TopologyType := convertTopologyTypeToPB (Cluster_TopologyType cluster);
     pb_Cluster_ProcedureExecutingBatchSize := Cluster_ProcedureExecutingBatchSize cluster;
     pb_Cluster_CreatedAt := Cluster_CreatedAt cluster;
     pb_Cluster_ModifiedAt := Cluster_ModifiedAt cluster |}.

Definition convertShardNodeToPB (shardNode : ShardNode) : ShardNodePB :=
  {| pb_ShardNode_Id := ShardNode_ID shardNode;
     pb_ShardNode_ShardRole := ConvertShardRoleToPB (ShardNode_ShardRole shardNode);
     pb_ShardNode_Node := ShardNode_NodeName shardNode |}.

Definition convertShardNodePB (shardNode : option ShardNodePB) : outcome ShardNode :=
  match shardNode with
  | None => Panic nilDereference
  | Some shardNode =>
      Return {| ShardNode_ID := pb_ShardNode_Id shardNode;
                ShardNode_ShardRole := ConvertShardRolePB (pb_ShardNode_ShardRole shardNode);
                ShardNode_NodeName := pb_ShardNode_Node shardNode |}
  end.

(** The shard node as it comes back from protobuf. *)
Definition returnedShardNode (n : ShardNode) : ShardNode :=
  {| ShardNode_ID := ShardNode_ID n;
     ShardNode_ShardRole := ConvertShardRolePB (ConvertShardRoleToPB (ShardNode_ShardRole n));
     ShardNode_NodeName := ShardNode_NodeName n |}.

(** The loop of [convertClusterViewToPB]: one pointer to a converted
    node appended per shard node. *)
Fixpoint shardNodesToPB (shardNodes : list ShardNode) : list (option ShardNodePB) :=
  match shardNodes with
  | [] => []
  | shardNode :: rest => Some (convertShardNodeToPB shardNode) :: shardNodesToPB rest
  end.

Definition convertClusterViewToPB (view : ClusterView) : ClusterViewPB :=
  {| pb_ClusterView_ClusterId := ClusterView_ClusterID view;
     pb_ClusterView_Version := ClusterView_Version view;
     pb_ClusterView_State := convertClusterStateToPB (ClusterView_State view);
     pb_ClusterView_ShardNodes := shardNodesToPB (ClusterView_ShardNodes view);
     pb_ClusterView_Cause := "";
     pb_ClusterView_CreatedAt := ClusterView_CreatedAt view |}.

(** The loop of [convertClusterViewPB]; a nil element panics when it is
    reached. *)
Fixpoint shardNodesPB (shardNodes : list (option ShardNodePB)) : outcome (list ShardNode) :=
  match shardNodes with
  | [] => Return []
  | shardNodePB :: rest =>
      match convertShardNodePB shardNodePB with
      | Return shardNode =>
          match shardNodesPB rest with
          | Return shardNodes => Return (shardNode :: shardNodes)
          | Failed e => Failed e
          | Panic msg => Panic msg
          end
      | Failed e => Failed e
      | Panic msg => Panic msg
      end
  end.

Definition convertClusterViewPB (view : ClusterViewPB) : outcome ClusterView :=
  match shardNodesPB (pb_ClusterView_ShardNodes view) with
  | Return shardNodes =>
      match convertClusterStatePB (pb_ClusterView_State view) with
      | Return state =>
          Return {| ClusterView_ClusterID := pb_ClusterView_ClusterId view;
                    ClusterView_Version := pb_ClusterView_Version view;
                    ClusterView_State := state;
                    ClusterView_ShardNodes := shardNodes;
                    ClusterView_CreatedAt := pb_ClusterView_CreatedAt view |}
      | Failed e => Failed e
      | Panic msg => Panic msg
      end
  | Failed e => Failed e
  | Panic msg => Panic msg
  end.

Definition convertSchemaToPB (schema : Schema) : SchemaPB :=
  {| pb_Schema_Id := Schema_ID schema;
     pb_Schema_ClusterId := Schema_ClusterID schema;
     pb_Schema_Name := Schema_Name schema;
     pb_Schema_CreatedAt := Schema_CreatedAt schema |}.

Definition convertSchemaPB (schema : SchemaPB) : Schema :=
  {| Schema_ID := pb_Schema_Id schema;
     Schema_ClusterID := pb_Schema_ClusterId schema;
     Schema_Name := pb_Schema_Name schema;
     Schema_CreatedAt := pb_Schema_CreatedAt schema |}.

Definition convertTableToPB (table : Table) : TablePB :=
  {| pb_Table_Id := Table_ID table;
     pb_Table_Name := Table_Name table;
     pb_Table_SchemaId := Table_SchemaID table;
     pb_Table_Desc := "";
     pb_Table_CreatedAt := Table_CreatedAt table;
     pb_Table_PartitionInfo := Info (Table_PartitionInfo table) |}.

Definition convertTablePB (table : TablePB) : Table :=
  {| Table_ID := pb_Table_Id table;
     Table_Name := pb_Table_Name table;
     Table_SchemaID := pb_Table_SchemaId table;
     Table_CreatedAt := pb_Table_CreatedAt table;
     Table_PartitionInfo := {| Info := pb_Table_PartitionInfo table |} |}.

(** The loops of the shard view converters copy the IDs one by one. *)
Fixpoint copyIDs (ids : list N) : list N :=
  match ids with
  | [] => []
  | id :: rest => id :: copyIDs rest
  end.

Definition convertShardViewToPB (view : ShardView) : ShardViewPB :=
  {| pb_ShardView_ShardId := ShardView_ShardID view;
     pb_ShardView_TableIds := copyIDs (ShardView_TableIDs view);
     pb_ShardView_Version := ShardView_Version view;
     pb_ShardView_CreatedAt := ShardView_CreatedAt view |}.

Definition convertShardViewPB (shardTopology : ShardViewPB) : ShardView :=
  {| ShardView_ShardID := pb_ShardView_ShardId shardTopology;
     ShardView_Version := pb_ShardView_Version shardTopology;
     ShardView_TableIDs := copyIDs (pb_ShardView_TableIds shardTopology);
     ShardView_CreatedAt := pb_ShardView_CreatedAt shardTopology |}.

End WithPartitionInfo.

Arguments Info {PartitionInfoPB} _.
Arguments Table_ID {PartitionInfoPB} _.
Arguments Table_Name {PartitionInfoPB} _.
Arguments Table_SchemaID {PartitionInfoPB} _.
Arguments Table_CreatedAt {PartitionInfoPB} _.
Arguments Table_PartitionInfo {PartitionInfoPB} _.
Arguments IsPartitioned {PartitionInfoPB} t.
Arguments pb_Table_PartitionInfo {PartitionInfoPB} _.
Arguments pb_Table_Desc {PartitionInfoPB} _.
Arguments pb_Table_Id {PartitionInfoPB} _.
Arguments pb_Table_Name {PartitionInfoPB} _.
Arguments pb_Table_SchemaId {PartitionInfoPB} _.
Arguments pb_Table_CreatedAt {PartitionInfoPB} _.
Arguments convertTableToPB {PartitionInfoPB} table.
Arguments convertTablePB {PartitionInfoPB} table.

End StorageTypes.

(** ** package grpcservice: the stream binder and the forwarded client *)

Module Forwarding.
Import EventDispatch GrpcService.

(** [member.GetLeaderResp], the two fields the code reads. *)
Record GetLeaderResp : Type := {
  LeaderEndpoint : string;
  IsLocal : bool }.

(** The [Handler] behind the service, the methods the modelled code
    calls, over the handler's state. *)
Class Handler (H : Type) : Type := {
  GetLeader : H → H * result GetLeaderResp;
  BindHeartbeatStream : H → string → H * option error;
  UnbindHeartbeatStream : H → string → H * option error }.

(** The code errors of the binder, with their cause. *)
Inductive binder_error : Type :=
| ErrBindHeartbeatStream (cause : msgf)
| ErrUnbindHeartbeatStream (cause : msgf).

(** [type streamBinder struct]: the two fields that change. *)
Record streamBinder : Type := {
  node : string;
  bound : bool }.

Section WithHandler.
Context {H W : Type} `{!Handler H, !Dialer W}.

Definition bindIfNot (b : streamBinder) (h : H) (node' : string)
  : option binder_error * streamBinder * H :=
  if bound b then (None, b, h)
  else
    let '(h', err) := BindHeartbeatStream h node' in
    match err with
    | Some err =>
        (Some (ErrBindHeartbeatStream (Msgf "node:%s, err:%v" [ArgS node'; ArgV "err"])),
         b, h')
    | None => (None, {| node := node'; bound := true |}, h')
    end.


(** The heartbeats of one stream, each named by the node it reports:
    [bindIfNot] runs on every one, its error is only logged. *)
Fixpoint bindEach (b : streamBinder) (h : H) (nodes : list string) : streamBinder * H :=
  match nodes with
  | [] => (b, h)
  | node' :: rest => let '(_, b', h') := bindIfNot b h node' in bindEach b' h' rest
  end.

(** [getForwardedAddr] returns [(addr, isLocal, err)]. *)
Definition getForwardedAddr (h : H) : result (string * bool) * H :=
  let '(h', r) := GetLeader h in
  match r with
  | Err err => (Err (Wrap err (Msgf "get forwarded addr" [])), h')
  | Ok resp =>
      if IsLocal resp then (Ok ("", true), h')
      else (Ok (LeaderEndpoint resp, false), h')
  end.

(** [getMetaClient]: the client is a wrapper of the connection. *)
Definition getMetaClient (s : Service) (w : W) (addr : string)
  : result ClientConn * Service * W :=
  let '(r, s', w') := getForwardedGrpcClient s w addr in
  match r with
  | Err err => (Err (Wrap err (Msgf "get horaemeta client, addr:%s" [ArgS addr])), s', w')
  | Ok client => (Ok client, s', w')
  end.

(** [getForwardedMetaClient] returns [(client, err)]; [Ok None] is
    [(nil, nil)]. *)
Definition getForwardedMetaClient (s : Service) (h : H) (w : W)
  : result (option ClientConn) * Service * H * W :=
  let '(r, h') := getForwardedAddr h in
  match r with
  | Err err => (Err (Wrap err (Msgf "get forwarded horaemeta client" [])), s, h', w)
  | Ok (forwardedAddr, _) =>
      if decide (forwardedAddr ≠ "") then
        let '(r', s', w') := getMetaClient s w forwardedAddr in
        match r' with
        | Err err =>
            (Err (Wrap err (Msgf "get forwarded horaemeta client, addr:%s"
                                 [ArgS forwardedAddr])), s', h', w')
        | Ok horaeClient => (Ok (Some horaeClient), s', h', w')
        end
      else (Ok None, s, h', w)
  end.

End WithHandler.

(** A handler that answers [GetLeader] from a fixed response and records
    the nodes it bound and unbound (latest first); binding a node in
    [refused] fails. *)
Record SimHandler : Type := {
  leader : result GetLeaderResp;
  refused : list string;
  bindings : list string;
  unbindings : list string }.

Definition sim_Bind (h : SimHandler) (node' : string) : SimHandler * option error :=
  if decide (node' ∈ refused h) then (h, Some (External "bind refused"))
  else ({| leader := leader h; refused := refused h; bindings := node' :: bindings h;
           unbindings := unbindings h |}, None).

Definition sim_Unbind (h : SimHandler) (node' : string) : SimHandler * option error :=
  ({| leader := leader h; refused := refused h; bindings := bindings h;
      unbindings := node' :: unbindings h |}, None).

#[export] Instance SimHandler_Handler : Handler SimHandler := {
  GetLeader h := (h, leader h);
  BindHeartbeatStream := sim_Bind;
  UnbindHeartbeatStream := sim_Unbind }.

Definition handler0 (l : result GetLeaderResp) : SimHandler :=
  {| leader := l; refused := ["bad"]; bindings := []; unbindings := [] |}.

End Forwarding.

(** ** package eventdispatch: runs of calls *)

Module DispatchRuns.
Import EventDispatch Sim.

Section WithMetadata.
Variables ShardInfo TableInfo ShardInfoPB TableInfoPB : Type.
Variable ConvertShardsInfoToPB : ShardInfo → ShardInfoPB.
Variable ConvertTableInfoToPB : TableInfo → TableInfoPB.
Context {W : Type} `{!Dialer W, !Transport ShardInfoPB TableInfoPB W}.

(** A run of dispatch calls, each to its own address; the outcomes are
    dropped, the client and the world are threaded through. *)
Fixpoint runAll (d : DispatchImpl) (w : W)
    (calls : list (string * Call ShardInfo TableInfo)) : DispatchImpl * W :=
  match calls with
  | [] => (d, w)
  | (addr, call) :: rest =>
      let '(_, d', w') := run ConvertShardsInfoToPB ConvertTableInfoToPB d w addr call in
      runAll d' w' rest
  end.

End WithMetadata.

Arguments runAll {ShardInfo TableInfo ShardInfoPB TableInfoPB}
  ConvertShardsInfoToPB ConvertTableInfoToPB {W _ _} d w calls.

Definition simRunAll := runAll (W := SimNet) (λ x : N, x) (λ x : N, x).

End DispatchRuns.

(** ** package cluster: filling the cache from what was loaded *)

Module ClusterLoad.
Import Cluster.

(** [clusterpb.ShardTopology], the fields the code reads. *)
Record ShardTopology : Type := {
  topology_ShardId : N;
  topology_TableIds : list N;
  topology_Version : N }.

Section WithOrders.
Context {S A : Type}.

(** A [range] over a map visits it in an order the language leaves open.
    Each [range] statement of [updateCacheLocked] has its order here; the
    one nested in the loop over table IDs also depends on where that loop
    stands. *)
Variable rangeTablesLoaded : gmap string (gmap N TablePb) → list (string * gmap N TablePb).
Variable rangeTables : string → gmap N TablePb → list (N * TablePb).
Variable rangeShards : gmap N (list ShardPb) → list (N * list ShardPb).
Variable rangeNodesLoaded : gmap string NodePb → list (string * NodePb).
Variable rangeShardTopologies : gmap N ShardTopology → list (N * ShardTopology).
Variable rangeTablesLoaded' : N → nat → gmap string (gmap N TablePb)
                              → list (string * gmap N TablePb).
Variable rangeShards' : gmap N (list ShardPb) → list (N * list ShardPb).

(** The cached objects hold their schema record by value, so a table
    whose schema is not among [schemasLoaded] (the code would store a nil
    pointer) has no counterpart: the functions below give [None] there. *)

(** First loop, one table: enter it in the cached schema's table map, or
    cache the schema with that one table. *)
Definition cacheLoadedTable (schemasLoaded : gmap string SchemaPb) (schemaName : string)
    (cache : option (gmap string Schema)) (table : N * TablePb)
  : option (gmap string Schema) :=
  match cache, schemasLoaded !! schemaName with
  | Some cache, Some meta =>
      let entry := {| Table_schema := meta; Table_meta := table.2 |} in
      match cache !! schemaName with
      | Some schema =>
          Some (<[schemaName := {| Schema_meta := Schema_meta schema;
                                   tableMap := <[table_Name table.2 := entry]>
                                                 (tableMap schema) |}]> cache)
      | None =>
          Some (<[schemaName := {| Schema_meta := meta;
                                   tableMap := {[table_Name table.2 := entry]} |}]> cache)
      end
  | _, _ => None
  end.

Definition cacheLoadedTables (schemasLoaded : gmap string SchemaPb)
    (tablesLoaded : gmap string (gmap N TablePb)) (cache : gmap string Schema)
  : option (gmap string Schema) :=
  foldl (λ cache entry,
           foldl (cacheLoadedTable schemasLoaded entry.1) cache
                 (rangeTables entry.1 entry.2))
        (Some cache) (rangeTablesLoaded tablesLoaded).

(** Second loop: the shard IDs of each node name, a shard's ID appended
    once per record of the shard that names the node. *)
Definition appendShardID (shardID : N) (shardIDs : gmap string (list N)) (shard : ShardPb)
  : gmap string (list N) :=
  <[shard_Node shard := default [] (shardIDs !! shard_Node shard) ++ [shardID]]> shardIDs.

Definition shardIDsByNode (shards : gmap N (list ShardPb)) : gmap string (list N) :=
  foldl (λ shardIDs entry, foldl (appendShardID entry.1) shardIDs entry.2)
        ∅ (rangeShards shards).

(** Third loop: every loaded node replaces the cache entry of its name. *)
Definition cacheLoadedNodes (shardIDs : gmap string (list N))
    (nodesLoaded : gmap string NodePb) (cache : gmap string Node) : gmap string Node :=
  foldl (λ cache entry,
           <[entry.1 := {| Node_meta := entry.2;
                           Node_shardIDs := default [] (shardIDs !! entry.1) |}]> cache)
        cache (rangeNodesLoaded nodesLoaded).

(** Fourth loop, the tables of one shard: for each table ID of the
    topology every loaded schema is searched for it. *)
Definition findLoadedTable (schemasLoaded : gmap string SchemaPb) (tableID : N)
    (tables : option (gmap N Table)) (entry : string * gmap N TablePb)
  : option (gmap N Table) :=
  match tables, entry.2 !! tableID with
  | Some tables, Some table =>
      match schemasLoaded !! entry.1 with
      | Some meta => Some (<[tableID := {| Table_schema := meta; Table_meta := table |}]> tables)
      | None => None
      end
  | tables, _ => tables
  end.

Fixpoint loadedTablesOfShard (schemasLoaded : gmap string SchemaPb)
    (tablesLoaded : gmap string (gmap N TablePb)) (shardID : N) (i : nat)
    (tableIDs : list N) (tables : option (gmap N Table)) : option (gmap N Table) :=
  match tableIDs with
  | [] => tables
  | tableID :: rest =>
      loadedTablesOfShard schemasLoaded tablesLoaded shardID (Datatypes.S i) rest
        (foldl (findLoadedTable schemasLoaded tableID) tables
               (rangeTablesLoaded' shardID i tablesLoaded))
  end.

(** The nodes of one shard: the records of the shard whose node is in the
    node cache, in the records' order. *)
Fixpoint nodesOfShard (nodesCache : gmap string Node) (shardMetaList : list ShardPb)
  : list NodePb :=
  match shardMetaList with
  | [] => []
  | shardMeta :: rest =>
      match nodesCache !! shard_Node shardMeta with
      | Some node => Node_meta node :: nodesOfShard nodesCache rest
      | None => nodesOfShard nodesCache rest
      end
  end.

Definition cacheLoadedShard (shards : gmap N (list ShardPb))
    (schemasLoaded : gmap string SchemaPb) (tablesLoaded : gmap string (gmap N TablePb))
    (nodesCache : gmap string Node) (cache : option (gmap N Shard))
    (entry : N * ShardTopology) : option (gmap N Shard) :=
  match cache,
        loadedTablesOfShard schemasLoaded tablesLoaded entry.1 0
          (topology_TableIds entry.2) (Some ∅) with
  | Some cache, Some tables =>
      let shardMetaList := default [] (shards !! entry.1) in
      Some (<[entry.1 := {| Shard_meta := shardMetaList;
                            Shard_nodes := nodesOfShard nodesCache shardMetaList;
                            Shard_tables := tables;
                            Shard_version := 0 |}]> cache)
  | _, _ => None
  end.

Definition cacheLoadedShards (shards : gmap N (list ShardPb))
    (shardTopologies : gmap N ShardTopology) (schemasLoaded : gmap string SchemaPb)
    (tablesLoaded : gmap string (gmap N TablePb)) (nodesCache : gmap string Node)
    (cache : gmap N Shard) : option (gmap N Shard) :=
  foldl (cacheLoadedShard shards schemasLoaded tablesLoaded nodesCache)
        (Some cache) (rangeShardTopologies shardTopologies).

(** Last loop: a shard's ID appended to the shard IDs of the cached node
    that each record of the shard names. *)
Definition appendToNode (shardID : N) (cache : gmap string Node) (shard : ShardPb)
  : gmap string Node :=
  match cache !! shard_Node shard with
  | Some node =>
      <[shard_Node shard := {| Node_meta := Node_meta node;
                               Node_shardIDs := Node_shardIDs node ++ [shardID] |}]> cache
  | None => cache
  end.

Definition appendShardIDsToNodes (shards : gmap N (list ShardPb))
    (cache : gmap string Node) : gmap string Node :=
  foldl (λ cache entry, foldl (appendToNode entry.1) cache entry.2)
        cache (rangeShards' shards).

Definition updateCacheLocked (c : Cluster S A)
    (shards : gmap N (list ShardPb)) (shardTopologies : gmap N ShardTopology)
    (schemasLoaded : gmap string SchemaPb) (nodesLoaded : gmap string NodePb)
    (tablesLoaded : gmap string (gmap N TablePb)) : option (Cluster S A) :=
  match cacheLoadedTables schemasLoaded tablesLoaded (schemasCache c) with
  | None => None
  | Some schemas =>
      let shardIDs := shardIDsByNode shards in
      let nodes := cacheLoadedNodes shardIDs nodesLoaded (nodesCache c) in
      match cacheLoadedShards shards shardTopologies schemasLoaded tablesLoaded nodes
              (shardsCache c) with
      | None => None
      | Some shardsCache' =>
          Some {| clusterID := clusterID c; metaData_ := metaData_ c;
                  shardsCache := shardsCache';
                  schemasCache := schemas;
                  nodesCache := appendShardIDsToNodes shards nodes;
                  storage := storage c; alloc := alloc c |}
      end
  end.

End WithOrders.

(** What a visiting order of a map must satisfy: it lists the entries of
    the map, each once. *)
Definition visits {K V : Type} `{Countable K} (order : gmap K V → list (K * V)) : Prop :=
  ∀ m, order m ≡ₚ map_to_list m.

(** Where a table of a shard's table set comes from: a schema of
    [tablesLoaded] that has a table under the ID, with that schema's
    record from [schemasLoaded]. *)
Definition loaded_under (schemasLoaded : gmap string SchemaPb)
    (tablesLoaded : gmap string (gmap N TablePb)) (tableID : N) (table : Table) : Prop :=
  ∃ name tables, tablesLoaded !! name = Some tables ∧
                 tables !! tableID = Some (Table_meta table) ∧
                 schemasLoaded !! name = Some (Table_schema table).

Definition loaded_somewhere (tablesLoaded : gmap string (gmap N TablePb)) (tableID : N)
  : Prop :=
  ∃ name tables, tablesLoaded !! name = Some tables ∧ is_Some (tables !! tableID).

(** How often the records [metas] of a shard name the node [name]. *)
Definition named (name : string) (metas : list ShardPb) : nat :=
  length (filter (λ m, shard_Node m = name) metas).

(** The shard IDs one pass over [entries] appends for the node [name]. *)
Definition appended (name : string) (entries : list (N * list ShardPb)) : list N :=
  entries ≫= λ entry, replicate (named name entry.2) entry.1.

(** What the scenarios load: shard 1 with a leader record for [node9],
    which is not registered, and a follower record for [node0]; shard 2
    with a record but no topology; schema [s] with table 8 and schema
    [empty] without tables. Every map is visited in the order of
    [map_to_list]. *)
Definition loadedShards : gmap N (list ShardPb) :=
  {[1 := [{| shard_Id := 1; shard_ShardRole := LEADER; shard_Node := "node9" |};
          {| shard_Id := 1; shard_ShardRole := FOLLOWER; shard_Node := "node0" |}];
    2 := [{| shard_Id := 2; shard_ShardRole := LEADER; shard_Node := "node0" |}]]}.

Definition loadedTopologies : gmap N ShardTopology :=
  {[1 := {| topology_ShardId := 1; topology_TableIds := [8; 9]; topology_Version := 5 |}]}.

Definition loadedSchemas : gmap string SchemaPb :=
  {["s" := Mem.schemaS;
    "empty" := {| schema_Id := 6; schema_Name := "empty"; schema_ClusterId := 1;
                  schema_CreatedAt := 0 |}]}.

Definition loadedNodes : gmap string NodePb := {["node0" := ClusterQueries.node0]}.

Definition loadedTables : gmap string (gmap N TablePb) :=
  {["s" := {[8 := Table_meta (Mem.tableT 8)]}]}.

Definition reload {S A : Type} (c : Cluster S A) : option (Cluster S A) :=
  updateCacheLocked map_to_list (λ _, map_to_list) map_to_list map_to_list map_to_list
                    (λ _ _, map_to_list) map_to_list
                    c loadedShards loadedTopologies loadedSchemas loadedNodes loadedTables.

Definition loaded : option (Cluster Mem.MemStorage Mem.CounterAlloc) :=
  reload (ClusterQueries.NewCluster (cluster (metaData_ (Mem.freshCluster 7)))
                                    Mem.emptyStorage 7).

End ClusterLoad.

(** ** Facts about the entry lock *)

Module LockFacts.
Import Lock.

Lemma someExists_true held locks :
  someExists held locks = true ↔ ∃ e, e ∈ locks ∧ e ∈ held.
Proof.
  induction locks as [|x rest IH]; simpl.
  - split; [discriminate | intros (e & He & _); inversion He].
  - destruct (decide (x ∈ held)) as [Hin|Hnin].
    + split; [intros _; exists x; split; [left | done] | done].
    + rewrite IH. split.
      * intros (e & He & Hh). exists e. split; [by right | done].
      * intros (e & He & Hh). apply elem_of_cons in He as [->|He]; [done|].
        by exists e.
Qed.

Lemma someExists_false held locks :
  someExists held locks = false ↔ ∀ e, e ∈ locks → e ∉ held.
Proof.
  rewrite <- not_true_iff_false, someExists_true. split.
  - intros Hno e He Hh. apply Hno. by exists e.
  - intros Hall (e & He & Hh). by apply (Hall e).
Qed.

Lemma insertAll_union held locks :
  insertAll held locks = held ∪ list_to_set locks.
Proof.
  revert held. induction locks as [|x rest IH]; intros held; simpl.
  - by rewrite (right_id_L ∅ (∪)).
  - rewrite IH. apply set_eq. intros e.
    rewrite !elem_of_union, elem_of_singleton. tauto.
Qed.

Lemma someMissing_true held locks :
  someMissing held locks = true ↔ ∃ e, e ∈ locks ∧ e ∉ held.
Proof.
  induction locks as [|x rest IH]; simpl.
  - split; [discriminate | intros (e & He & _); inversion He].
  - destruct (decide (x ∈ held)) as [Hin|Hnin].
    + rewrite IH. split.
      * intros (e & He & Hh). exists e. split; [by right | done].
      * intros (e & He & Hh). apply elem_of_cons in He as [->|He]; [done|].
        by exists e.
    + split; [intros _; exists x; split; [left | done] | done].
Qed.

Lemma someMissing_false held locks :
  someMissing held locks = false ↔ ∀ e, e ∈ locks → e ∈ held.
Proof.
  rewrite <- not_true_iff_false, someMissing_true. split.
  - intros Hno e He. destruct (decide (e ∈ held)) as [|Hn]; [done|].
    exfalso. apply Hno. by exists e.
  - intros Hall (e & He & Hh). by apply Hh, Hall.
Qed.

Lemma deleteAll_difference held locks :
  deleteAll held locks = held ∖ list_to_set locks.
Proof.
  revert held. induction locks as [|x rest IH]; intros held; simpl.
  - by rewrite difference_empty_L.
  - rewrite IH. apply set_eq. intros e.
    rewrite !elem_of_difference, elem_of_union, elem_of_singleton. tauto.
Qed.

(** C1. For every list of entries and every state of the lock, [TryLock]
    returns true exactly when no entry of the list is held; on true the
    held set becomes the old one together with exactly the entries of
    the list, and on false the lock is unchanged. The only two states a
    caller can observe are therefore the old one and the fully acquired
    one. *)
Theorem TryLock_all_or_nothing (l : EntryLock) (locks : list N) :
  (fst (TryLock l locks) = true ↔ ∀ e, e ∈ locks → e ∉ entryLocks l) ∧
  (fst (TryLock l locks) = true →
     entryLocks (snd (TryLock l locks)) = entryLocks l ∪ list_to_set locks ∧
     ∀ e, e ∈ entryLocks (snd (TryLock l locks)) ↔
          e ∈ entryLocks l ∨ e ∈ locks) ∧
  (fst (TryLock l locks) = false → snd (TryLock l locks) = l).
Proof.
  unfold TryLock.
  destruct (someExists (entryLocks l) locks) eqn:Hex; simpl.
  - split; [|split]; [|discriminate|done].
    split; [discriminate|]. intros Hall.
    apply (proj2 (someExists_false _ _)) in Hall. congruence.
  - pose proof (proj1 (someExists_false _ _) Hex) as Hall.
    split; [|split]; [done| |discriminate].
    intros _. rewrite insertAll_union. split; [done|].
    intros e. rewrite elem_of_union, elem_of_list_to_set. done.
Qed.

(** C5. [UnLock] panics exactly when some entry of the list is not held;
    when every entry is held it returns and the held set is the old one
    without exactly the entries of the list; when it panics the lock is
    unchanged. *)
Theorem UnLock_panics_iff_not_held (l : EntryLock) (locks : list N) :
  (is_Panic (fst (UnLock l locks)) = true ↔
     ∃ e, e ∈ locks ∧ e ∉ entryLocks l) ∧
  ((∀ e, e ∈ locks → e ∈ entryLocks l) →
     fst (UnLock l locks) = Return tt ∧
     entryLocks (snd (UnLock l locks)) = entryLocks l ∖ list_to_set locks ∧
     ∀ e, e ∈ entryLocks (snd (UnLock l locks)) ↔
          e ∈ entryLocks l ∧ e ∉ locks) ∧
  (is_Panic (fst (UnLock l locks)) = true → snd (UnLock l locks) = l).
Proof.
  unfold UnLock.
  destruct (someMissing (entryLocks l) locks) eqn:Hmiss; simpl.
  - pose proof (proj1 (someMissing_true _ _) Hmiss) as Hsome.
    split; [|split]; [done| |done].
    intros Hall. apply (proj2 (someMissing_false _ _)) in Hall. congruence.
  - split; [|split]; [|intros _|discriminate].
    + split; [discriminate|]. intros Hsome.
      apply (proj2 (someMissing_true _ _)) in Hsome. congruence.
    + rewrite deleteAll_difference. split; [done|]. split; [done|].
      intros e. rewrite elem_of_difference, elem_of_list_to_set. done.
Qed.

(** C10. [TryLock] of the empty list returns true and leaves the held
    set unchanged, and [UnLock] of the empty list on the resulting lock
    returns without a panic and leaves the held set unchanged. *)
Theorem TryLock_UnLock_empty (l : EntryLock) :
  fst (TryLock l []) = true ∧
  entryLocks (snd (TryLock l [])) = entryLocks l ∧
  fst (UnLock (snd (TryLock l [])) []) = Return tt ∧
  entryLocks (snd (UnLock (snd (TryLock l [])) [])) = entryLocks l.
Proof.
  unfold TryLock, UnLock; simpl.
  repeat split; reflexivity.
Qed.

(** [TryLock] on a lock that holds 1 and 2: entries 3 and 4 are free and
    are acquired; 3 and 2 overlap and nothing is acquired. *)
Lemma TryLock_all_or_nothing_witness :
  let l := {| entryLocks := {[1; 2]} |} in
  entryLocks (snd (TryLock l [3; 4])) = {[1; 2]} ∪ list_to_set [3; 4] ∧
  snd (TryLock l [3; 2]) = l.
Proof.
  intros l.
  destruct (TryLock_all_or_nothing l [3; 4]) as (_ & Hadd & _).
  destruct (TryLock_all_or_nothing l [3; 2]) as (_ & _ & Hkeep).
  split.
  - apply Hadd. vm_compute. reflexivity.
  - apply Hkeep. vm_compute. reflexivity.
Defined.

(** [UnLock] on a lock that holds 1, 2 and 3: releasing 1 and 3 leaves 2;
    releasing 2 and 7 panics and leaves the lock as it was. *)
Lemma UnLock_panics_iff_not_held_witness :
  let l := {| entryLocks := {[1; 2; 3]} |} in
  entryLocks (snd (UnLock l [1; 3])) = {[1; 2; 3]} ∖ list_to_set [1; 3] ∧
  snd (UnLock l [2; 7]) = l.
Proof.
  intros l.
  destruct (UnLock_panics_iff_not_held l [1; 3]) as (_ & Hall & _).
  destruct (UnLock_panics_iff_not_held l [2; 7]) as (_ & _ & Hkeep).
  split.
  - apply Hall. intros e He. apply (bool_decide_unpack _).
    apply list_elem_of_In in He. simpl in He.
    destruct He as [<-|[<-|[]]]; vm_compute; exact I.
  - apply Hkeep. vm_compute. reflexivity.
Defined.

(** A run: a first acquisition succeeds, an overlapping one is refused
    and changes nothing, a disjoint one succeeds. *)
Example TryLock_run :
  let l0 := NewEntryLock 3 in
  let r1 := TryLock l0 [1; 2] in
  let r2 := TryLock (snd r1) [3; 2] in
  let r3 := TryLock (snd r2) [3; 4] in
  (fst r1, fst r2, fst r3) = (true, false, true) ∧ snd r2 = snd r1 ∧
  entryLocks (snd r3) = list_to_set [1; 2; 3; 4].
Proof. by vm_compute. Qed.

(** An overlapping release panics and releases nothing. *)
Example UnLock_run :
  let l1 := snd (TryLock (NewEntryLock 3) [1; 2]) in
  is_Panic (fst (UnLock l1 [2; 7])) = true ∧ snd (UnLock l1 [2; 7]) = l1 ∧
  UnLock l1 [2; 1] = (Return tt, NewEntryLock 3).
Proof. by vm_compute. Qed.

End LockFacts.

(** ** Facts about the cluster cache *)

Module ClusterFacts.
Import Cluster Mem.

Section Generic.
Context {S A : Type} `{!Storage S, !Allocator A}.
Implicit Types c : Cluster S A.

(** Destructs the next interface call or map lookup the goal is stuck on. *)
Ltac step :=
  match goal with
  | |- context [alloc_Alloc ?a] =>
      let E := fresh "Ealloc" in destruct (alloc_Alloc a) as [? [?|?]] eqn:E
  | |- context [storage_CreateSchema ?s ?i ?x] =>
      let E := fresh "Estore" in destruct (storage_CreateSchema s i x) as [? [?|?]] eqn:E
  | |- context [storage_CreateTable ?s ?i ?j ?x] =>
      let E := fresh "Estore" in destruct (storage_CreateTable s i j x) as [? [?|?]] eqn:E
  | |- context [storage_GetTable ?s ?i ?j ?x] =>
      let E := fresh "Estore" in destruct (storage_GetTable s i j x) as [? [[?|]|?]] eqn:E
  | |- context [storage_DeleteTable ?s ?i ?j ?x] =>
      let E := fresh "Estore" in destruct (storage_DeleteTable s i j x) as [? [?|]] eqn:E
  | |- context [storage_CreateOrUpdateNode ?s ?i ?x] =>
      let E := fresh "Estore" in destruct (storage_CreateOrUpdateNode s i x) as [? [?|?]] eqn:E
  end; simpl.




(** What the rest of [DropTable] would do with the schema in hand and a
    storage that deletes the row: the name leaves the schema's table map
    and the ID leaves every shard. *)
Lemma rest_of_DropTable_drops c schemaName schema tableName tableID st' :
  storage_DeleteTable (storage c) (clusterID c) (Schema_GetID schema) tableName
    = (st', None) →
  let c' := snd (rest_of_DropTable c schemaName schema tableName tableID) in
  fst (rest_of_DropTable c schemaName schema tableName tableID) = Return tt ∧
  (∃ schema', schemasCache c' !! schemaName = Some schema' ∧
              Schema_getTable schema' tableName = None) ∧
  (∀ shardID shard, shardsCache c' !! shardID = Some shard →
                    Shard_tables shard !! tableID = None).
Proof.
  intros Hdel. unfold rest_of_DropTable. rewrite Hdel. simpl.
  split; [done|]. split.
  - eexists. rewrite lookup_insert_eq. split; [done|].
    unfold Schema_getTable, Schema_dropTableLocked. simpl.
    apply lookup_delete_eq.
  - intros shardID shard. rewrite lookup_fmap.
    destruct (shardsCache c !! shardID) as [sh|]; simpl; [|done].
    intros [= <-]. simpl. apply lookup_delete_eq.
Qed.

(** [CreateTable] asks the allocator on every call with a cached schema:
    a call that returns gives the ID that very call allocated, and leaves
    the allocator in the state after that allocation. *)
Lemma CreateTable_returns_allocated c schemaName shardID tableName tableID :
  fst (CreateTable c schemaName shardID tableName) = Return tableID →
  alloc_Alloc (alloc c)
  = (alloc (snd (CreateTable c schemaName shardID tableName)), Ok tableID).
Proof.
  unfold CreateTable, getSchemaLocked, allocTableID.
  destruct (schemasCache c !! schemaName) as [schema|]; [|done].
  step; [|done]. step; [|done].
  unfold updateTableCacheLocked. simpl.
  destruct (shardsCache c !! _) as [shard|]; simpl; [|done].
  by intros [= <-].
Qed.

(** A call of [CreateTable] that returns has put its table into the
    shard's table set under the allocated ID, when the storage hands the
    record back with its ID and shard. *)
Lemma CreateTable_touches_shard c schemaName shardID tableName tableID :
  fst (CreateTable c schemaName shardID tableName) = Return tableID →
  (∀ st cid sid t st' t', storage_CreateTable st cid sid t = (st', Ok t') →
                          table_Id t' = table_Id t ∧ table_ShardId t' = table_ShardId t) →
  ∃ shard table,
    shardsCache (snd (CreateTable c schemaName shardID tableName)) !! shardID = Some shard ∧
    Shard_tables shard !! tableID = Some table ∧ Table_GetID table = tableID.
Proof.
  unfold CreateTable, getSchemaLocked, allocTableID.
  destruct (schemasCache c !! schemaName) as [schema|]; [|done].
  step; [|done]. step; [|done].
  intros Hret Hlaw. apply Hlaw in Estore as [Hid Hshard]. simpl in Hid, Hshard.
  revert Hret. unfold updateTableCacheLocked. simpl. rewrite Hshard.
  destruct (shardsCache c !! shardID) as [shard|]; simpl; [|done].
  intros [= <-]. eexists _, _. split; [apply lookup_insert_eq|]. simpl.
  unfold Table_GetID. simpl. rewrite Hid. split; [apply lookup_insert_eq|done].
Qed.

(** C4. [CreateSchema] is idempotent by name. When the cache has a
    schema under the name, the call returns that schema's ID and the whole
    cluster, the allocator and the storage included, is as before. When it
    has none and the allocator and the storage succeed, the call returns
    the newly allocated ID (as a uint32), the storage has run its
    [CreateSchema] on the record with that ID, name and cluster, the
    record it returned is cached under its name with an empty table map,
    and nothing else has changed; a second call under that name then
    returns the cached schema's ID and changes nothing. *)
Theorem CreateSchema_idempotent_by_name c schemaName :
  (∀ schema, schemasCache c !! schemaName = Some schema →
     CreateSchema c schemaName = (Return (Schema_GetID schema), c)) ∧
  (schemasCache c !! schemaName = None →
   ∀ a' ID st' schemaPb',
     alloc_Alloc (alloc c) = (a', Ok ID) →
     storage_CreateSchema (storage c) (clusterID c)
       {| schema_Id := ID mod 2 ^ 32; schema_Name := schemaName;
          schema_ClusterId := clusterID c; schema_CreatedAt := 0 |}
       = (st', Ok schemaPb') →
     ∃ c', CreateSchema c schemaName = (Return (ID mod 2 ^ 32), c') ∧
       alloc c' = a' ∧ storage c' = st' ∧
       schemasCache c'
         = <[schema_Name schemaPb' := {| Schema_meta := schemaPb'; tableMap := ∅ |}]>
             (schemasCache c) ∧
       shardsCache c' = shardsCache c ∧ nodesCache c' = nodesCache c ∧
       metaData_ c' = metaData_ c ∧ clusterID c' = clusterID c ∧
       (schema_Name schemaPb' = schemaName →
        CreateSchema c' schemaName = (Return (schema_Id schemaPb'), c'))).
Proof.
  split.
  - intros schema Hs. unfold CreateSchema, getSchemaLocked. by rewrite Hs.
  - intros Hnone a' ID st' schemaPb' Halloc Hstore.
    unfold CreateSchema at 1, getSchemaLocked, allocSchemaID.
    rewrite Hnone, Halloc. simpl. rewrite Hstore.
    eexists. split; [reflexivity|]. simpl. repeat (split; [reflexivity|]).
    intros Hname. unfold CreateSchema, getSchemaLocked. simpl.
    rewrite Hname. rewrite lookup_insert_eq. reflexivity.
Qed.

(** When the allocator or the storage fails, [CreateSchema] returns the
    wrapped error and the caches are as before. *)
Lemma CreateSchema_failure_keeps_caches c schemaName e :
  fst (CreateSchema c schemaName) = Failed e →
  let c' := snd (CreateSchema c schemaName) in
  schemasCache c' = schemasCache c ∧ shardsCache c' = shardsCache c ∧
  nodesCache c' = nodesCache c.
Proof.
  unfold CreateSchema, getSchemaLocked, allocSchemaID.
  destruct (schemasCache c !! schemaName); [done|].
  step; [|done]. step; done.
Qed.

(** C9. [RegisterNode] makes one storage call, [CreateOrUpdateNode] on
    the record of the given node name and lease; the cluster topology,
    every shard (its table set included), every schema with its tables,
    the allocator and every other node of the node cache are as before.
    When the storage returns the record, the node's cache entry holds it
    (keeping the shard IDs of an entry already there); when the storage
    fails, the call returns the error and the node cache is as before. *)
Theorem RegisterNode_touches_only_the_node c nodeName lease :
  let nodePb := {| node_Name := nodeName;
                   node_NodeStats := Some {| Lease := lease |};
                   node_CreateTime := 0; node_LastTouchTime := 0 |} in
  let stored := storage_CreateOrUpdateNode (storage c) (clusterID c) nodePb in
  let c' := snd (RegisterNode c nodeName lease) in
  storage c' = fst stored ∧
  metaData_ c' = metaData_ c ∧ shardsCache c' = shardsCache c ∧
  schemasCache c' = schemasCache c ∧ alloc c' = alloc c ∧
  clusterID c' = clusterID c ∧
  (∀ other, other ≠ nodeName → nodesCache c' !! other = nodesCache c !! other) ∧
  match snd stored with
  | Ok nodePb1 =>
      fst (RegisterNode c nodeName lease) = Return tt ∧
      nodesCache c' !! nodeName
        = Some {| Node_meta := nodePb1;
                  Node_shardIDs := default [] (Node_shardIDs <$> nodesCache c !! nodeName) |}
  | Err err =>
      is_Failed (fst (RegisterNode c nodeName lease)) = true ∧
      nodesCache c' = nodesCache c
  end.
Proof.
  intros nodePb stored c'. subst c' stored. unfold RegisterNode. fold nodePb.
  destruct (storage_CreateOrUpdateNode (storage c) (clusterID c) nodePb)
    as [st' [nodePb1|err]] eqn:Estore; simpl.
  - destruct (nodesCache c !! nodeName) as [node|] eqn:Hnode; simpl;
      repeat (split; [reflexivity|]);
      (split; [intros other Hne; by apply lookup_insert_ne|]);
      (split; [reflexivity|apply lookup_insert_eq]).
  - repeat split; reflexivity.
Qed.

End Generic.

(** *** On the in-memory store *)

(** The in-memory [CreateOrUpdateNode] writes the node's row and no
    other: schema rows, table rows and the rows of other nodes stay. *)
Lemma mem_CreateOrUpdateNode_frame st clusterID node :
  let st' := fst (mem_CreateOrUpdateNode st clusterID node) in
  mem_schemas st' = mem_schemas st ∧ mem_tables st' = mem_tables st ∧
  ∀ key, key ≠ (clusterID, node_Name node) → mem_nodes st' !! key = mem_nodes st !! key.
Proof.
  unfold mem_CreateOrUpdateNode. destruct (mem_available st); simpl; [|done].
  split; [done|]. split; [done|]. intros key Hne. by apply lookup_insert_ne.
Qed.

(** With the counting allocator, two calls of [CreateTable] in a row
    that both return never return the same ID, whatever the arguments. *)
Lemma CreateTable_twice_distinct (c : Cluster MemStorage CounterAlloc)
    schemaName shardID tableName first second :
  fst (CreateTable c schemaName shardID tableName) = Return first →
  fst (CreateTable (snd (CreateTable c schemaName shardID tableName))
         schemaName shardID tableName) = Return second →
  second = first + 1 ∧ second ≠ first.
Proof.
  intros H1 H2.
  apply CreateTable_returns_allocated in H1, H2.
  simpl in H1, H2. unfold counter_Alloc in H1, H2.
  inversion H1 as [[Hstate Hfirst]]. inversion H2 as [[Hstate' Hsecond]].
  rewrite <- Hstate. lia.
Qed.

(** With the counting allocator below 2^32 and above every cached schema
    ID, the ID of a new schema is the allocator's next one and differs
    from every cached schema's. *)
Lemma CreateSchema_fresh_id (c : Cluster MemStorage CounterAlloc) schemaName :
  schemasCache c !! schemaName = None →
  mem_available (storage c) = true →
  alloc c < 2 ^ 32 →
  (∀ name schema, schemasCache c !! name = Some schema → Schema_GetID schema < alloc c) →
  fst (CreateSchema c schemaName) = Return (alloc c) ∧
  ∀ name schema, schemasCache c !! name = Some schema → Schema_GetID schema ≠ alloc c.
Proof.
  intros Hnone Havail Hsmall Hbelow. split.
  - unfold CreateSchema, getSchemaLocked, allocSchemaID. rewrite Hnone. simpl.
    unfold mem_CreateSchema. rewrite Havail. simpl.
    by rewrite N.mod_small.
  - intros name schema Hs. apply Hbelow in Hs. lia.
Qed.

(** C2. On the cluster with schema [s], two calls of [CreateTable] for
    table [t] on shard 1 return two table IDs, 8 and then 9; the shard's
    table set holds one table after the first call and two after the
    second, and the schema's entry for [t] is the second table. *)
Theorem CreateTable_twice_allocates_twice :
  let first := CreateTable withSchema "s" 1 "t" in
  let second := CreateTable (snd first) "s" 1 "t" in
  fst first = Return 8 ∧ fst second = Return 9 ∧
  tableIDsOfShard (snd first) 1 = [8] ∧
  tableIDsOfShard (snd second) 1 = [8; 9] ∧
  (schemasCache (snd second) !! "s" ≫= λ schema, Schema_getTable schema "t")
    = Some (tableT 9).
Proof. vm_compute. repeat split; reflexivity. Qed.

(** C3. On the cluster where schema [s] holds table [t] with ID 8 on
    shard 1, [DropTable] for [s], [t] and 8 returns the schema-not-found
    error and leaves the cluster as it was: [GetTable] still finds the
    table and shard 1 still holds ID 8. *)
Theorem DropTable_of_existing_table_fails :
  fst (GetTable withTable "s" "t") = Return (Some (tableT 8)) ∧
  tableIDsOfShard withTable 1 = [8] ∧
  DropTable withTable "s" "t" 8
    = (Failed (ErrSchemaNotFound (Msgf "schemaName:%s" [ArgS "s"])), withTable) ∧
  fst (GetTable (snd (DropTable withTable "s" "t" 8)) "s" "t")
    = Return (Some (tableT 8)) ∧
  tableIDsOfShard (snd (DropTable withTable "s" "t" 8)) 1 = [8].
Proof. vm_compute. repeat split; reflexivity. Qed.

(** [CreateSchema] on the fresh cluster with the allocator at 7: the
    schema gets ID 7 and is cached under its name; asking again returns 7
    and changes nothing. *)
Lemma CreateSchema_idempotent_by_name_witness :
  CreateSchema (freshCluster 7) "s" = (Return 7, withSchema) ∧
  CreateSchema withSchema "s" = (Return 7, withSchema).
Proof.
  destruct (CreateSchema_idempotent_by_name (freshCluster 7) "s") as [_ Hnew].
  destruct (Hnew eq_refl 8 7 (fst (mem_CreateSchema emptyStorage 1 schemaS)) schemaS
              eq_refl eq_refl) as (c' & Hcall & _ & _ & _ & _ & _ & _ & _ & Hagain).
  assert (Hc' : c' = withSchema).
  { unfold withSchema. by rewrite Hcall. }
  subst c'. split; [exact Hcall|]. exact (Hagain eq_refl).
Defined.

(** The scenarios run on the fresh cluster. *)
Example CreateSchema_run :
  let first := CreateSchema (freshCluster 7) "s" in
  let second := CreateSchema (snd first) "s" in
  fst first = Return 7 ∧ second = (Return 7, snd first) ∧
  alloc (snd second) = 8 ∧
  mem_schemas (storage (snd second)) !! (1, 7) = Some schemaS.
Proof. vm_compute. repeat split; reflexivity. Qed.

Example RegisterNode_run :
  let r := RegisterNode withTable "node0" 10 in
  fst r = Return tt ∧
  (Node_shardIDs <$> nodesCache (snd r) !! "node0") = Some [] ∧
  tableIDsOfShard (snd r) 1 = [8] ∧
  mem_tables (storage (snd r)) = mem_tables (storage withTable).
Proof. vm_compute. repeat split; reflexivity. Qed.

(** An unknown shard: the table is persisted and entered in the schema's
    table map before the nil shard is reached. *)
Example CreateTable_unknown_shard :
  let r := CreateTable withSchema "s" 5 "t" in
  fst r = Panic nilDereference ∧
  is_Some (mem_tables (storage (snd r)) !! (1, 7, "t")) ∧
  is_Some (schemasCache (snd r) !! "s" ≫= λ schema, Schema_getTable schema "t").
Proof. vm_compute. repeat split; eexists; reflexivity. Qed.

End ClusterFacts.

(** ** Facts about event dispatch *)

Module DispatchFacts.
Import EventDispatch Sim.

Section Generic.
Variables ShardInfo TableInfo ShardInfoPB TableInfoPB : Type.
Variable ConvertShardsInfoToPB : ShardInfo → ShardInfoPB.
Variable ConvertTableInfoToPB : TableInfo → TableInfoPB.
Context {W : Type} `{!Dialer W, !Transport ShardInfoPB TableInfoPB W}.

Lemma run_shape d w addr call :
  run ConvertShardsInfoToPB ConvertTableInfoToPB d w addr call
  = shape ConvertShardsInfoToPB ConvertTableInfoToPB d w addr call.
Proof.
  unfold shape.
  destruct call; simpl;
    [ unfold OpenShard | unfold CloseShard | unfold CreateTableOnShard
    | unfold DropTableOnShard | unfold OpenTableOnShard | unfold CloseTableOnShard ];
    destruct (getMetaEventClient d w addr) as [[[client|err] d1] w1]; try reflexivity;
    match goal with
    | |- context [Invoke w1 client ?q] =>
        destruct (Invoke w1 client q) as [w2 [resp|err]]; try reflexivity
    end;
    destruct (Header resp) as [header|]; try reflexivity;
    destruct (decide (Code header ≠ 0)); reflexivity.
Qed.

(** A hit returns the stored connection, whatever the world is like, and
    neither dials nor changes the cache. *)
Lemma getGrpcClient_hit d w addr cc :
  conns d !! addr = Some cc → getGrpcClient d w addr = (Ok cc, d, w).
Proof. intros Hhit. unfold getGrpcClient. by rewrite Hhit. Qed.

(** A miss dials the endpoint; a successful dial is stored under the
    endpoint, a failed one leaves the cache as it was. *)
Lemma getGrpcClient_miss d w addr :
  conns d !! addr = None →
  getGrpcClient d w addr
  = match GetClientConn w addr with
    | (w', Ok cc) => (Ok cc, {| conns := <[addr := cc]> (conns d) |}, w')
    | (w', Err err) => (Err err, d, w')
    end.
Proof.
  intros Hmiss. unfold getGrpcClient. rewrite Hmiss.
  by destruct (GetClientConn w addr) as [w' [cc|err]].
Qed.

(** The cache only grows: an entry is never removed or replaced. *)
Lemma getGrpcClient_keeps d w addr other cc :
  conns d !! other = Some cc →
  conns (getGrpcClient d w addr).1.2 !! other = Some cc.
Proof.
  intros Hother. unfold getGrpcClient.
  destruct (conns d !! addr) as [client|] eqn:Haddr; [done|].
  destruct (GetClientConn w addr) as [w' [new|err]]; simpl; [|done].
  rewrite lookup_insert_ne; [done|]. intros ->. congruence.
Qed.

Lemma run_keeps d w addr call other cc :
  conns d !! other = Some cc →
  conns (run ConvertShardsInfoToPB ConvertTableInfoToPB d w addr call).1.2 !! other
  = Some cc.
Proof.
  intros Hother. rewrite run_shape. unfold shape, getMetaEventClient.
  pose proof (getGrpcClient_keeps d w addr other cc Hother) as Hkeep.
  destruct (getGrpcClient d w addr) as [[[client|err] d1] w1]; simpl in *; [|done].
  destruct (Invoke w1 client _) as [w2 [resp|err]]; simpl; [|done].
  destruct (Header resp) as [header|]; simpl; [|done].
  by destruct (decide (Code header ≠ 0)).
Qed.

(** The forwarding service's [getForwardedGrpcClient] is the same cache
    over the service's own map. *)
Lemma getForwardedGrpcClient_as_getGrpcClient m w addr :
  let r := GrpcService.getForwardedGrpcClient {| GrpcService.conns := m |} w addr in
  let r' := getGrpcClient {| conns := m |} w addr in
  r.1.1 = r'.1.1 ∧ GrpcService.conns r.1.2 = conns r'.1.2 ∧ r.2 = r'.2.
Proof.
  unfold GrpcService.getForwardedGrpcClient, getGrpcClient. simpl.
  destruct (m !! addr) as [client|]; [done|].
  by destruct (GetClientConn w addr) as [w' [cc|err]].
Qed.

(** C6. Each of the six calls returns an error exactly when the remote
    call underneath failed (no connection to the endpoint could be
    obtained, or the request returned an error) or the response header's
    code is non-zero. With a non-zero code the error is the dispatch error
    whose cause carries the operation, the address and the header's error
    message. With a zero code the call returns: [CreateTableOnShard] and
    [DropTableOnShard] the response's latest shard version, the others
    nothing. *)
Theorem dispatch_error_iff d w addr call :
  let o := (run ConvertShardsInfoToPB ConvertTableInfoToPB d w addr call).1.1 in
  let u := underlying d w addr (wire ConvertShardsInfoToPB ConvertTableInfoToPB call) in
  (is_Failed o = true ↔ rpc_failed u ∨ code_nonzero u) ∧
  (∀ resp header,
     u = Responded resp → Header resp = Some header → Code header ≠ 0 →
     o = Failed (ErrDispatch
                   (Msgf (opName call +:+ ", addr:%s, request:%v, err:%s")
                         [ArgS addr; ArgV "request"; ArgS (Error header)]))) ∧
  (∀ resp header,
     u = Responded resp → Header resp = Some header → Code header = 0 →
     o = Return (returned call resp)).
Proof.
  intros o u. subst o u. rewrite run_shape.
  unfold shape, underlying, getMetaEventClient.
  destruct (getGrpcClient d w addr) as [[[client|err] d1] w1]; simpl.
  - destruct (Invoke w1 client _) as [w2 [resp|err]]; simpl.
    + destruct (Header resp) as [header|] eqn:Hheader; simpl.
      * destruct (decide (Code header ≠ 0)) as [Hcode|Hcode]; simpl.
        -- split; [split; [by right | done]|]. split.
           ++ intros resp' header' [= <-]. rewrite Hheader. by intros [= <-].
           ++ intros resp' header' [= <-]. rewrite Hheader. by intros [= <-].
        -- split; [split; [done | by intros [[]|?]]|]. split.
           ++ intros resp' header' [= <-]. rewrite Hheader. by intros [= <-].
           ++ intros resp' header' [= <-]. done.
      * split; [split; [done | by intros [[]|[]]]|].
        split; intros resp' header' [= <-]; by rewrite Hheader.
    + split; [split; [by left | done]|]. split; intros ? ? [=].
  - split; [split; [by left | done]|]. split; intros ? ? [=].
Qed.

End Generic.

(** *** On the simulated network *)

(** C7. The client starts with an empty cache; [node0] can be dialed. The
    first use misses, dials, gets connection 0 and stores it. Connection 0
    then becomes unavailable and a call over it fails. The next use hits:
    it returns connection 0 again and dials nothing, and the call over it
    fails again, although a dial of [node0] would succeed. *)
Theorem failed_connection_is_returned_again :
  let first := simGetGrpcClient NewDispatchImpl (net0 (okReply 1)) "node0" in
  let d1 := first.1.2 in
  let w1 := break 0 first.2 in
  let failed := simOpenShard d1 w1 "node0" {| Shard := 3 |} in
  let next := simGetGrpcClient failed.1.2 failed.2 "node0" in
  let again := simOpenShard next.1.2 next.2 "node0" {| Shard := 3 |} in
  (first.1.1 = Ok 0 ∧ conns d1 = {["node0" := 0]} ∧ dialed first.2 = ["node0"]) ∧
  is_Failed failed.1.1 = true ∧
  (next.1.1 = Ok 0 ∧ conns next.1.2 = {["node0" := 0]} ∧ dialed next.2 = ["node0"]) ∧
  is_Failed again.1.1 = true ∧
  fst (sim_GetClientConn next.2 "node0") ≠ next.2 ∧
  snd (sim_GetClientConn next.2 "node0") = Ok 1.
Proof. vm_compute. repeat split; try reflexivity. discriminate. Qed.

(** A dial that fails stores nothing, so the next use dials again. *)
Example failed_dial_is_retried :
  let first := simGetGrpcClient NewDispatchImpl (net0 (okReply 1)) "node9" in
  let next := simGetGrpcClient first.1.2 first.2 "node9" in
  first.1.1 = Err (External "dial failed") ∧ conns first.1.2 = ∅ ∧
  dialed next.2 = ["node9"; "node9"].
Proof. vm_compute. repeat split; reflexivity. Qed.

(** The calls on a live endpoint: a zero code returns (with the shard
    version for [CreateTableOnShard]), a non-zero code is the dispatch
    error with the remote message, a response without a header panics. *)
Example dispatch_run :
  let request := {| create_UpdateShardInfo := {| CurrShardInfo := 3 |};
                    create_TableInfo := 8; EncodedSchema := [];
                    Engine := "Analytic"; CreateIfNotExist := true;
                    Options := ∅ |} in
  (simCreateTableOnShard NewDispatchImpl (net0 (okReply 5)) "node0" request).1.1
    = Return 5 ∧
  (simCreateTableOnShard NewDispatchImpl (net0 (errReply 2 "stale shard")) "node0"
     request).1.1
    = Failed (ErrDispatch
                (Msgf "create table on shard, addr:%s, request:%v, err:%s"
                      [ArgS "node0"; ArgV "request"; ArgS "stale shard"])) ∧
  (simOpenShard NewDispatchImpl
     (net0 {| Header := None; LatestShardVersion := 0 |}) "node0" {| Shard := 3 |}).1.1
    = Panic nilDereference.
Proof. vm_compute. repeat split; reflexivity. Qed.

(** The error half of C6 on a live endpoint that answers with code 2. *)
Lemma dispatch_error_iff_witness :
  (simRun NewDispatchImpl (net0 (errReply 2 "stale shard")) "node0"
     (CallOpenShard {| Shard := 3 |})).1.1
  = Failed (ErrDispatch (Msgf "open shard, addr:%s, request:%v, err:%s"
                              [ArgS "node0"; ArgV "request"; ArgS "stale shard"])).
Proof.
  refine (proj1 (proj2 (@dispatch_error_iff N N N N (λ x, x) (λ x, x) SimNet _ _
                          NewDispatchImpl (net0 (errReply 2 "stale shard")) "node0"
                          (CallOpenShard {| Shard := 3 |})))
                (errReply 2 "stale shard") {| Code := 2; Error := "stale shard" |}
                _ _ _).
  - vm_compute. reflexivity.
  - reflexivity.
  - simpl. lia.
Defined.

End DispatchFacts.

(** ** Facts about Scatter *)

Module ScatterFacts.
Import Cluster Scatter.

Lemma length_shardsFor node next k : length (shardsFor node next k) = k.
Proof. unfold shardsFor. by rewrite length_fmap, length_seq. Qed.

(** A node's block is owned by that node and by no other. *)
Lemma ownedBy_shardsFor node node' next k :
  ownedBy node (shardsFor node' next k)
  = if decide (node' = node) then shardsFor node' next k else [].
Proof.
  unfold ownedBy, shardsFor. generalize (seq 0 k). intros js.
  destruct (decide (node' = node)) as [Heq|Hne].
  - induction js as [|j js IH]; [done|].
    rewrite fmap_cons, filter_cons_True by done. by rewrite IH.
  - induction js as [|j js IH]; [done|].
    rewrite fmap_cons, filter_cons_False by done. by rewrite IH.
Qed.

(** The sum of the first [n] block sizes. *)
Lemma sum_shardsOfNode shardTotal minNodeCount n :
  sum_list (shardsOfNode shardTotal minNodeCount <$> seq 0 n)
  = (n * (shardTotal / minNodeCount) + n `min` (shardTotal mod minNodeCount))%nat.
Proof.
  induction n as [|n IH]; [done|].
  rewrite seq_S, fmap_app, sum_list_with_app, IH.
  change (sum_list (shardsOfNode shardTotal minNodeCount <$> [(0 + n)%nat]))
    with (shardsOfNode shardTotal minNodeCount n + 0)%nat.
  unfold shardsOfNode.
  generalize (shardTotal / minNodeCount)%nat (shardTotal mod minNodeCount)%nat.
  intros q r. destruct (Nat.ltb_spec n r); lia.
Qed.

Lemma length_allocFrom shardTotal minNodeCount i next nodes :
  length (allocFrom shardTotal minNodeCount i next nodes)
  = sum_list (shardsOfNode shardTotal minNodeCount <$> seq i (length nodes)).
Proof.
  revert i next. induction nodes as [|node rest IH]; intros i next; simpl; [done|].
  by rewrite length_app, length_shardsFor, IH.
Qed.

(** All [shardTotal] shards are handed out. *)
Lemma length_allocNodeShards shardTotal minNodeCount allNodes next :
  (0 < minNodeCount ≤ length allNodes)%nat →
  length (allocNodeShards shardTotal minNodeCount allNodes next) = shardTotal.
Proof.
  intros [Hpos Hle]. unfold allocNodeShards.
  rewrite length_allocFrom, length_take, Nat.min_l by done.
  rewrite sum_shardsOfNode.
  pose proof (Nat.mod_upper_bound shardTotal minNodeCount ltac:(lia)) as Hr.
  rewrite Nat.min_r by lia.
  rewrite (Nat.div_mod_eq shardTotal minNodeCount) at 3. lia.
Qed.

(** The node at position [j] of a duplicate-free list owns exactly its
    block; a node that is not in the list owns nothing. *)
Lemma ownedBy_allocFrom shardTotal minNodeCount i next nodes node :
  NoDup nodes →
  length (ownedBy node (allocFrom shardTotal minNodeCount i next nodes))
  = match list_find (λ n, n = node) nodes with
    | Some (j, _) => shardsOfNode shardTotal minNodeCount (i + j)
    | None => 0%nat
    end.
Proof.
  revert i next. induction nodes as [|node' rest IH]; intros i next Hnd; [done|].
  apply NoDup_cons in Hnd as [Hnotin Hnd]. simpl.
  unfold ownedBy in *. rewrite filter_app, length_app.
  fold (ownedBy node (shardsFor node' next (shardsOfNode shardTotal minNodeCount i))).
  rewrite ownedBy_shardsFor, IH by done.
  destruct (decide (node' = node)) as [->|Hne].
  - rewrite length_shardsFor.
    destruct (list_find (λ n, n = node) rest) as [[j n]|] eqn:Hfind; simpl.
    + apply list_find_Some in Hfind as (Hj & -> & _).
      exfalso. apply Hnotin. by eapply list_elem_of_lookup_2.
    + by rewrite Nat.add_0_r, Nat.add_0_r.
  - destruct (list_find (λ n, n = node) rest) as [[j n]|]; simpl; [|done].
    f_equal. lia.
Qed.

Lemma list_find_NoDup_lookup (nodes : list string) i node :
  NoDup nodes → nodes !! i = Some node →
  list_find (λ n, n = node) nodes = Some (i, node).
Proof.
  intros Hnd Hi. apply list_find_Some. split; [done|]. split; [done|].
  intros j n Hj Hlt ->.
  pose proof (NoDup_lookup _ _ _ _ Hnd Hi Hj). lia.
Qed.

(** The scenarios of [TestAllocNodeShard]. *)
Example allocNodeShards_2_on_4 :
  shard_Node <$> allocNodeShards 2 4 ["node0"; "node1"; "node2"; "node3"] 0
  = ["node0"; "node1"].
Proof. reflexivity. Qed.

Example allocNodeShards_3_on_2 :
  shard_Node <$> allocNodeShards 3 2 ["node0"; "node1"] 0
  = ["node0"; "node0"; "node1"].
Proof. reflexivity. Qed.

(** Scatter does nothing while fewer than [MinNodeCount] nodes are
    registered, and nothing once the state is no longer empty. *)
Lemma scatter_waits c registered t :
  (length registered < N.to_nat (cluster_MinNodeCount c))%nat ∨ topology_State t = STABLE →
  scatter c registered t = t.
Proof.
  unfold scatter. intros [Hfew|Hstable].
  - destruct (topology_State t); [|done].
    destruct (Nat.leb_spec (N.to_nat (cluster_MinNodeCount c)) (length registered)); [lia|done].
  - by rewrite Hstable.
Qed.

(** C8. With at least [MinNodeCount] (non-zero) distinct nodes registered
    and the cluster state empty, Scatter moves the state to stable and
    hands out all [ShardTotal] shards: with [q] and [r] the quotient and
    remainder of [ShardTotal] by [MinNodeCount], the node at position [i]
    below [MinNodeCount] owns [q + 1] shards when [i < r] and [q]
    otherwise, and a node registered after those owns none. So the first
    [MinNodeCount] nodes differ by at most one shard and the earlier ones
    hold the surplus; when [ShardTotal] is divisible (2 nodes and 4
    shards: 2 each) every such node owns exactly [q]. *)
Theorem scatter_distributes_evenly (c : ClusterPb) (registered : list string)
    (t : ClusterTopology) :
  let minNodeCount := N.to_nat (cluster_MinNodeCount c) in
  let shardTotal := N.to_nat (cluster_ShardTotal c) in
  topology_State t = EMPTY →
  (0 < minNodeCount ≤ length registered)%nat →
  NoDup registered →
  let view := topology_ShardView (scatter c registered t) in
  topology_State (scatter c registered t) = STABLE ∧
  length view = shardTotal ∧
  (∀ i node, registered !! i = Some node → (i < minNodeCount)%nat →
     length (ownedBy node view)
     = (shardTotal / minNodeCount
        + if i <? shardTotal mod minNodeCount then 1 else 0)%nat) ∧
  (∀ i node, registered !! i = Some node → (minNodeCount ≤ i)%nat →
     ownedBy node view = []) ∧
  (shardTotal mod minNodeCount = 0 →
   ∀ i node, registered !! i = Some node → (i < minNodeCount)%nat →
     length (ownedBy node view) = shardTotal / minNodeCount)%nat.
Proof.
  intros m T Hempty [Hpos Hle] Hnd view.
  assert (Hview : view = allocNodeShards T m registered 0).
  { subst view. unfold scatter. rewrite Hempty. fold m T.
    destruct (Nat.leb_spec m (length registered)); [done|lia]. }
  assert (Htake : NoDup (take m registered)).
  { eapply sublist_NoDup; [done|]. apply sublist_take. }
  assert (Hper : ∀ i node, registered !! i = Some node → (i < m)%nat →
            length (ownedBy node view) = shardsOfNode T m i).
  { intros i node Hi Hlt. rewrite Hview. unfold allocNodeShards.
    rewrite ownedBy_allocFrom by done.
    rewrite (list_find_NoDup_lookup _ i node) by (try done; by rewrite lookup_take_lt).
    done. }
  split; [|split; [|split; [|split]]].
  - unfold scatter. rewrite Hempty. fold m.
    destruct (Nat.leb_spec m (length registered)); [done|lia].
  - rewrite Hview. by apply length_allocNodeShards.
  - intros i node Hi Hlt. by rewrite (Hper i node).
  - intros i node Hi Hge. apply length_zero_iff_nil.
    rewrite Hview. unfold allocNodeShards. rewrite ownedBy_allocFrom by done.
    destruct (list_find _ _) as [[j n]|] eqn:Hfind; [|done].
    apply list_find_Some in Hfind as (Hj & -> & _).
    apply lookup_take_Some in Hj as [Hj Hjlt].
    pose proof (NoDup_lookup _ _ _ _ Hnd Hi Hj). lia.
  - intros Hdiv i node Hi Hlt. rewrite (Hper i node) by done.
    unfold shardsOfNode. rewrite Hdiv. simpl. lia.
Qed.

(** The bootstrap scenario: two nodes, four shards, two shards each. *)
Lemma scatter_distributes_evenly_witness :
  let c := {| cluster_Id := 0; cluster_Name := "ceresdbCluster1";
              cluster_MinNodeCount := 2; cluster_ReplicationFactor := 1;
              cluster_ShardTotal := 4 |} in
  let t := {| topology_ClusterId := 0; topology_DataVersion := 0;
              topology_Cause := ""; topology_ShardView := [];
              topology_State := EMPTY |} in
  let view := topology_ShardView (scatter c ["node0"; "node1"] t) in
  topology_State (scatter c ["node0"; "node1"] t) = STABLE ∧
  length view = 4%nat ∧
  length (ownedBy "node0" view) = 2%nat ∧
  length (ownedBy "node1" view) = 2%nat.
Proof.
  intros c t view.
  assert (Hnd : NoDup ["node0"; "node1"]).
  { apply (bool_decide_unpack _). vm_compute. exact I. }
  destruct (scatter_distributes_evenly c ["node0"; "node1"] t eq_refl
              ltac:(simpl; lia) Hnd) as (Hstate & Hlen & Hper & _ & _).
  split; [exact Hstate|]. split; [exact Hlen|]. split.
  - exact (Hper 0%nat "node0" eq_refl ltac:(simpl; lia)).
  - exact (Hper 1%nat "node1" eq_refl ltac:(simpl; lia)).
Defined.

End ScatterFacts.

(** ** How the entry lock's operations compose *)

Module LockComposition.
Import Lock LockFacts.

Lemma TryLock_true_state l locks :
  fst (TryLock l locks) = true →
  (∀ e, e ∈ locks → e ∉ entryLocks l) ∧
  entryLocks (snd (TryLock l locks)) = entryLocks l ∪ list_to_set locks.
Proof.
  unfold TryLock. destruct (someExists (entryLocks l) locks) eqn:Hex; [done|].
  intros _. simpl. split; [by apply someExists_false|apply insertAll_union].
Qed.

Lemma TryLock_true_intro l locks :
  (∀ e, e ∈ locks → e ∉ entryLocks l) → fst (TryLock l locks) = true.
Proof.
  intros Hfree. unfold TryLock.
  by rewrite (proj2 (someExists_false _ _) Hfree).
Qed.

(** Releasing exactly what a successful [TryLock] acquired never panics
    and gives back the lock as it was before the acquisition, also when
    the list names an entry more than once. *)
Theorem TryLock_then_UnLock_restores (l : EntryLock) (locks : list N) :
  fst (TryLock l locks) = true →
  UnLock (snd (TryLock l locks)) locks = (Return tt, l).
Proof.
  intros Hok. destruct (TryLock_true_state l locks Hok) as [Hfree Hstate].
  unfold UnLock. rewrite Hstate.
  rewrite (proj2 (someMissing_false _ _)).
  - rewrite deleteAll_difference. destruct l as [held]. simpl in *. do 2 f_equal.
    apply set_eq. intros e.
    rewrite elem_of_difference, elem_of_union, elem_of_list_to_set.
    split; [tauto|]. intros He. split; [by left|]. intros Hin.
    by apply (Hfree e).
  - intros e He. rewrite elem_of_union, elem_of_list_to_set. by right.
Qed.

Lemma TryLock_then_UnLock_restores_witness :
  let l := {| entryLocks := {[5]} |} in
  UnLock (snd (TryLock l [1; 2; 1])) [1; 2; 1] = (Return tt, l).
Proof.
  intros l. apply (TryLock_then_UnLock_restores l [1; 2; 1]).
  vm_compute. reflexivity.
Defined.

(** Mutual exclusion: after a successful [TryLock], every [TryLock] whose
    list shares an entry with the acquired one is refused and changes
    nothing, the same list again included. *)
Theorem TryLock_excludes_overlap (l : EntryLock) (locks locks' : list N) (e : N) :
  fst (TryLock l locks) = true → e ∈ locks → e ∈ locks' →
  TryLock (snd (TryLock l locks)) locks' = (false, snd (TryLock l locks)).
Proof.
  intros Hok He He'. destruct (TryLock_true_state l locks Hok) as [_ Hstate].
  unfold TryLock at 1.
  rewrite (proj2 (someExists_true _ _)); [done|].
  exists e. split; [done|]. rewrite Hstate, elem_of_union, elem_of_list_to_set.
  by right.
Qed.

Lemma TryLock_excludes_overlap_witness :
  let l1 := snd (TryLock (NewEntryLock 0) [1; 2]) in
  TryLock l1 [3; 2] = (false, l1).
Proof.
  intros l1.
  apply (TryLock_excludes_overlap (NewEntryLock 0) [1; 2] [3; 2] 2).
  - vm_compute. reflexivity.
  - apply (bool_decide_unpack _). vm_compute. exact I.
  - apply (bool_decide_unpack _). vm_compute. exact I.
Defined.

(** Two acquisitions that succeed one after the other also succeed in
    the other order, and both orders end in the same lock. *)
Theorem TryLock_disjoint_commute (l : EntryLock) (a b : list N) :
  fst (TryLock l a) = true →
  fst (TryLock (snd (TryLock l a)) b) = true →
  fst (TryLock l b) = true ∧
  fst (TryLock (snd (TryLock l b)) a) = true ∧
  snd (TryLock (snd (TryLock l b)) a) = snd (TryLock (snd (TryLock l a)) b).
Proof.
  intros Ha Hb.
  destruct (TryLock_true_state _ _ Ha) as [Hfa Hsa].
  destruct (TryLock_true_state _ _ Hb) as [Hfb Hsb].
  assert (Hb0 : fst (TryLock l b) = true).
  { apply TryLock_true_intro. intros e He Hin. apply (Hfb e He).
    rewrite Hsa, elem_of_union. by left. }
  destruct (TryLock_true_state _ _ Hb0) as [_ Hsb0].
  assert (Ha1 : fst (TryLock (snd (TryLock l b)) a) = true).
  { apply TryLock_true_intro. intros e He. rewrite Hsb0, elem_of_union.
    intros [Hin|Hin]; [by apply (Hfa e)|].
    apply (Hfb e); [by apply elem_of_list_to_set in Hin|].
    rewrite Hsa, elem_of_union, elem_of_list_to_set. by right. }
  destruct (TryLock_true_state _ _ Ha1) as [_ Hsa1].
  split; [done|]. split; [done|].
  destruct (snd (TryLock (snd (TryLock l b)) a)) as [s1].
  destruct (snd (TryLock (snd (TryLock l a)) b)) as [s2].
  simpl in *. f_equal. rewrite Hsa1, Hsb, Hsb0, Hsa.
  apply set_eq. intros e. rewrite !elem_of_union. tauto.
Qed.

Lemma TryLock_disjoint_commute_witness :
  let l := {| entryLocks := {[9]} |} in
  snd (TryLock (snd (TryLock l [3; 4])) [1; 2])
  = snd (TryLock (snd (TryLock l [1; 2])) [3; 4]).
Proof.
  intros l.
  apply (TryLock_disjoint_commute l [1; 2] [3; 4]); vm_compute; reflexivity.
Defined.

End LockComposition.

(** ** Facts about the cluster's queries and sequences of calls *)

Module ClusterQueriesFacts.
Import Cluster Mem ClusterQueries.

Section Generic.
Context {S A : Type} `{!Storage S, !Allocator A}.
Implicit Types c : Cluster S A.

(** Reads a field through the setters and pairs around it. *)
Ltac fields :=
  cbn [fst snd clusterID metaData_ shardsCache schemasCache nodesCache storage alloc
       set_storage set_alloc set_shardsCache set_schemasCache set_nodesCache
       updateSchemaCacheLocked] in *.




(** A table just created is found by name: when the allocator and the
    storage succeed, the storage hands the record back under the name
    asked for, and the cache has the record's shard, [CreateTable] returns
    the allocated ID, the table is in that shard's table set under its ID,
    and [GetTable] for the schema and name returns it from the cache,
    without a storage call or any change. *)
Theorem CreateTable_then_GetTable c schemaName shardID tableName
    schema a' tableID st' tablePb' shard :
  schemasCache c !! schemaName = Some schema →
  alloc_Alloc (alloc c) = (a', Ok tableID) →
  storage_CreateTable (storage c) (clusterID c) (Schema_GetID schema)
    {| table_Id := tableID; table_Name := tableName;
       table_SchemaId := Schema_GetID schema; table_ShardId := shardID;
       table_Desc := ""; table_CreatedAt := 0 |} = (st', Ok tablePb') →
  table_Name tablePb' = tableName →
  shardsCache c !! table_ShardId tablePb' = Some shard →
  let table := {| Table_schema := Schema_meta schema; Table_meta := tablePb' |} in
  let c' := snd (CreateTable c schemaName shardID tableName) in
  fst (CreateTable c schemaName shardID tableName) = Return tableID ∧
  (∃ shard', shardsCache c' !! table_ShardId tablePb' = Some shard' ∧
             Shard_tables shard' !! table_Id tablePb' = Some table) ∧
  GetTable c' schemaName tableName = (Return (Some table), c').
Proof.
  intros Hschema Halloc Hstore Hname Hshard table c'. subst c'.
  unfold CreateTable, getSchemaLocked, allocTableID.
  rewrite Hschema, Halloc. fields. rewrite Hstore.
  unfold updateTableCacheLocked. fields. rewrite Hshard. fields.
  split; [done|]. split.
  - eexists. split; [apply lookup_insert_eq|]. apply lookup_insert_eq.
  - unfold GetTable. fields. rewrite lookup_insert_eq.
    unfold Schema_getTable. cbn [tableMap]. rewrite Hname.
    by rewrite lookup_insert_eq.
Qed.

(** [CreateTable] for a shard the cache does not have: when the
    allocator and the storage succeed, the call panics on the nil shard
    after the table has been persisted and entered under its name in the
    schema's table map, so [GetTable] finds a table that no shard holds. *)
Theorem CreateTable_unknown_shard_is_partial c schemaName shardID tableName
    schema a' tableID st' tablePb' :
  schemasCache c !! schemaName = Some schema →
  alloc_Alloc (alloc c) = (a', Ok tableID) →
  storage_CreateTable (storage c) (clusterID c) (Schema_GetID schema)
    {| table_Id := tableID; table_Name := tableName;
       table_SchemaId := Schema_GetID schema; table_ShardId := shardID;
       table_Desc := ""; table_CreatedAt := 0 |} = (st', Ok tablePb') →
  table_Name tablePb' = tableName →
  shardsCache c !! table_ShardId tablePb' = None →
  let table := {| Table_schema := Schema_meta schema; Table_meta := tablePb' |} in
  let c' := snd (CreateTable c schemaName shardID tableName) in
  fst (CreateTable c schemaName shardID tableName) = Panic nilDereference ∧
  storage c' = st' ∧ shardsCache c' = shardsCache c ∧
  GetTable c' schemaName tableName = (Return (Some table), c').
Proof.
  intros Hschema Halloc Hstore Hname Hshard table c'. subst c'.
  unfold CreateTable, getSchemaLocked, allocTableID.
  rewrite Hschema, Halloc. fields. rewrite Hstore.
  unfold updateTableCacheLocked. fields. rewrite Hshard. fields.
  split; [done|]. split; [done|]. split; [done|].
  unfold GetTable. fields. rewrite lookup_insert_eq.
  unfold Schema_getTable. cbn [tableMap]. rewrite Hname.
  by rewrite lookup_insert_eq.
Qed.

(** A [CreateTable] that returns an error has changed none of the three
    caches; when the error is the missing schema, nothing at all has
    changed (no ID was allocated, the storage was not called). *)
Theorem CreateTable_failure_keeps_caches c schemaName shardID tableName e :
  fst (CreateTable c schemaName shardID tableName) = Failed e →
  let c' := snd (CreateTable c schemaName shardID tableName) in
  schemasCache c' = schemasCache c ∧ shardsCache c' = shardsCache c ∧
  nodesCache c' = nodesCache c ∧
  (schemasCache c !! schemaName = None → c' = c).
Proof.
  unfold CreateTable, getSchemaLocked, allocTableID.
  destruct (schemasCache c !! schemaName) as [schema|]; [|done].
  destruct (alloc_Alloc (alloc c)) as [a' [ID|err]]; fields; [|done].
  destruct (storage_CreateTable _ _ _ _) as [st' [pb'|err]]; fields; [|done].
  unfold updateTableCacheLocked. fields.
  by destruct (shardsCache c !! table_ShardId pb').
Qed.

(** [GetTable] reads through to the storage once: on a cache miss where
    the storage has the table (under the name asked for, on a shard the
    cache has), the call returns it and caches it, and the next call for
    the same name returns the same table from the cache with no storage
    call and no change. *)
Theorem GetTable_reads_through c schemaName tableName schema st' tablePb shard :
  schemasCache c !! schemaName = Some schema →
  tableMap schema !! tableName = None →
  storage_GetTable (storage c) (clusterID c) (Schema_GetID schema) tableName
    = (st', Ok (Some tablePb)) →
  table_Name tablePb = tableName →
  shardsCache c !! table_ShardId tablePb = Some shard →
  let table := {| Table_schema := Schema_meta schema; Table_meta := tablePb |} in
  let c' := snd (GetTable c schemaName tableName) in
  fst (GetTable c schemaName tableName) = Return (Some table) ∧
  storage c' = st' ∧
  GetTable c' schemaName tableName = (Return (Some table), c').
Proof.
  intros Hschema Hmiss Hstore Hname Hshard table c'. subst c'.
  destruct (GetTable c schemaName tableName) as [o c1] eqn:Hcall.
  unfold GetTable, Schema_getTable in Hcall.
  rewrite Hschema, Hmiss, Hstore in Hcall. fields.
  unfold updateTableCacheLocked in Hcall. fields. rewrite Hshard in Hcall.
  injection Hcall as <- <-. fields.
  split; [done|]. split; [done|].
  unfold GetTable. fields. rewrite lookup_insert_eq.
  unfold Schema_getTable. cbn [tableMap]. rewrite Hname.
  by rewrite lookup_insert_eq.
Qed.

(** A table in neither the cache nor the storage: [GetTable] returns
    "not found" without an error and the caches are as before. *)
Theorem GetTable_not_found c schemaName tableName schema st' :
  schemasCache c !! schemaName = Some schema →
  tableMap schema !! tableName = None →
  storage_GetTable (storage c) (clusterID c) (Schema_GetID schema) tableName
    = (st', Ok None) →
  GetTable c schemaName tableName = (Return None, set_storage c st').
Proof.
  intros Hschema Hmiss Hstore. unfold GetTable, Schema_getTable.
  by rewrite Hschema, Hmiss, Hstore.
Qed.

(** After a [RegisterNode] that returns, [GetShardIDs] knows the node:
    it answers the shard IDs the node had before, or none for a node that
    was not known; its answer for every other node is as before. *)
Theorem RegisterNode_then_GetShardIDs c nodeName lease :
  fst (RegisterNode c nodeName lease) = Return tt →
  let c' := snd (RegisterNode c nodeName lease) in
  GetShardIDs c' nodeName
  = Answer (match GetShardIDs c nodeName with Answer ids => ids | _ => [] end) ∧
  ∀ other, other ≠ nodeName → GetShardIDs c' other = GetShardIDs c other.
Proof.
  intros Hret c'. subst c'. revert Hret. unfold RegisterNode, GetShardIDs.
  destruct (storage_CreateOrUpdateNode _ _ _) as [st' [pb1|err]]; fields; [|done].
  intros _.
  destruct (nodesCache c !! nodeName) as [node|] eqn:Hnode; fields;
    rewrite lookup_insert_eq;
    (split; [done|]); intros other Hne; by rewrite lookup_insert_ne.
Qed.

Section Ranging.
Variable rangeTables : gmap N Table → list (N * Table).
Hypothesis rangeTables_perm : ∀ m, rangeTables m ≡ₚ map_to_list m.

Lemma GetTables_from_Answer c shardIDs nodeName acc m :
  GetTables_from rangeTables c shardIDs nodeName acc = Answer m →
  (∀ shardID, shardID ∉ shardIDs → m !! shardID = acc !! shardID) ∧
  (∀ shardID, shardID ∈ shardIDs →
     ∃ shard i node meta,
       shardsCache c !! shardID = Some shard ∧
       list_find (λ n, nodeName = node_Name n) (Shard_nodes shard) = Some (i, node) ∧
       Shard_meta shard !! i = Some meta ∧
       m !! shardID
       = Some {| shardRole := shard_ShardRole meta;
                 tables := (rangeTables (Shard_tables shard)).*2;
                 version := Shard_version shard |}).
Proof.
  revert acc. induction shardIDs as [|x rest IH]; intros acc; simpl.
  - intros [= <-]. split; [done|]. intros shardID Hin. by apply elem_of_nil in Hin.
  - destruct (shardsCache c !! x) as [shard|] eqn:Hshard; [|done].
    destruct (list_find _ (Shard_nodes shard)) as [[i node]|] eqn:Hfind; [|done].
    destruct (Shard_meta shard !! i) as [meta|] eqn:Hmeta; [|done].
    intros Hrest. apply IH in Hrest as [Hout Hin]. split.
    + intros shardID Hnotin. apply not_elem_of_cons in Hnotin as [Hne Hnotin].
      rewrite Hout by done. by rewrite lookup_insert_ne.
    + intros shardID Hmem.
      destruct (decide (shardID ∈ rest)) as [Hrestin|Hnotin]; [by apply Hin|].
      apply elem_of_cons in Hmem as [->|?]; [|done].
      exists shard, i, node, meta. rewrite Hout by done.
      by rewrite lookup_insert_eq.
Qed.

(** What [GetTables] answers. When it returns a map, the map has an
    entry for exactly the requested shard IDs, and for each of them the
    shard is cached, the node is listed among the shard's nodes, and the
    entry carries the shard's version, the role recorded at the node's
    position and exactly the tables of the shard's table set, in whatever
    order the map was visited. An empty request gives the empty map. *)
Theorem GetTables_answer c shardIDs nodeName m :
  GetTables rangeTables c shardIDs nodeName = Answer m →
  dom m = list_to_set shardIDs ∧
  ∀ shardID, shardID ∈ shardIDs →
    ∃ shard i node meta entry,
      shardsCache c !! shardID = Some shard ∧
      Shard_nodes shard !! i = Some node ∧ node_Name node = nodeName ∧
      Shard_meta shard !! i = Some meta ∧
      m !! shardID = Some entry ∧
      shardRole entry = shard_ShardRole meta ∧
      version entry = Shard_version shard ∧
      tables entry ≡ₚ (map_to_list (Shard_tables shard)).*2.
Proof.
  intros Hanswer. apply GetTables_from_Answer in Hanswer as [Hout Hin]. split.
  - apply set_eq. intros shardID. rewrite elem_of_dom, elem_of_list_to_set. split.
    + intros Hsome. destruct (decide (shardID ∈ shardIDs)) as [|Hnotin]; [done|].
      rewrite Hout, lookup_empty in Hsome by done. by destruct Hsome.
    + intros Hmem. destruct (Hin shardID Hmem) as (? & ? & ? & ? & _ & _ & _ & ->).
      by eexists.
  - intros shardID Hmem.
    destruct (Hin shardID Hmem) as (shard & i & node & meta & Hshard & Hfind & Hmeta & Hm).
    apply list_find_Some in Hfind as (Hnode & Hname & _).
    exists shard, i, node, meta. eexists. repeat (split; [done|]). simpl.
    by rewrite rangeTables_perm.
Qed.

(** When [GetTables] returns an error, the first requested shard that is
    not usable is named by it: either the cache has no such shard, or the
    shard's nodes do not include the node. *)
Theorem GetTables_not_found c shardIDs nodeName e :
  GetTables rangeTables c shardIDs nodeName = NotFound e →
  ∃ shardID, shardID ∈ shardIDs ∧
    ((shardsCache c !! shardID = None ∧
      e = ErrShardNotFound (Msgf "shardID:%d" [ArgN shardID])) ∨
     (∃ shard, shardsCache c !! shardID = Some shard ∧
               (∀ node, node ∈ Shard_nodes shard → node_Name node ≠ nodeName) ∧
               e = ErrNodeNotFound
                     (Msgf "nodeName not found in current shard, shardID:%d, nodeName:%s"
                           [ArgN shardID; ArgS nodeName]))).
Proof.
  unfold GetTables. generalize (∅ : gmap N ShardTablesWithRole).
  induction shardIDs as [|x rest IH]; intros acc; simpl; [done|].
  destruct (shardsCache c !! x) as [shard|] eqn:Hshard.
  - destruct (list_find _ (Shard_nodes shard)) as [[i node]|] eqn:Hfind.
    + destruct (Shard_meta shard !! i) as [meta|]; [|done].
      intros Hrest. apply IH in Hrest as (shardID & Hmem & Hwhy).
      exists shardID. split; [by right|done].
    + intros [= <-]. exists x. split; [by left|]. right.
      exists shard. split; [done|]. split; [|done].
      intros node Hnode Hname.
      apply list_find_None in Hfind.
      by apply (proj1 (Forall_forall _ _) Hfind node Hnode).
  - intros [= <-]. exists x. split; [by left|]. by left.
Qed.

End Ranging.

End Generic.

(** *** On the in-memory store *)

Lemma CreateTable_then_GetTable_witness :
  GetTable (snd (CreateTable withSchema "s" 1 "t")) "s" "t"
  = (Return (Some (tableT 8)), withTable).
Proof.
  pose proof (CreateTable_then_GetTable withSchema "s" 1 "t"
                {| Schema_meta := schemaS; tableMap := ∅ |} 9 8 _ _ emptyShard
                eq_refl eq_refl eq_refl eq_refl eq_refl) as (_ & _ & Hget).
  exact Hget.
Defined.

Lemma CreateTable_unknown_shard_is_partial_witness :
  let r := CreateTable withSchema "s" 5 "t" in
  fst r = Panic nilDereference ∧ shardsCache (snd r) = shardsCache withSchema ∧
  is_Return (fst (GetTable (snd r) "s" "t")) = true.
Proof.
  pose proof (CreateTable_unknown_shard_is_partial withSchema "s" 5 "t"
                {| Schema_meta := schemaS; tableMap := ∅ |} 9 8 _ _
                eq_refl eq_refl eq_refl eq_refl eq_refl) as (Hpanic & _ & Hshards & Hget).
  split; [exact Hpanic|]. split; [exact Hshards|].
  cbv zeta in Hget. by rewrite Hget.
Defined.

Lemma CreateTable_failure_keeps_caches_witness :
  snd (CreateTable (freshCluster 7) "s" 1 "t") = freshCluster 7.
Proof.
  apply (CreateTable_failure_keeps_caches (freshCluster 7) "s" 1 "t"
           (ErrSchemaNotFound (Msgf "schemaName" [ArgS "s"])) eq_refl).
  reflexivity.
Defined.

Lemma GetTable_reads_through_witness :
  let c := set_storage withSchema (storage withTable) in
  fst (GetTable c "s" "t") = Return (Some (tableT 8)) ∧
  GetTable (snd (GetTable c "s" "t")) "s" "t"
  = (Return (Some (tableT 8)), snd (GetTable c "s" "t")).
Proof.
  intros c.
  pose proof (GetTable_reads_through c "s" "t"
                {| Schema_meta := schemaS; tableMap := ∅ |} _ _ emptyShard
                eq_refl eq_refl eq_refl eq_refl eq_refl) as (Hfirst & _ & Hsecond).
  split; [exact Hfirst|exact Hsecond].
Defined.

Lemma GetTable_not_found_witness :
  GetTable withSchema "s" "nope" = (Return None, withSchema).
Proof.
  exact (GetTable_not_found withSchema "s" "nope"
           {| Schema_meta := schemaS; tableMap := ∅ |} _ eq_refl eq_refl eq_refl).
Defined.

Lemma RegisterNode_then_GetShardIDs_witness :
  GetShardIDs (snd (RegisterNode withTable "node0" 10)) "node0" = Answer [].
Proof.
  exact (proj1 (RegisterNode_then_GetShardIDs withTable "node0" 10 eq_refl)).
Defined.

Lemma GetTables_answer_witness :
  ∃ entry, GetTables map_to_list served [1; 1] "node0" = Answer {[1 := entry]} ∧
           shardRole entry = LEADER ∧ version entry = 3 ∧ tables entry ≡ₚ [tableT 8].
Proof.
  destruct (GetTables map_to_list served [1; 1] "node0") as [m| |] eqn:Hcall;
    [|by vm_compute in Hcall..].
  destruct (GetTables_answer map_to_list (λ m, reflexivity _) served [1; 1] "node0" m Hcall)
    as [_ Hentries].
  destruct (Hentries 1 ltac:(by left))
    as (shard & i & node & meta & entry & Hshard & Hnode & _ & Hmeta & _ & Hrole & Hver & Htabs).
  vm_compute in Hcall. injection Hcall as <-.
  vm_compute in Hshard. injection Hshard as <-.
  destruct i as [|[|i]]; vm_compute in Hmeta; try discriminate.
  injection Hmeta as <-.
  eexists. split; [reflexivity|]. split; [reflexivity|]. split; [reflexivity|].
  vm_compute. reflexivity.
Defined.

Lemma GetTables_not_found_witness :
  ∃ shardID, shardID ∈ [1; 9] ∧ shardsCache served !! shardID = None.
Proof.
  destruct (GetTables_not_found map_to_list served [1; 9] "node0"
              (ErrShardNotFound (Msgf "shardID:%d" [ArgN 9])) eq_refl)
    as (shardID & Hmem & [[Hnone _]|(shard & _ & _ & Hbad)]).
  - by exists shardID.
  - discriminate Hbad.
Defined.

End ClusterQueriesFacts.

(** ** Facts about the stored types and their protobuf forms *)

Module StorageTypesFacts.
Import StorageTypes.

Local Open Scope Z_scope.

(** A role survives the trip to protobuf and back exactly when it is one
    of the two named roles; any other number comes back as follower. *)
Lemma ShardRole_there_and_back (role : Z) :
  ConvertShardRolePB (ConvertShardRoleToPB role)
  = (if decide (role = ShardRoleLeader) then ShardRoleLeader else ShardRoleFollower).
Proof.
  unfold ConvertShardRoleToPB.
  destruct (decide (role = ShardRoleLeader)); [done|].
  by destruct (decide (role = ShardRoleFollower)).
Qed.

Lemma ClusterState_there_and_back (state : Z) :
  convertClusterStatePB (convertClusterStateToPB state)
  = Return (if decide (state = ClusterStateStable) then ClusterStateStable
            else if decide (state = ClusterStatePrepare) then ClusterStatePrepare
            else ClusterStateEmpty).
Proof.
  unfold convertClusterStateToPB.
  destruct (decide (state = ClusterStateEmpty)) as [->|]; [done|].
  destruct (decide (state = ClusterStateStable)); [done|].
  by destruct (decide (state = ClusterStatePrepare)).
Qed.

Lemma shardNodes_there_and_back (shardNodes : list ShardNode) :
  shardNodesPB (shardNodesToPB shardNodes) = Return (returnedShardNode <$> shardNodes).
Proof.
  induction shardNodes as [|n rest IH]; [done|].
  simpl. by rewrite IH.
Qed.

Lemma returnedShardNode_id (n : ShardNode) :
  returnedShardNode n = n ↔
  ShardNode_ShardRole n = ShardRoleLeader ∨ ShardNode_ShardRole n = ShardRoleFollower.
Proof.
  destruct n as [id role name]. unfold returnedShardNode. simpl.
  rewrite ShardRole_there_and_back. split.
  - intros [= Hrole]. destruct (decide (role = ShardRoleLeader)); [by left|by right].
  - intros [->| ->]; [done|]. by destruct (decide _).
Qed.

Lemma returnedShardNodes_id (shardNodes : list ShardNode) :
  returnedShardNode <$> shardNodes = shardNodes ↔
  Forall (λ n, ShardNode_ShardRole n = ShardRoleLeader ∨
               ShardNode_ShardRole n = ShardRoleFollower) shardNodes.
Proof.
  induction shardNodes as [|n rest IH]; [by split|].
  rewrite fmap_cons, Forall_cons, <- IH, <- returnedShardNode_id. split.
  - by intros [= -> ->].
  - by intros [-> ->].
Qed.

(** A cluster view written to protobuf and read back never panics, and
    comes back unchanged exactly when its state is one of empty, stable
    and prepare and every shard node's role is leader or follower. *)
Theorem ClusterView_there_and_back (view : ClusterView) :
  (∃ view', convertClusterViewPB (convertClusterViewToPB view) = Return view') ∧
  (convertClusterViewPB (convertClusterViewToPB view) = Return view ↔
   (ClusterView_State view = ClusterStateEmpty ∨
    ClusterView_State view = ClusterStateStable ∨
    ClusterView_State view = ClusterStatePrepare) ∧
   Forall (λ n, ShardNode_ShardRole n = ShardRoleLeader ∨
                ShardNode_ShardRole n = ShardRoleFollower)
          (ClusterView_ShardNodes view)).
Proof.
  destruct view as [cid ver state nodes created].
  unfold convertClusterViewPB, convertClusterViewToPB. simpl.
  rewrite shardNodes_there_and_back, ClusterState_there_and_back.
  split; [by eexists|].
  rewrite <- returnedShardNodes_id. split.
  - intros [= Hstate Hnodes]. split; [|done].
    destruct (decide (state = ClusterStateStable)); [by right; left|].
    destruct (decide (state = ClusterStatePrepare)); [by right; right|by left].
  - intros [Hstate ->]. do 2 f_equal.
    destruct Hstate as [->|[->| ->]]; done.
Qed.

Lemma shardNodesPB_panics (shardNodes : list (option ShardNodePB)) :
  (is_Panic (shardNodesPB shardNodes) = true ↔ None ∈ shardNodes) ∧
  is_Failed (shardNodesPB shardNodes) = false.
Proof.
  induction shardNodes as [|[n|] rest [IHp IHf]]; simpl.
  - split; [|done]. split; [done|]. intros Hin. by apply elem_of_nil in Hin.
  - destruct (shardNodesPB rest); simpl in *; split; try done.
    + split; [done|]. intros Hin. apply elem_of_cons in Hin as [?|Hin]; [done|].
      by apply IHp in Hin.
    + split; [|done]. intros _. right. by apply IHp.
  - split; [|done]. split; [|done]. intros _. by left.
Qed.

(** Reading a cluster view from protobuf panics exactly when one of its
    shard node pointers is nil or its state is none of the five named
    ones; it never returns an error. *)
Theorem convertClusterViewPB_panics_iff (view : ClusterViewPB) :
  (is_Panic (convertClusterViewPB view) = true ↔
   None ∈ pb_ClusterView_ShardNodes view ∨
   ∃ n, pb_ClusterView_State view = ClusterView_other n) ∧
  is_Failed (convertClusterViewPB view) = false.
Proof.
  unfold convertClusterViewPB.
  destruct (shardNodesPB_panics (pb_ClusterView_ShardNodes view)) as [Hp Hf].
  destruct (shardNodesPB (pb_ClusterView_ShardNodes view)) as [nodes|e|msg];
    simpl in *; [|done|].
  - destruct (pb_ClusterView_State view) eqn:Hstate; simpl; (split; [|done]).
    1-5: split; [done|]; intros [Hnil|[n [=]]]; by apply Hp in Hnil.
    split; [|done]. intros _. right. by eexists.
  - split; [|done]. split; [|done]. intros _. left. by apply Hp.
Qed.

(** A node written to protobuf and read back never panics and keeps its
    name, stats and touch time; its state comes back as online when it
    was online and as offline otherwise, so it is never unknown, and the
    node comes back unchanged exactly when its state is online or
    offline. *)
Theorem Node_there_and_back (node : Node) :
  convertNodePB (convertNodeToPB node)
  = Return {| Node_Name := Node_Name node; Node_NodeStats := Node_NodeStats node;
              Node_LastTouchTime := Node_LastTouchTime node;
              Node_State := if decide (Node_State node = NodeStateOnline)
                            then NodeStateOnline else NodeStateOffline |} ∧
  (convertNodePB (convertNodeToPB node) = Return node ↔
   Node_State node = NodeStateOnline ∨ Node_State node = NodeStateOffline).
Proof.
  destruct node as [name [lease zone ver] touch state].
  unfold convertNodePB, convertNodeToPB, convertNodeStateToPB. simpl.
  assert (Hstate : convertNodeStatePB
            (if decide (state = NodeStateUnknown) then NodeState_OFFLINE
             else if decide (state = NodeStateOnline) then NodeState_ONLINE
             else if decide (state = NodeStateOffline) then NodeState_OFFLINE
             else NodeState_OFFLINE)
          = if decide (state = NodeStateOnline) then NodeStateOnline else NodeStateOffline).
  { destruct (decide (state = NodeStateUnknown)) as [->|]; [done|].
    destruct (decide (state = NodeStateOnline)); [done|].
    by destruct (decide (state = NodeStateOffline)). }
  rewrite Hstate. split; [done|]. split.
  - intros [= Hs]. destruct (decide (state = NodeStateOnline)); [by left|by right].
  - intros [->| ->]; done.
Qed.

(** Reading a node from protobuf panics exactly when its stats pointer
    is nil. *)
Theorem convertNodePB_panics_iff (node : NodePB) :
  is_Panic (convertNodePB node) = true ↔ pb_Node_Stats node = None.
Proof.
  unfold convertNodePB. by destruct (pb_Node_Stats node).
Qed.

(** A cluster record written to protobuf and read back keeps every field
    but the topology type, which comes back as itself when it is one of
    "unknown", "static" and "dynamic" and as "static" otherwise. *)
Theorem Cluster_there_and_back (cluster : Cluster) :
  convertClusterPB (convertClusterToPB cluster)
  = {| Cluster_ID := Cluster_ID cluster; Cluster_Name := Cluster_Name cluster;
       Cluster_MinNodeCount := Cluster_MinNodeCount cluster;
       Cluster_ShardTotal := Cluster_ShardTotal cluster;
       Cluster_TopologyType :=
         if decide (Cluster_TopologyType cluster ∈
                      [TopologyTypeUnknown; TopologyTypeStatic; TopologyTypeDynamic])
         then Cluster_TopologyType cluster else TopologyTypeStatic;
       Cluster_ProcedureExecutingBatchSize := Cluster_ProcedureExecutingBatchSize cluster;
       Cluster_CreatedAt := Cluster_CreatedAt cluster;
       Cluster_ModifiedAt := Cluster_ModifiedAt cluster |}.
Proof.
  destruct cluster as [id name mnc st tt batch created modified].
  unfold convertClusterPB, convertClusterToPB, convertTopologyTypeToPB. simpl.
  f_equal.
  destruct (decide (tt = TopologyTypeUnknown)) as [->|Hu]; [done|].
  destruct (decide (tt = TopologyTypeStatic)) as [->|Hs]; [done|].
  destruct (decide (tt = TopologyTypeDynamic)) as [->|Hd]; [done|].
  simpl. destruct (decide (tt ∈ _)) as [Hin|]; [|done].
  exfalso. rewrite !elem_of_cons in Hin.
  destruct Hin as [?|[?|[?|Hin]]]; try done. by apply elem_of_nil in Hin.
Qed.

Lemma copyIDs_id (ids : list N) : copyIDs ids = ids.
Proof. induction ids as [|id rest IH]; [done|]. simpl. by rewrite IH. Qed.

(** Schemas, tables and shard views come back from protobuf exactly as
    they were written, whatever they hold; a table is partitioned after
    the trip exactly when it was before. *)
Theorem Schema_Table_ShardView_there_and_back {PartitionInfoPB : Type}
    (schema : Schema) (table : Table PartitionInfoPB) (view : ShardView) :
  convertSchemaPB (convertSchemaToPB schema) = schema ∧
  convertTablePB (convertTableToPB table) = table ∧
  IsPartitioned (convertTablePB (convertTableToPB table)) = IsPartitioned table ∧
  convertShardViewPB (convertShardViewToPB view) = view.
Proof.
  destruct schema, table as [? ? ? ? [?]], view.
  unfold convertSchemaPB, convertSchemaToPB, convertTablePB, convertTableToPB,
    convertShardViewPB, convertShardViewToPB. simpl.
  by rewrite !copyIDs_id.
Qed.

(** A shard status sent to protobuf and read back is never unknown:
    unknown, and any number that is no named status, come back as ready.
    The status comes back unchanged exactly when it is ready or partial
    open. *)
Theorem ShardStatus_there_and_back (status : Z) :
  ConvertShardStatusPB (Some (ConvertShardStatusToPB status)) ≠ ShardStatusUnknown ∧
  (ConvertShardStatusPB (Some (ConvertShardStatusToPB status)) = status ↔
   status = ShardStatusReady ∨ status = ShardStatusPartialOpen).
Proof.
  unfold ConvertShardStatusToPB.
  destruct (decide (status = ShardStatusPartialOpen)) as [->|Hp];
    [split; [done|split; [by right|done]]|].
  destruct (decide (status = ShardStatusReady)) as [->|Hr];
    [split; [done|split; [by left|done]]|].
  destruct (decide (status = ShardStatusUnknown)) as [->|Hu];
    (split; [done|]); (split; [intros Heq; by symmetry in Heq|by intros [?|?]]).
Qed.

End StorageTypesFacts.

(** ** Facts about the stream binder and the forwarded client *)

Module ForwardingFacts.
Import EventDispatch GrpcService Forwarding Sim.

Section Generic.
Context {H W : Type} `{!Handler H, !Dialer W}.



(** While the handler refuses the bind, the binder stays unbound and the
    next heartbeat tries again. *)
Theorem refused_bind_is_retried (b : streamBinder) (h h' : H) (first : string)
    (err : error) (later : list string) :
  bound b = false →
  BindHeartbeatStream h first = (h', Some err) →
  bindEach b h (first :: later) = bindEach b h' later.
Proof.
  intros Hunbound Hbind. simpl. unfold bindIfNot. by rewrite Hunbound, Hbind.
Qed.

(** [getForwardedMetaClient] returns [(nil, nil)] exactly when
    [GetLeader] succeeds and either says the leader is local or gives an
    empty leader endpoint; it then dials nothing and leaves the
    connection cache as it was. *)
Theorem getForwardedMetaClient_nil_iff (s : Service) (h : H) (w : W) :
  let r := getForwardedMetaClient s h w in
  (r.1.1.1 = Ok None ↔
   ∃ resp, (GetLeader h).2 = Ok resp ∧ (IsLocal resp = true ∨ LeaderEndpoint resp = "")) ∧
  (r.1.1.1 = Ok None → r.1.1.2 = s ∧ r.2 = w).
Proof.
  unfold getForwardedMetaClient, getForwardedAddr, getMetaClient.
  destruct (GetLeader h) as [h' [resp|err]]; simpl.
  - destruct (IsLocal resp) eqn:Hlocal; simpl.
    + split; [|done]. split; [|done]. intros _. exists resp. by split; [|left].
    + destruct (decide (LeaderEndpoint resp ≠ "")) as [Hne|Heq]; simpl.
      * destruct (getForwardedGrpcClient s w (LeaderEndpoint resp)) as [[[c|e] s'] w'];
          simpl; (split; [|done]); (split; [done|]);
          intros (resp' & [= <-] & [?|?]); congruence.
      * split; [|done]. split; [|done]. intros _. exists resp. split; [done|].
        right. by destruct (decide (LeaderEndpoint resp = "")).
  - split; [|done]. split; [done|]. by intros (resp & [=] & _).
Qed.

End Generic.

(** *** On the simulated handler and network *)


Lemma refused_bind_is_retried_witness :
  bindEach {| node := ""; bound := false |} (handler0 (Err (External "no leader")))
    ["bad"; "node1"]
  = bindEach {| node := ""; bound := false |} (handler0 (Err (External "no leader")))
      ["node1"].
Proof.
  exact (refused_bind_is_retried {| node := ""; bound := false |}
           (handler0 (Err (External "no leader"))) _ "bad" (External "bind refused")
           ["node1"] eq_refl eq_refl).
Defined.

(** A follower that is told an empty leader endpoint gets [(nil, nil)],
    as the leader itself does. *)
Example getForwardedMetaClient_run :
  let follower := handler0 (Ok {| LeaderEndpoint := ""; IsLocal := false |}) in
  let leader := handler0 (Ok {| LeaderEndpoint := "node0"; IsLocal := true |}) in
  let forwarded := handler0 (Ok {| LeaderEndpoint := "node0"; IsLocal := false |}) in
  let s := {| GrpcService.conns := ∅ |} in
  (getForwardedMetaClient s follower (net0 (okReply 0))).1.1.1 = Ok None ∧
  (getForwardedMetaClient s leader (net0 (okReply 0))).1.1.1 = Ok None ∧
  (getForwardedMetaClient s forwarded (net0 (okReply 0))).1.1.1 = Ok (Some 0%N).
Proof. vm_compute. repeat split; reflexivity. Qed.

End ForwardingFacts.

(** ** The dispatch client's connection cache across calls *)

Module DispatchCache.
Import EventDispatch Sim DispatchFacts DispatchRuns.

Section Generic.
Variables ShardInfo TableInfo ShardInfoPB TableInfoPB : Type.
Variable ConvertShardsInfoToPB : ShardInfo → ShardInfoPB.
Variable ConvertTableInfoToPB : TableInfo → TableInfoPB.
Context {W : Type} `{!Dialer W, !Transport ShardInfoPB TableInfoPB W}.

(** No sequence of dispatch calls, whatever they return, removes or
    replaces a cached connection: an endpoint's connection stays the one
    first stored for it. *)
Theorem cached_connection_is_kept (d : DispatchImpl) (w : W)
    (calls : list (string * Call ShardInfo TableInfo)) (addr : string) (cc : ClientConn) :
  conns d !! addr = Some cc →
  conns (runAll ConvertShardsInfoToPB ConvertTableInfoToPB d w calls).1 !! addr
  = Some cc.
Proof.
  revert d w. induction calls as [|[addr' call] rest IH]; intros d w Hcached; [done|].
  simpl.
  pose proof (run_keeps ShardInfo TableInfo ShardInfoPB TableInfoPB
                ConvertShardsInfoToPB ConvertTableInfoToPB d w addr' call addr cc Hcached)
    as Hkeep.
  destruct (run _ _ d w addr' call) as [[o d'] w']. by apply IH.
Qed.

(** A call to an endpoint with a cached connection dials nothing: the
    client is unchanged and the world is the one the request itself
    leaves. *)
Theorem call_on_cached_connection (d : DispatchImpl) (w : W) (addr : string)
    (call : Call ShardInfo TableInfo) (cc : ClientConn) :
  conns d !! addr = Some cc →
  let r := run ConvertShardsInfoToPB ConvertTableInfoToPB d w addr call in
  r.1.2 = d ∧
  r.2 = fst (Invoke w cc (wire ConvertShardsInfoToPB ConvertTableInfoToPB call)).
Proof.
  intros Hcached r. subst r. rewrite run_shape.
  unfold shape, getMetaEventClient. rewrite (getGrpcClient_hit d w addr cc Hcached).
  destruct (Invoke w cc _) as [w2 [resp|err]]; simpl; [|done].
  destruct (Header resp) as [header|]; simpl; [|done].
  by destruct (decide (Code header ≠ 0)).
Qed.

(** A call to an endpoint that cannot be dialed sends no request: it
    returns the dial error wrapped with the address and leaves the cache
    as it was. *)
Theorem call_on_failed_dial (d : DispatchImpl) (w w' : W) (addr : string)
    (call : Call ShardInfo TableInfo) (err : error) :
  conns d !! addr = None →
  GetClientConn w addr = (w', Err err) →
  run ConvertShardsInfoToPB ConvertTableInfoToPB d w addr call
  = (Failed (Wrap err (Msgf "get meta event client, addr:%s" [ArgS addr])), d, w').
Proof.
  intros Hmiss Hdial. rewrite run_shape.
  unfold shape, getMetaEventClient. rewrite (getGrpcClient_miss d w addr Hmiss).
  by rewrite Hdial.
Qed.

End Generic.

Lemma cached_connection_is_kept_witness :
  let d1 := (simGetGrpcClient NewDispatchImpl (net0 (okReply 1)) "node0").1.2 in
  let w1 := break 0 (simGetGrpcClient NewDispatchImpl (net0 (okReply 1)) "node0").2 in
  conns (simRunAll d1 w1 [("node0", CallOpenShard {| Shard := 3 |});
                          ("node9", CallCloseShard {| ShardID := 3 |});
                          ("node0", CallOpenShard {| Shard := 4 |})]).1 !! "node0"
  = Some 0.
Proof.
  intros d1 w1.
  apply (cached_connection_is_kept N N N N (λ x, x) (λ x, x) d1 w1 _ "node0" 0).
  vm_compute. reflexivity.
Defined.

Lemma call_on_cached_connection_witness :
  let d1 := (simGetGrpcClient NewDispatchImpl (net0 (okReply 1)) "node0").1.2 in
  let w1 := (simGetGrpcClient NewDispatchImpl (net0 (okReply 1)) "node0").2 in
  (simRun d1 w1 "node0" (CallOpenShard {| Shard := 3 |})).1.2 = d1 ∧
  dialed (simRun d1 w1 "node0" (CallOpenShard {| Shard := 3 |})).2 = ["node0"].
Proof.
  intros d1 w1.
  destruct (call_on_cached_connection N N N N (λ x, x) (λ x, x) d1 w1 "node0"
              (CallOpenShard {| Shard := 3 |}) 0 eq_refl) as [Hd Hw].
  split; [exact Hd|]. unfold simRun. rewrite Hw. reflexivity.
Defined.

Lemma call_on_failed_dial_witness :
  (simRun NewDispatchImpl (net0 (okReply 1)) "node9" (CallCloseShard {| ShardID := 3 |})).1
  = (Failed (Wrap (External "dial failed")
                  (Msgf "get meta event client, addr:%s" [ArgS "node9"])),
     NewDispatchImpl).
Proof.
  assert (Hdial : GetClientConn (net0 (okReply 1)) "node9"
                  = ({| reachable := {["node0"]}; unavailable := ∅; nextConn := 0;
                        dialed := ["node9"]; reply := okReply 1 |},
                     Err (External "dial failed"))).
  { vm_compute. reflexivity. }
  unfold simRun.
  rewrite (call_on_failed_dial N N N N (λ x, x) (λ x, x) NewDispatchImpl
             (net0 (okReply 1)) _ "node9" (CallCloseShard {| ShardID := 3 |})
             (External "dial failed") eq_refl Hdial).
  reflexivity.
Defined.

End DispatchCache.

(** ** Facts about filling the cache *)

Module ClusterLoadFacts.
Import Cluster Mem ClusterQueries ClusterLoad.

Lemma visits_elem_of {K V : Type} `{Countable K} (order : gmap K V → list (K * V)) m k v :
  visits order → (k, v) ∈ order m ↔ m !! k = Some v.
Proof. intros Hv. rewrite (Hv m). apply elem_of_map_to_list. Qed.

Lemma visits_NoDup {K V : Type} `{Countable K} (order : gmap K V → list (K * V)) m :
  visits order → NoDup (order m).*1.
Proof. intros Hv. rewrite (Hv m). apply NoDup_fst_map_to_list. Qed.

Lemma visits_nil {K V : Type} `{Countable K} (order : gmap K V → list (K * V)) m :
  visits order → order m = [] ↔ m = ∅.
Proof.
  intros Hv. split.
  - intros Hnil. apply map_to_list_empty_iff. apply Permutation_nil_r.
    rewrite <- Hnil. symmetry. apply Hv.
  - intros ->. apply Permutation_nil_r. rewrite Hv, map_to_list_empty. done.
Qed.

Section Schemas.
Variable schemasLoaded : gmap string SchemaPb.

Lemma cacheLoadedTable_None schemaName l :
  foldl (cacheLoadedTable schemasLoaded schemaName) None l = None.
Proof. induction l as [|x l IH]; [done|]. simpl. exact IH. Qed.

Lemma cacheLoadedTable_step schemaName cache x cache1 :
  cacheLoadedTable schemasLoaded schemaName (Some cache) x = Some cache1 →
  is_Some (schemasLoaded !! schemaName) ∧
  ∀ name, is_Some (cache1 !! name) ↔ is_Some (cache !! name) ∨ name = schemaName.
Proof.
  unfold cacheLoadedTable.
  destruct (schemasLoaded !! schemaName) as [meta|]; [|done].
  intros Hstep. split; [eauto|]. intros name.
  destruct (cache !! schemaName) as [schema|] eqn:Hcached;
    injection Hstep as <-; rewrite lookup_insert_is_Some;
    destruct (decide (name = schemaName)) as [->|Hne]; rewrite ?Hcached; intuition eauto.
Qed.

Lemma cacheLoadedTable_fold schemaName l cache cache' :
  foldl (cacheLoadedTable schemasLoaded schemaName) (Some cache) l = Some cache' →
  (l ≠ [] → is_Some (schemasLoaded !! schemaName)) ∧
  ∀ name, is_Some (cache' !! name) ↔
          is_Some (cache !! name) ∨ (name = schemaName ∧ l ≠ []).
Proof.
  revert cache. induction l as [|x l IH]; intros cache Hfold.
  - simpl in Hfold. injection Hfold as <-. split; [done|]. intros name. intuition.
  - cbn [foldl] in Hfold.
    destruct (cacheLoadedTable schemasLoaded schemaName (Some cache) x) as [cache1|] eqn:Hstep;
      [|rewrite cacheLoadedTable_None in Hfold; done].
    apply cacheLoadedTable_step in Hstep as [Hmeta Hstep].
    apply IH in Hfold as [_ Hfold]. split; [done|]. intros name.
    rewrite Hfold, Hstep. intuition (try discriminate; eauto).
Qed.

Variable rangeTables : string → gmap N TablePb → list (N * TablePb).

Lemma cacheLoadedTables_None entries :
  foldl (λ cache entry,
           foldl (cacheLoadedTable schemasLoaded entry.1) cache
                 (rangeTables entry.1 entry.2)) None entries = None.
Proof.
  induction entries as [|e entries IH]; [done|]. cbn [foldl].
  rewrite cacheLoadedTable_None. exact IH.
Qed.

Lemma cacheLoadedTables_fold (entries : list (string * gmap N TablePb)) cache cache' :
  foldl (λ cache entry,
           foldl (cacheLoadedTable schemasLoaded entry.1) cache
                 (rangeTables entry.1 entry.2)) (Some cache) entries = Some cache' →
  (∀ name tables, (name, tables) ∈ entries → rangeTables name tables ≠ [] →
                  is_Some (schemasLoaded !! name)) ∧
  ∀ name, is_Some (cache' !! name) ↔
          is_Some (cache !! name) ∨
          ∃ tables, (name, tables) ∈ entries ∧ rangeTables name tables ≠ [].
Proof.
  revert cache. induction entries as [|[n tm] entries IH]; intros cache Hfold.
  - simpl in Hfold. injection Hfold as <-. split.
    + intros name tables Hin. by apply elem_of_nil in Hin.
    + intros name. split; [eauto|]. intros [?|(tables & Hin & _)]; [done|].
      by apply elem_of_nil in Hin.
  - cbn [foldl fst snd] in Hfold.
    destruct (foldl (cacheLoadedTable schemasLoaded n) (Some cache) (rangeTables n tm))
      as [cache1|] eqn:Hstep; [|rewrite cacheLoadedTables_None in Hfold; done].
    apply cacheLoadedTable_fold in Hstep as [Hmeta Hstep].
    apply IH in Hfold as [Hmetas Hfold]. split.
    + intros name tables Hin Hne. apply elem_of_cons in Hin as [Heq|Hin].
      * injection Heq as -> ->. auto.
      * eauto.
    + intros name. rewrite Hfold, Hstep. split.
      * intros [[?|[-> Hne]]|(tables & Hin & Hne)]; [by left| |].
        -- right. exists tm. split; [apply elem_of_cons; by left|done].
        -- right. exists tables. split; [apply elem_of_cons; by right|done].
      * intros [?|(tables & Hin & Hne)]; [by left; left|].
        apply elem_of_cons in Hin as [Heq|Hin].
        -- injection Heq as -> ->. left. right. done.
        -- right. eauto.
Qed.

Lemma cacheLoadedTable_defined schemaName l cache :
  (l ≠ [] → is_Some (schemasLoaded !! schemaName)) →
  is_Some (foldl (cacheLoadedTable schemasLoaded schemaName) (Some cache) l).
Proof.
  revert cache. induction l as [|x l IH]; intros cache Hmeta; [by eexists|].
  cbn [foldl]. destruct Hmeta as [meta Hmeta]; [done|].
  unfold cacheLoadedTable at 2. rewrite Hmeta.
  destruct (cache !! schemaName); apply IH; eauto.
Qed.

Lemma cacheLoadedTables_defined (entries : list (string * gmap N TablePb)) cache :
  (∀ name tables, (name, tables) ∈ entries → rangeTables name tables ≠ [] →
                  is_Some (schemasLoaded !! name)) →
  is_Some (foldl (λ cache entry,
                    foldl (cacheLoadedTable schemasLoaded entry.1) cache
                          (rangeTables entry.1 entry.2)) (Some cache) entries).
Proof.
  revert cache. induction entries as [|[n tm] entries IH]; intros cache Hmeta; [by eexists|].
  cbn [foldl fst snd].
  destruct (cacheLoadedTable_defined n (rangeTables n tm) cache) as [cache1 ->].
  - apply Hmeta. apply elem_of_cons. by left.
  - apply IH. intros name tables Hin. apply Hmeta. apply elem_of_cons. by right.
Qed.

End Schemas.

Section Nodes.

Lemma cacheLoadedNodes_fold (shardIDs : gmap string (list N))
    (entries : list (string * NodePb)) (cache : gmap string Node) name :
  NoDup entries.*1 →
  (∀ node, (name, node) ∈ entries →
     foldl (λ cache entry,
              <[entry.1 := {| Node_meta := entry.2;
                              Node_shardIDs := default [] (shardIDs !! entry.1) |}]> cache)
           cache entries !! name
     = Some {| Node_meta := node; Node_shardIDs := default [] (shardIDs !! name) |}) ∧
  (name ∉ entries.*1 →
     foldl (λ cache entry,
              <[entry.1 := {| Node_meta := entry.2;
                              Node_shardIDs := default [] (shardIDs !! entry.1) |}]> cache)
           cache entries !! name = cache !! name).
Proof.
  revert cache. induction entries as [|[n pb] entries IH]; intros cache Hnodup.
  - split; [|done]. intros node Hin. by apply elem_of_nil in Hin.
  - cbn [fmap list_fmap fst] in Hnodup. apply NoDup_cons in Hnodup as [Hfresh Hnodup].
    cbn [foldl fst snd]. split.
    + intros node Hin. apply elem_of_cons in Hin as [Heq|Hin].
      * injection Heq as -> ->.
        rewrite (proj2 (IH _ Hnodup) Hfresh). apply lookup_insert_eq.
      * apply (proj1 (IH _ Hnodup)). done.
    + intros Hnotin. cbn [fmap list_fmap fst] in Hnotin.
      apply not_elem_of_cons in Hnotin as [Hne Hnotin].
      rewrite (proj2 (IH _ Hnodup) Hnotin). by apply lookup_insert_ne.
Qed.

Lemma cacheLoadedNodes_lookup rangeNodesLoaded shardIDs nodesLoaded cache name :
  visits rangeNodesLoaded →
  cacheLoadedNodes rangeNodesLoaded shardIDs nodesLoaded cache !! name
  = match nodesLoaded !! name with
    | Some node => Some {| Node_meta := node;
                           Node_shardIDs := default [] (shardIDs !! name) |}
    | None => cache !! name
    end.
Proof.
  intros Hv. unfold cacheLoadedNodes.
  pose proof (cacheLoadedNodes_fold shardIDs (rangeNodesLoaded nodesLoaded) cache name
                (visits_NoDup _ _ Hv)) as [Hin Hout].
  destruct (nodesLoaded !! name) as [node|] eqn:Hnode.
  - apply Hin. by apply visits_elem_of.
  - apply Hout. intros Hin'. apply list_elem_of_fmap in Hin' as ([n pb] & Heq & Hin').
    simpl in Heq. subst n. apply visits_elem_of in Hin'; [|done]. congruence.
Qed.

Lemma nodesOfShard_loaded rangeNodesLoaded shardIDs nodesLoaded (cache : gmap string Node)
    metas :
  visits rangeNodesLoaded →
  nodesOfShard (cacheLoadedNodes rangeNodesLoaded shardIDs nodesLoaded cache) metas
  = omap (λ m, match nodesLoaded !! shard_Node m with
               | Some node => Some node
               | None => Node_meta <$> cache !! shard_Node m
               end) metas.
Proof.
  intros Hv. induction metas as [|m metas IH]; [done|].
  cbn [nodesOfShard omap list_omap]. rewrite cacheLoadedNodes_lookup by done.
  destruct (nodesLoaded !! shard_Node m) as [node|].
  - cbn [Node_meta]. by rewrite IH.
  - destruct (cache !! shard_Node m) as [node|]; cbn [fmap option_fmap option_map];
      by rewrite IH.
Qed.

End Nodes.

Section Shards.
Variable schemasLoaded : gmap string SchemaPb.
Variable tablesLoaded : gmap string (gmap N TablePb).

Lemma findLoadedTable_None tableID entries :
  foldl (findLoadedTable schemasLoaded tableID) None entries = None.
Proof. induction entries as [|e entries IH]; [done|]. exact IH. Qed.

Lemma findLoadedTable_fold tableID (entries : list (string * gmap N TablePb)) tables tables' :
  (∀ name tm, (name, tm) ∈ entries → tablesLoaded !! name = Some tm) →
  foldl (findLoadedTable schemasLoaded tableID) (Some tables) entries = Some tables' →
  (∀ id, id ≠ tableID → tables' !! id = tables !! id) ∧
  (∀ t, tables' !! tableID = Some t →
        tables !! tableID = Some t ∨ loaded_under schemasLoaded tablesLoaded tableID t) ∧
  (is_Some (tables !! tableID) ∨
   (∃ name tm, (name, tm) ∈ entries ∧ is_Some (tm !! tableID)) →
   is_Some (tables' !! tableID)).
Proof.
  revert tables. induction entries as [|[n tm] entries IH]; intros tables Hsub Hfold.
  - simpl in Hfold. injection Hfold as <-. split; [done|]. split; [eauto|].
    intros [?|(name & tm & Hin & _)]; [done|]. by apply elem_of_nil in Hin.
  - cbn [foldl] in Hfold.
    assert (Hsub' : ∀ name tm0, (name, tm0) ∈ entries → tablesLoaded !! name = Some tm0).
    { intros name tm0 Hin. apply Hsub. apply elem_of_cons. by right. }
    assert (Hhead : tablesLoaded !! n = Some tm).
    { apply Hsub. apply elem_of_cons. by left. }
    unfold findLoadedTable at 2 in Hfold. cbn [fst snd] in Hfold.
    destruct (tm !! tableID) as [table|] eqn:Htable.
    + destruct (schemasLoaded !! n) as [meta|] eqn:Hmeta;
        [|rewrite findLoadedTable_None in Hfold; done].
      apply (IH _ Hsub') in Hfold as (Hother & Hfrom & Hthere).
      split; [|split].
      * intros id Hne. rewrite (Hother id Hne). by apply lookup_insert_ne.
      * intros t Ht. right. apply Hfrom in Ht as [Ht|Ht]; [|done].
        rewrite lookup_insert_eq in Ht. injection Ht as <-.
        exists n, tm. done.
      * intros _. apply Hthere. left. rewrite lookup_insert_eq. eauto.
    + apply (IH _ Hsub') in Hfold as (Hother & Hfrom & Hthere).
      split; [done|]. split; [done|].
      intros [?|(name & tm0 & Hin & Hsome)]; [apply Hthere; by left|].
      apply elem_of_cons in Hin as [Heq|Hin].
      * injection Heq as -> ->. rewrite Htable in Hsome. by destruct Hsome.
      * apply Hthere. right. eauto.
Qed.

Variable rangeTablesLoaded' : N → nat → gmap string (gmap N TablePb)
                              → list (string * gmap N TablePb).
Hypothesis rangeTablesLoaded'_visits : ∀ shardID i, visits (rangeTablesLoaded' shardID i).

Lemma loadedTablesOfShard_None shardID i tableIDs :
  loadedTablesOfShard rangeTablesLoaded' schemasLoaded tablesLoaded shardID i tableIDs None
  = None.
Proof.
  revert i. induction tableIDs as [|tableID rest IH]; intros i; [done|].
  cbn [loadedTablesOfShard]. rewrite findLoadedTable_None. apply IH.
Qed.

Lemma loadedTablesOfShard_spec shardID i tableIDs tables tables' :
  loadedTablesOfShard rangeTablesLoaded' schemasLoaded tablesLoaded shardID i tableIDs
    (Some tables) = Some tables' →
  (∀ id t, tables' !! id = Some t →
           tables !! id = Some t ∨ (id ∈ tableIDs ∧ loaded_under schemasLoaded tablesLoaded id t)) ∧
  (∀ id, is_Some (tables !! id) ∨ (id ∈ tableIDs ∧ loaded_somewhere tablesLoaded id) →
         is_Some (tables' !! id)).
Proof.
  revert i tables. induction tableIDs as [|tableID rest IH]; intros i tables Hrun.
  - simpl in Hrun. injection Hrun as <-. split; [eauto|].
    intros id [?|[Hin _]]; [done|]. by apply elem_of_nil in Hin.
  - cbn [loadedTablesOfShard] in Hrun.
    destruct (foldl (findLoadedTable schemasLoaded tableID) (Some tables)
                    (rangeTablesLoaded' shardID i tablesLoaded)) as [tables1|] eqn:Hstep;
      [|rewrite loadedTablesOfShard_None in Hrun; done].
    apply findLoadedTable_fold in Hstep as (Hother & Hfrom & Hthere).
    2:{ intros name tm Hin. by apply (visits_elem_of _ _ _ _ (rangeTablesLoaded'_visits shardID i)) in Hin. }
    apply IH in Hrun as [Hfrom' Hthere']. split.
    + intros id t Ht. apply Hfrom' in Ht as [Ht|[Hin Hl]].
      * destruct (decide (id = tableID)) as [->|Hne].
        -- apply Hfrom in Ht as [Ht|Ht]; [by left|]. right. split; [|done].
           apply elem_of_cons. by left.
        -- rewrite (Hother id Hne) in Ht. by left.
      * right. split; [|done]. apply elem_of_cons. by right.
    + intros id Hid. apply Hthere'.
      destruct Hid as [Hsome|[Hin (name & tm & Hl & Hsome)]].
      * left. destruct (decide (id = tableID)) as [->|Hne].
        -- apply Hthere. by left.
        -- by rewrite (Hother id Hne).
      * apply elem_of_cons in Hin as [->|Hin].
        -- left. apply Hthere. right. exists name, tm. split; [|done].
           by apply (visits_elem_of _ _ _ _ (rangeTablesLoaded'_visits shardID i)).
        -- right. split; [done|]. exists name, tm. done.
Qed.

Variable shards : gmap N (list ShardPb).
Variable nodes : gmap string Node.

Lemma cacheLoadedShards_None entries :
  foldl (cacheLoadedShard rangeTablesLoaded' shards schemasLoaded tablesLoaded nodes)
        None entries = None.
Proof. induction entries as [|e entries IH]; [done|]. exact IH. Qed.

Lemma cacheLoadedShards_fold (entries : list (N * ShardTopology)) cache cache' shardID :
  NoDup entries.*1 →
  foldl (cacheLoadedShard rangeTablesLoaded' shards schemasLoaded tablesLoaded nodes)
        (Some cache) entries = Some cache' →
  (∀ topology, (shardID, topology) ∈ entries →
     ∃ tables,
       loadedTablesOfShard rangeTablesLoaded' schemasLoaded tablesLoaded shardID 0
         (topology_TableIds topology) (Some ∅) = Some tables ∧
       cache' !! shardID
       = Some {| Shard_meta := default [] (shards !! shardID);
                 Shard_nodes := nodesOfShard nodes (default [] (shards !! shardID));
                 Shard_tables := tables;
                 Shard_version := 0 |}) ∧
  (shardID ∉ entries.*1 → cache' !! shardID = cache !! shardID).
Proof.
  revert cache. induction entries as [|[id topology] entries IH]; intros cache Hnodup Hfold.
  - simpl in Hfold. injection Hfold as <-. split; [|done].
    intros topology Hin. by apply elem_of_nil in Hin.
  - cbn [fmap list_fmap fst] in Hnodup. apply NoDup_cons in Hnodup as [Hfresh Hnodup].
    cbn [foldl] in Hfold. unfold cacheLoadedShard at 2 in Hfold. cbn [fst snd] in Hfold.
    destruct (loadedTablesOfShard rangeTablesLoaded' schemasLoaded tablesLoaded id 0
                (topology_TableIds topology) (Some ∅)) as [tables|] eqn:Htables;
      [|rewrite cacheLoadedShards_None in Hfold; done].
    apply (IH _ Hnodup) in Hfold as [Hin Hout]. split.
    + intros topology' Hin'. apply elem_of_cons in Hin' as [Heq|Hin'].
      * injection Heq as -> ->. exists tables. split; [done|].
        rewrite (Hout Hfresh). apply lookup_insert_eq.
      * by apply Hin.
    + intros Hnotin. cbn [fmap list_fmap fst] in Hnotin.
      apply not_elem_of_cons in Hnotin as [Hne Hnotin].
      rewrite (Hout Hnotin). by apply lookup_insert_ne.
Qed.

Hypothesis schemas_of_tables :
  ∀ name tables, tablesLoaded !! name = Some tables → tables ≠ ∅ →
                 is_Some (schemasLoaded !! name).

Lemma findLoadedTable_defined tableID (entries : list (string * gmap N TablePb)) tables :
  (∀ name tm, (name, tm) ∈ entries → tablesLoaded !! name = Some tm) →
  is_Some (foldl (findLoadedTable schemasLoaded tableID) (Some tables) entries).
Proof.
  revert tables. induction entries as [|[n tm] entries IH]; intros tables Hsub; [by eexists|].
  cbn [foldl]. unfold findLoadedTable at 2. cbn [fst snd].
  assert (Hsub' : ∀ name tm0, (name, tm0) ∈ entries → tablesLoaded !! name = Some tm0).
  { intros name tm0 Hin. apply Hsub. apply elem_of_cons. by right. }
  destruct (tm !! tableID) as [table|] eqn:Htable; [|by apply IH].
  destruct (schemas_of_tables n tm) as [meta ->].
  - apply Hsub. apply elem_of_cons. by left.
  - intros ->. by rewrite lookup_empty in Htable.
  - by apply IH.
Qed.

Lemma loadedTablesOfShard_defined shardID i tableIDs tables :
  is_Some (loadedTablesOfShard rangeTablesLoaded' schemasLoaded tablesLoaded shardID i
             tableIDs (Some tables)).
Proof.
  revert i tables. induction tableIDs as [|tableID rest IH]; intros i tables; [by eexists|].
  cbn [loadedTablesOfShard].
  destruct (findLoadedTable_defined tableID (rangeTablesLoaded' shardID i tablesLoaded) tables)
    as [tables1 ->]; [|apply IH].
  intros name tm Hin.
  by apply (visits_elem_of _ _ _ _ (rangeTablesLoaded'_visits shardID i)) in Hin.
Qed.

Lemma cacheLoadedShards_defined (entries : list (N * ShardTopology)) cache :
  is_Some (foldl (cacheLoadedShard rangeTablesLoaded' shards schemasLoaded tablesLoaded nodes)
                 (Some cache) entries).
Proof.
  revert cache. induction entries as [|[id topology] entries IH]; intros cache; [by eexists|].
  cbn [foldl]. unfold cacheLoadedShard at 2. cbn [fst snd].
  destruct (loadedTablesOfShard_defined id 0 (topology_TableIds topology) ∅) as [tables ->].
  apply IH.
Qed.

End Shards.

Section ShardIDs.

Lemma named_cons name m metas :
  named name (m :: metas)
  = ((if decide (shard_Node m = name) then 1 else 0) + named name metas)%nat.
Proof.
  unfold named. rewrite filter_cons. by destruct (decide (shard_Node m = name)).
Qed.

Lemma appendShardID_fold shardID metas (shardIDs : gmap string (list N)) name :
  default [] (foldl (appendShardID shardID) shardIDs metas !! name)
  = default [] (shardIDs !! name) ++ replicate (named name metas) shardID.
Proof.
  revert shardIDs. induction metas as [|m metas IH]; intros shardIDs.
  - simpl. by rewrite app_nil_r.
  - cbn [foldl]. rewrite IH, named_cons. unfold appendShardID.
    destruct (decide (shard_Node m = name)) as [->|Hne].
    + rewrite lookup_insert_eq. cbn [default from_option id]. rewrite <- app_assoc. f_equal.
    + by rewrite lookup_insert_ne.
Qed.

Lemma shardIDsByNode_fold entries (shardIDs : gmap string (list N)) name :
  default [] (foldl (λ shardIDs entry, foldl (appendShardID entry.1) shardIDs entry.2)
                    shardIDs entries !! name)
  = default [] (shardIDs !! name) ++ appended name entries.
Proof.
  revert shardIDs. induction entries as [|[id metas] entries IH]; intros shardIDs.
  - simpl. by rewrite app_nil_r.
  - cbn [foldl fst snd]. rewrite IH, appendShardID_fold.
    unfold appended. cbn [mbind list_bind fst snd]. by rewrite <- app_assoc.
Qed.

Lemma appendToNode_fold shardID metas (cache : gmap string Node) name :
  foldl (appendToNode shardID) cache metas !! name
  = (λ node, {| Node_meta := Node_meta node;
                Node_shardIDs := Node_shardIDs node ++ replicate (named name metas) shardID |})
      <$> cache !! name.
Proof.
  revert cache. induction metas as [|m metas IH]; intros cache.
  - simpl. destruct (cache !! name) as [[meta ids]|]; [|done].
    simpl. by rewrite app_nil_r.
  - cbn [foldl]. rewrite IH, named_cons. unfold appendToNode.
    destruct (cache !! shard_Node m) as [node|] eqn:Hnode.
    + destruct (decide (shard_Node m = name)) as [Heq|Hne].
      * rewrite Heq in *. rewrite lookup_insert_eq, Hnode. simpl.
        by rewrite <- app_assoc.
      * by rewrite lookup_insert_ne.
    + destruct (decide (shard_Node m = name)) as [Heq|Hne]; [|done].
      rewrite Heq in Hnode. by rewrite Hnode.
Qed.

Lemma appendShardIDsToNodes_fold entries (cache : gmap string Node) name :
  foldl (λ cache entry, foldl (appendToNode entry.1) cache entry.2) cache entries !! name
  = (λ node, {| Node_meta := Node_meta node;
                Node_shardIDs := Node_shardIDs node ++ appended name entries |})
      <$> cache !! name.
Proof.
  revert cache. induction entries as [|[id metas] entries IH]; intros cache.
  - simpl. destruct (cache !! name) as [[meta ids]|]; [|done].
    simpl. by rewrite app_nil_r.
  - cbn [foldl fst snd]. rewrite IH, appendToNode_fold.
    destruct (cache !! name) as [node|]; [|done]. simpl.
    unfold appended. cbn [mbind list_bind fst snd]. by rewrite <- app_assoc.
Qed.

Lemma count_replicate (shardID id : N) n :
  length (filter (λ x, x = shardID) (replicate n id))
  = if decide (id = shardID) then n else 0%nat.
Proof.
  induction n as [|n IH]; [by destruct (decide (id = shardID))|].
  cbn [replicate]. rewrite filter_cons.
  destruct (decide (id = shardID)); simpl; by rewrite IH.
Qed.

Lemma count_appended name (entries : list (N * list ShardPb)) shardID :
  NoDup entries.*1 →
  (∀ metas, (shardID, metas) ∈ entries →
     length (filter (λ x, x = shardID) (appended name entries)) = named name metas) ∧
  (shardID ∉ entries.*1 →
     length (filter (λ x, x = shardID) (appended name entries)) = 0%nat).
Proof.
  induction entries as [|[id metas] entries IH]; intros Hnodup.
  - split; [|done]. intros metas Hin. by apply elem_of_nil in Hin.
  - cbn [fmap list_fmap fst] in Hnodup. apply NoDup_cons in Hnodup as [Hfresh Hnodup].
    destruct (IH Hnodup) as [Hin Hout].
    unfold appended in *. cbn [mbind list_bind fst snd].
    split.
    + intros metas' Hin'. rewrite filter_app, length_app, count_replicate.
      apply elem_of_cons in Hin' as [Heq|Hin'].
      * injection Heq as -> ->. rewrite decide_True by done.
        rewrite (Hout Hfresh). lia.
      * rewrite decide_False.
        -- by rewrite (Hin _ Hin').
        -- intros ->. apply Hfresh. apply list_elem_of_fmap. by exists (shardID, metas').
    + intros Hnotin. cbn [fmap list_fmap fst] in Hnotin.
      apply not_elem_of_cons in Hnotin as [Hne Hnotin].
      rewrite filter_app, length_app, count_replicate, decide_False by done.
      by rewrite (Hout Hnotin).
Qed.

Lemma count_appended_visits order shards name shardID :
  visits order →
  length (filter (λ x, x = shardID) (appended name (order shards)))
  = named name (default [] (shards !! shardID)).
Proof.
  intros Hv.
  destruct (count_appended name (order shards) shardID (visits_NoDup _ _ Hv)) as [Hin Hout].
  destruct (shards !! shardID) as [metas|] eqn:Hmetas.
  - apply Hin. by apply visits_elem_of.
  - rewrite Hout; [done|]. intros Hin'.
    apply list_elem_of_fmap in Hin' as ([id metas] & Heq & Hin').
    simpl in Heq. subst id. apply visits_elem_of in Hin'; [|done]. congruence.
Qed.

End ShardIDs.

Section Generic.
Context {S A : Type}.
Variable rangeTablesLoaded : gmap string (gmap N TablePb) → list (string * gmap N TablePb).
Variable rangeTables : string → gmap N TablePb → list (N * TablePb).
Variable rangeShards : gmap N (list ShardPb) → list (N * list ShardPb).
Variable rangeNodesLoaded : gmap string NodePb → list (string * NodePb).
Variable rangeShardTopologies : gmap N ShardTopology → list (N * ShardTopology).
Variable rangeTablesLoaded' : N → nat → gmap string (gmap N TablePb)
                              → list (string * gmap N TablePb).
Variable rangeShards' : gmap N (list ShardPb) → list (N * list ShardPb).

(** [updateCacheLocked] caches a schema only through one of its tables:
    after it the cached schemas are those cached before and the schemas
    of [tablesLoaded] that have a table. A schema of [schemasLoaded]
    without tables is not cached. *)
Theorem updateCacheLocked_caches_schemas_with_tables
    (c c' : Cluster S A) shards shardTopologies schemasLoaded nodesLoaded tablesLoaded :
  visits rangeTablesLoaded →
  (∀ schemaName, visits (rangeTables schemaName)) →
  updateCacheLocked rangeTablesLoaded rangeTables rangeShards rangeNodesLoaded
    rangeShardTopologies rangeTablesLoaded' rangeShards' c shards shardTopologies schemasLoaded nodesLoaded tablesLoaded = Some c' →
  ∀ schemaName,
    is_Some (schemasCache c' !! schemaName) ↔
    is_Some (schemasCache c !! schemaName) ∨
    ∃ tables, tablesLoaded !! schemaName = Some tables ∧ tables ≠ ∅.
Proof.
  intros Hv Hv' Hload schemaName. unfold updateCacheLocked in Hload.
  destruct (cacheLoadedTables _ _ _ _ _) as [schemas|] eqn:Hschemas; [|done].
  destruct (cacheLoadedShards _ _ _ _ _ _ _ _) as [shardsCache'|]; [|done].
  injection Hload as <-. cbn [schemasCache].
  apply cacheLoadedTables_fold in Hschemas as [_ Hschemas]. rewrite Hschemas.
  split; (intros [?|(tables & Hin & Hne)]; [by left|right; exists tables]).
  - split; [by apply (visits_elem_of _ _ _ _ Hv)|].
    intros ->. apply Hne. by apply (visits_nil _ _ (Hv' schemaName)).
  - split; [by apply (visits_elem_of _ _ _ _ Hv)|].
    intros Hnil. apply Hne. by apply (visits_nil _ _ (Hv' schemaName)).
Qed.

Lemma updateCacheLocked_shard_cached
    (c c' : Cluster S A) shards shardTopologies schemasLoaded nodesLoaded tablesLoaded
    shardID topology :
  visits rangeNodesLoaded →
  visits rangeShardTopologies →
  updateCacheLocked rangeTablesLoaded rangeTables rangeShards rangeNodesLoaded
    rangeShardTopologies rangeTablesLoaded' rangeShards' c shards shardTopologies
    schemasLoaded nodesLoaded tablesLoaded = Some c' →
  shardTopologies !! shardID = Some topology →
  ∃ tables,
    shardsCache c' !! shardID
    = Some {| Shard_meta := default [] (shards !! shardID);
              Shard_nodes := omap (λ m, match nodesLoaded !! shard_Node m with
                                        | Some node => Some node
                                        | None => Node_meta <$> nodesCache c !! shard_Node m
                                        end) (default [] (shards !! shardID));
              Shard_tables := tables;
              Shard_version := 0 |}.
Proof.
  intros Hvn Hvt Hload Htopology. unfold updateCacheLocked in Hload.
  destruct (cacheLoadedTables _ _ _ _ _) as [schemas|]; [|done].
  destruct (cacheLoadedShards _ _ _ _ _ _ _ _) as [shardsCache'|] eqn:Hshards; [|done].
  injection Hload as <-. cbn [shardsCache].
  unfold cacheLoadedShards in Hshards.
  pose proof (cacheLoadedShards_fold _ _ _ _ _ _ _ _ shardID (visits_NoDup _ _ Hvt) Hshards)
    as [Hin _].
  destruct (Hin topology) as (tables & _ & Hshard); [by apply visits_elem_of|].
  exists tables. rewrite Hshard. do 2 f_equal. by apply nodesOfShard_loaded.
Qed.

(** After [updateCacheLocked] a shard with a topology is cached with
    version 0 whatever version its topology has, with the records
    [shards] has for it, and with the nodes of those records that are
    cached, in the records' order: a record whose node is neither loaded
    nor cached is skipped, so the nodes can be fewer than the records. A
    shard without a topology keeps its cache entry. *)
Theorem updateCacheLocked_shard
    (c c' : Cluster S A) shards shardTopologies schemasLoaded nodesLoaded tablesLoaded :
  visits rangeNodesLoaded →
  visits rangeShardTopologies →
  updateCacheLocked rangeTablesLoaded rangeTables rangeShards rangeNodesLoaded
    rangeShardTopologies rangeTablesLoaded' rangeShards' c shards shardTopologies schemasLoaded nodesLoaded tablesLoaded = Some c' →
  ∀ shardID,
    match shardTopologies !! shardID with
    | None => shardsCache c' !! shardID = shardsCache c !! shardID
    | Some _ =>
        ∃ shard, shardsCache c' !! shardID = Some shard ∧
                 Shard_version shard = 0 ∧
                 Shard_meta shard = default [] (shards !! shardID) ∧
                 Shard_nodes shard
                 = omap (λ m, match nodesLoaded !! shard_Node m with
                              | Some node => Some node
                              | None => Node_meta <$> nodesCache c !! shard_Node m
                              end) (default [] (shards !! shardID))
    end.
Proof.
  intros Hvn Hvt Hload shardID.
  destruct (shardTopologies !! shardID) as [topology|] eqn:Htopology.
  - destruct (updateCacheLocked_shard_cached _ _ _ _ _ _ _ _ _ Hvn Hvt Hload Htopology)
      as [tables Hshard].
    eexists. split; [exact Hshard|]. done.
  - unfold updateCacheLocked in Hload.
    destruct (cacheLoadedTables _ _ _ _ _) as [schemas|]; [|done].
    destruct (cacheLoadedShards _ _ _ _ _ _ _ _) as [shardsCache'|] eqn:Hshards; [|done].
    injection Hload as <-. cbn [shardsCache].
    unfold cacheLoadedShards in Hshards.
    pose proof (cacheLoadedShards_fold _ _ _ _ _ _ _ _ shardID (visits_NoDup _ _ Hvt) Hshards)
      as [_ Hout].
    apply Hout. intros Hin'. apply list_elem_of_fmap in Hin' as ([id topology] & Heq & Hin').
    simpl in Heq. subst id. apply visits_elem_of in Hin'; [|done]. congruence.
Qed.

(** The tables [updateCacheLocked] gives a shard with a topology: under
    each table ID of the topology that some schema of [tablesLoaded] has
    a table for, one such table with the record of its schema; nothing
    under any other ID, so a table ID of the topology that no loaded
    schema has is dropped, and what the shard had cached before is gone. *)
Theorem updateCacheLocked_shard_tables
    (c c' : Cluster S A) shards shardTopologies schemasLoaded nodesLoaded tablesLoaded
    shardID topology shard :
  visits rangeShardTopologies →
  (∀ shardID i, visits (rangeTablesLoaded' shardID i)) →
  updateCacheLocked rangeTablesLoaded rangeTables rangeShards rangeNodesLoaded
    rangeShardTopologies rangeTablesLoaded' rangeShards' c shards shardTopologies
    schemasLoaded nodesLoaded tablesLoaded = Some c' →
  shardTopologies !! shardID = Some topology →
  shardsCache c' !! shardID = Some shard →
  ∀ tableID,
    (is_Some (Shard_tables shard !! tableID) ↔
     tableID ∈ topology_TableIds topology ∧ loaded_somewhere tablesLoaded tableID) ∧
    (∀ table, Shard_tables shard !! tableID = Some table →
              loaded_under schemasLoaded tablesLoaded tableID table).
Proof.
  intros Hvt Hvl Hload Htopology Hshard tableID. unfold updateCacheLocked in Hload.
  destruct (cacheLoadedTables _ _ _ _ _) as [schemas|]; [|done].
  destruct (cacheLoadedShards _ _ _ _ _ _ _ _) as [shardsCache'|] eqn:Hshards; [|done].
  injection Hload as <-. cbn [shardsCache] in Hshard.
  unfold cacheLoadedShards in Hshards.
  pose proof (cacheLoadedShards_fold _ _ _ _ _ _ _ _ shardID (visits_NoDup _ _ Hvt) Hshards)
    as [Hin _].
  destruct (Hin topology) as (tables & Htables & Hshard'); [by apply visits_elem_of|].
  rewrite Hshard' in Hshard. injection Hshard as <-. cbn [Shard_tables].
  apply (loadedTablesOfShard_spec _ _ _ Hvl) in Htables as [Hfrom Hthere].
  split; [split|].
  - intros [table Htable]. destruct (Hfrom _ _ Htable) as [Hempty|[Hid Hunder]].
    + by rewrite lookup_empty in Hempty.
    + split; [done|]. destruct Hunder as (name & tm & Hl & Ht & _).
      exists name, tm. rewrite Ht. eauto.
  - intros Hid. apply Hthere. by right.
  - intros table Htable. destruct (Hfrom _ _ Htable) as [Hempty|[_ Hunder]]; [|done].
    by rewrite lookup_empty in Hempty.
Qed.

(** After [updateCacheLocked] the shard IDs of a loaded node hold each
    shard twice for every record of the shard that names the node: the
    IDs are collected for the node when it is cached and appended to it
    again at the end. [GetShardIDs] answers with that list. *)
Theorem updateCacheLocked_lists_each_shard_twice
    (c c' : Cluster S A) shards shardTopologies schemasLoaded nodesLoaded tablesLoaded
    nodeName node :
  visits rangeShards →
  visits rangeNodesLoaded →
  visits rangeShards' →
  updateCacheLocked rangeTablesLoaded rangeTables rangeShards rangeNodesLoaded
    rangeShardTopologies rangeTablesLoaded' rangeShards' c shards shardTopologies
    schemasLoaded nodesLoaded tablesLoaded = Some c' →
  nodesLoaded !! nodeName = Some node →
  ∃ shardIDs,
    GetShardIDs c' nodeName = Answer shardIDs ∧
    ∀ shardID,
      length (filter (λ id, id = shardID) shardIDs)
      = (2 * length (filter (λ m, shard_Node m = nodeName)
                            (default [] (shards !! shardID))))%nat.
Proof.
  intros Hvs Hvn Hvs' Hload Hnode. unfold updateCacheLocked in Hload.
  destruct (cacheLoadedTables _ _ _ _ _) as [schemas|]; [|done].
  destruct (cacheLoadedShards _ _ _ _ _ _ _ _) as [shardsCache'|]; [|done].
  injection Hload as <-. unfold GetShardIDs. cbn [nodesCache].
  unfold appendShardIDsToNodes. rewrite appendShardIDsToNodes_fold.
  rewrite cacheLoadedNodes_lookup, Hnode by done.
  cbn [fmap option_fmap option_map Node_shardIDs].
  eexists. split; [reflexivity|]. intros shardID.
  unfold shardIDsByNode. rewrite shardIDsByNode_fold, lookup_empty. cbn [default from_option app].
  rewrite filter_app, length_app, !count_appended_visits by done.
  unfold named. lia.
Qed.

(** [updateCacheLocked] never fails. It leaves a table without its
    schema's record (a nil pointer in the cache) exactly when
    [tablesLoaded] has tables for a schema that [schemasLoaded] lacks;
    otherwise every cached table has its schema's record. *)
Theorem updateCacheLocked_complete_iff
    (c : Cluster S A) shards shardTopologies schemasLoaded nodesLoaded tablesLoaded :
  visits rangeTablesLoaded →
  (∀ schemaName, visits (rangeTables schemaName)) →
  (∀ shardID i, visits (rangeTablesLoaded' shardID i)) →
  is_Some (updateCacheLocked rangeTablesLoaded rangeTables rangeShards rangeNodesLoaded
             rangeShardTopologies rangeTablesLoaded' rangeShards' c shards shardTopologies
             schemasLoaded nodesLoaded tablesLoaded) ↔
  ∀ schemaName tables, tablesLoaded !! schemaName = Some tables → tables ≠ ∅ →
                       is_Some (schemasLoaded !! schemaName).
Proof.
  intros Hv Hv' Hvl. unfold updateCacheLocked. split.
  - destruct (cacheLoadedTables _ _ _ _ _) as [schemas|] eqn:Hschemas;
      [|intros [? ?]; done].
    intros _ schemaName tables Hl Hne.
    apply cacheLoadedTables_fold in Hschemas as [Hmeta _].
    apply (Hmeta schemaName tables); [by apply (visits_elem_of _ _ _ _ Hv)|].
    intros Hnil. apply Hne. by apply (visits_nil _ _ (Hv' schemaName)).
  - intros Hmeta. unfold cacheLoadedTables.
    destruct (cacheLoadedTables_defined schemasLoaded rangeTables
                (rangeTablesLoaded tablesLoaded) (schemasCache c)) as [schemas ->].
    { intros name tables Hin Hne. apply (Hmeta name tables).
      - by apply (visits_elem_of _ _ _ _ Hv).
      - intros ->. apply Hne. by apply (visits_nil _ _ (Hv' name)). }
    unfold cacheLoadedShards.
    edestruct (cacheLoadedShards_defined schemasLoaded tablesLoaded rangeTablesLoaded' Hvl
                 shards) as [shardsCache' ->]; [exact Hmeta|]. by eexists.
Qed.

Variable rangeCached : gmap N Table → list (N * Table).

(** [GetTables] after [updateCacheLocked]: the nodes of a cached shard
    skip the records whose node is not registered, while the role is read
    from the records at the node's place among the nodes. For the first
    registered node of a shard the answer carries the role of the shard's
    first record, also when that record names another, unregistered
    node; the version answered is 0. *)
Theorem GetTables_after_updateCacheLocked
    (c c' : Cluster S A) shards shardTopologies schemasLoaded nodesLoaded tablesLoaded
    shardID topology skipped m rest node :
  visits rangeNodesLoaded →
  visits rangeShardTopologies →
  updateCacheLocked rangeTablesLoaded rangeTables rangeShards rangeNodesLoaded
    rangeShardTopologies rangeTablesLoaded' rangeShards' c shards shardTopologies
    schemasLoaded nodesLoaded tablesLoaded = Some c' →
  shardTopologies !! shardID = Some topology →
  shards !! shardID = Some (skipped ++ m :: rest) →
  Forall (λ m', nodesLoaded !! shard_Node m' = None ∧
                nodesCache c !! shard_Node m' = None) skipped →
  nodesLoaded !! shard_Node m = Some node →
  ∃ first entry,
    head (skipped ++ m :: rest) = Some first ∧
    GetTables rangeCached c' [shardID] (node_Name node) = Answer {[shardID := entry]} ∧
    shardRole entry = shard_ShardRole first ∧
    version entry = 0.
Proof.
  intros Hvn Hvt Hload Htopology Hshards Hskipped Hnode.
  destruct (updateCacheLocked_shard_cached _ _ _ _ _ _ _ _ _ Hvn Hvt Hload Htopology)
    as [tables Hshard].
  rewrite Hshards in Hshard. cbn [default from_option id] in Hshard.
  assert (Hnodes : ∃ others,
            omap (λ m0, match nodesLoaded !! shard_Node m0 with
                        | Some node0 => Some node0
                        | None => Node_meta <$> nodesCache c !! shard_Node m0
                        end) (skipped ++ m :: rest) = node :: others).
  { clear Hshard Hshards. induction Hskipped as [|m' skipped [Hl Hc] _ IH].
    - cbn [app omap list_omap]. rewrite Hnode. eauto.
    - cbn [app omap list_omap]. rewrite Hl, Hc. exact IH. }
  destruct Hnodes as [others Hnodes]. rewrite Hnodes in Hshard.
  assert (Hfirst : ∃ first, head (skipped ++ m :: rest) = Some first).
  { destruct skipped; simpl; eauto. }
  destruct Hfirst as [first Hfirst]. exists first.
  unfold GetTables. cbn [GetTables_from]. rewrite Hshard.
  cbn [Shard_nodes Shard_meta Shard_tables Shard_version list_find].
  rewrite decide_True by done. cbn [fmap option_fmap option_map].
  rewrite <- head_lookup, Hfirst. eexists. split; [done|]. split; [reflexivity|]. done.
Qed.

End Generic.

Lemma loaded_defined : ∃ c', loaded = Some c'.
Proof.
  destruct loaded as [c'|] eqn:Hload; [by exists c'|]. by vm_compute in Hload.
Qed.

Lemma updateCacheLocked_caches_schemas_with_tables_witness :
  ∃ c', loaded = Some c' ∧
        is_Some (schemasCache c' !! "s") ∧ schemasCache c' !! "empty" = None.
Proof.
  destruct loaded_defined as [c' Hload]. exists c'. split; [done|].
  pose proof (updateCacheLocked_caches_schemas_with_tables
                map_to_list (λ _, map_to_list) map_to_list map_to_list map_to_list
                (λ _ _, map_to_list) map_to_list _ c' _ _ _ _ _
                (λ m, reflexivity _) (λ _ m, reflexivity _) Hload) as Hcached.
  split.
  - apply Hcached. right. eexists. split; [reflexivity|]. apply insert_non_empty.
  - apply eq_None_not_Some. intros Hsome.
    apply Hcached in Hsome as [Hsome|(tables & Hl & _)].
    + vm_compute in Hsome. by destruct Hsome.
    + by vm_compute in Hl.
Defined.

Lemma updateCacheLocked_shard_witness :
  ∃ c' shard, loaded = Some c' ∧ shardsCache c' !! 1 = Some shard ∧
              Shard_version shard = 0 ∧ length (Shard_meta shard) = 2%nat ∧
              Shard_nodes shard = [node0] ∧ shardsCache c' !! 2 = None.
Proof.
  destruct loaded_defined as [c' Hload].
  pose proof (updateCacheLocked_shard
                map_to_list (λ _, map_to_list) map_to_list map_to_list map_to_list
                (λ _ _, map_to_list) map_to_list _ c' _ _ _ _ _
                (λ m, reflexivity _) (λ m, reflexivity _) Hload) as Hshards.
  pose proof (Hshards 1) as (shard & Hshard & Hversion & Hmeta & Hnodes).
  pose proof (Hshards 2) as Hnone.
  exists c', shard. split; [done|]. split; [done|]. split; [done|].
  split; [by rewrite Hmeta|]. split; [by rewrite Hnodes|]. exact Hnone.
Defined.

Lemma updateCacheLocked_shard_tables_witness :
  ∃ c' shard, loaded = Some c' ∧ shardsCache c' !! 1 = Some shard ∧
              is_Some (Shard_tables shard !! 8) ∧ Shard_tables shard !! 9 = None.
Proof.
  destruct loaded_defined as [c' Hload].
  assert (Hshard : ∃ shard, shardsCache c' !! 1 = Some shard).
  { unfold loaded, reload in Hload. vm_compute in Hload. injection Hload as <-.
    vm_compute. eauto. }
  destruct Hshard as [shard Hshard]. exists c', shard. split; [done|]. split; [done|].
  pose proof (updateCacheLocked_shard_tables
                map_to_list (λ _, map_to_list) map_to_list map_to_list map_to_list
                (λ _ _, map_to_list) map_to_list _ c' _ _ _ _ _ 1 _ shard
                (λ m, reflexivity _) (λ _ _ m, reflexivity _) Hload eq_refl Hshard)
    as Htables.
  split.
  - apply (Htables 8). split; [vm_compute; constructor|].
    exists "s". eexists. split; [reflexivity|]. vm_compute. eauto.
  - apply eq_None_not_Some. intros Hsome.
    apply (Htables 9) in Hsome as [_ (name & tables & Hl & Hsome)].
    destruct (decide (name = "s")) as [->|Hne].
    + vm_compute in Hl. injection Hl as <-. vm_compute in Hsome. by destruct Hsome.
    + unfold loadedTables in Hl. by rewrite lookup_singleton_ne in Hl.
Defined.

Lemma updateCacheLocked_lists_each_shard_twice_witness :
  ∃ c' shardIDs, loaded = Some c' ∧ GetShardIDs c' "node0" = Answer shardIDs ∧
                 length (filter (λ id, id = 1) shardIDs) = 2%nat.
Proof.
  destruct loaded_defined as [c' Hload].
  destruct (updateCacheLocked_lists_each_shard_twice
              map_to_list (λ _, map_to_list) map_to_list map_to_list map_to_list
              (λ _ _, map_to_list) map_to_list _ c' _ _ _ _ _ "node0" node0
              (λ m, reflexivity _) (λ m, reflexivity _) (λ m, reflexivity _) Hload eq_refl)
    as (shardIDs & Hids & Hcount).
  exists c', shardIDs. split; [done|]. split; [done|]. by rewrite Hcount.
Defined.

Lemma updateCacheLocked_complete_iff_witness : is_Some loaded.
Proof.
  apply (updateCacheLocked_complete_iff
           map_to_list (λ _, map_to_list) map_to_list map_to_list map_to_list
           (λ _ _, map_to_list) map_to_list _ _ _ _ _ _
           (λ m, reflexivity _) (λ _ m, reflexivity _) (λ _ _ m, reflexivity _)).
  intros schemaName tables Hl _. destruct (decide (schemaName = "s")) as [->|Hne].
  - vm_compute. eauto.
  - unfold loadedTables in Hl. by rewrite lookup_singleton_ne in Hl.
Defined.

Lemma GetTables_after_updateCacheLocked_witness :
  ∃ c' entry, loaded = Some c' ∧
              GetTables map_to_list c' [1] "node0" = Answer {[1 := entry]} ∧
              shardRole entry = LEADER ∧ version entry = 0.
Proof.
  destruct loaded_defined as [c' Hload].
  destruct (GetTables_after_updateCacheLocked
              map_to_list (λ _, map_to_list) map_to_list map_to_list map_to_list
              (λ _ _, map_to_list) map_to_list map_to_list _ c' _ _ _ _ _ 1 _
              [{| shard_Id := 1; shard_ShardRole := LEADER; shard_Node := "node9" |}]
              {| shard_Id := 1; shard_ShardRole := FOLLOWER; shard_Node := "node0" |}
              [] node0
              (λ m, reflexivity _) (λ m, reflexivity _) Hload eq_refl eq_refl
              ltac:(repeat constructor) eq_refl)
    as (first & entry & Hfirst & Hcall & Hrole & Hversion).
  injection Hfirst as <-. exists c', entry. done.
Defined.


End ClusterLoadFacts.
